(** * Co-simulation harness of the MyCPU core (2-mmio-trap/verilog/verilator/sim.cpp)

    A shallow embedding of the simulator's word memory, bus decoder, UART and
    timer register files, VGA frame compositor, clock driver and signature
    dump, together with the properties the design document states about them.

    Conventions.  A [uint32_t] is a [Z] in [0, 2^32) with its wrap-around
    written out ([wrap32]); a [size_t] or [vluint64_t] is a [Z] in [0, 2^64).
    A [std::vector] is a [list] indexed through stdpp's lookup and insert; the
    source guards every index, and the guards are modelled as written.  A
    non-const member function returns the updated object next to its result;
    a const member function is a plain function of the object.  Text sent to
    [stdout] or to a file is a [string]. *)

From Stdlib Require Import ZArith Lia Bool List String Ascii.
From stdpp Require Import base list pretty.

Local Open Scope Z_scope.

(** ** Machine words *)

Definition wrap8 (x : Z) : Z := x mod 2 ^ 8.
Definition wrap32 (x : Z) : Z := x mod 2 ^ 32.
Definition wrap64 (x : Z) : Z := x mod 2 ^ 64.

(** [~x] on a [uint32_t]. *)
Definition not32 (x : Z) : Z := Z.lxor x 0xFFFFFFFF.

(** Byte [i] (0 is the least significant) of a word. *)
Definition byte_lane (i : nat) (w : Z) : Z :=
  Z.land (Z.shiftr w (8 * Z.of_nat i)) 0xFF.

(** ** printf conversions *)

Definition hex_digit (d : Z) : ascii :=
  match d with
  | 0 => "0" | 1 => "1" | 2 => "2" | 3 => "3"
  | 4 => "4" | 5 => "5" | 6 => "6" | 7 => "7"
  | 8 => "8" | 9 => "9" | 10 => "a" | 11 => "b"
  | 12 => "c" | 13 => "d" | 14 => "e" | _ => "f"
  end%char.

(** The [n] least significant hexadecimal digits of [v], most significant
    first. *)
Fixpoint hex_fixed (n : nat) (v : Z) : string :=
  match n with
  | O => EmptyString
  | S k => String (hex_digit (Z.land (Z.shiftr v (4 * Z.of_nat k)) 0xF))
                  (hex_fixed k v)
  end.

(** Number of hexadecimal digits [%x] prints for [v] when it may use at most
    [n] of them: leading zeros are not printed, a single digit always is. *)
Fixpoint hex_width (n : nat) (v : Z) : nat :=
  match n with
  | O => 1%nat
  | S k => if v <? 16 then 1%nat else S (hex_width k (Z.shiftr v 4))
  end.

(** ["%08x"] of an [unsigned int]. *)
Definition fmt_08x (v : Z) : string :=
  hex_fixed (Nat.max 8 (hex_width 8 v)) v.

(** ["%08zx"] of a [size_t]. *)
Definition fmt_08zx (v : Z) : string :=
  hex_fixed (Nat.max 8 (hex_width 16 v)) v.

Definition newline : string := String (ascii_of_nat 10) EmptyString.

(** ** Word Memory (class Memory) *)

(** [bool write_strobe[4]] *)
Record Strobe := mkStrobe { s0 : bool; s1 : bool; s2 : bool; s3 : bool }.

Definition lane (ws : Strobe) (i : nat) : bool :=
  match i with
  | 0%nat => s0 ws
  | 1%nat => s1 ws
  | 2%nat => s2 ws
  | _ => s3 ws
  end.

Definition no_strobe : Strobe := mkStrobe false false false false.

Module Memory.

Record t := mk { memory : list Z }.

(** [Memory(size_t size) : memory(size, 0)] *)
Definition make (size : nat) : t := mk (replicate size 0).

Definition size (m : t) : Z := Z.of_nat (length (memory m)).

(** [memory[i]] for an index the caller has checked. *)
Definition at_ (m : t) (i : Z) : Z := default 0 (memory m !! Z.to_nat i).

(** Every stored word is a [uint32_t]. *)
Definition wf (m : t) : Prop := Forall (fun w => 0 <= w < 2 ^ 32) (memory m).

Definition read (m : t) (address : Z) : Z * t :=
  let address := address / 4 in
  if address >=? size m then (0, m)
  else (at_ m address, m).

(** The third component is the text printed on [stdout]. *)
Definition readInst (m : t) (address : Z) : Z * t * string :=
  let address := address / 4 in
  if address >=? size m then
    (0, m, ("invalid read Inst address 0x" ++ fmt_08zx (wrap64 (address * 4))
            ++ newline)%string)
  else (at_ m address, m, EmptyString).

Definition write_mask (write_strobe : Strobe) : Z :=
  let write_mask := 0 in
  let write_mask :=
    if s0 write_strobe then Z.lor write_mask 0x000000FF else write_mask in
  let write_mask :=
    if s1 write_strobe then Z.lor write_mask 0x0000FF00 else write_mask in
  let write_mask :=
    if s2 write_strobe then Z.lor write_mask 0x00FF0000 else write_mask in
  let write_mask :=
    if s3 write_strobe then Z.lor write_mask 0xFF000000 else write_mask in
  write_mask.

Definition write (m : t) (address value : Z) (write_strobe : Strobe) : t :=
  let address := address / 4 in
  let write_mask := write_mask write_strobe in
  if address >=? size m then m
  else
    mk (<[Z.to_nat address :=
            Z.lor (Z.land (at_ m address) (not32 write_mask))
                  (Z.land value write_mask)]> (memory m)).

End Memory.

(** ** Bus wire contract *)

Definition DEVICE_SELECT_BITS : Z := 3.
Definition DEVICE_SHIFT : Z := 32 - DEVICE_SELECT_BITS.
Definition DEVICE_MASK : Z := wrap32 (wrap32 (Z.shiftl 1 DEVICE_SHIFT) - 1).
Definition UART_BASE : Z := 0x40000000.
Definition TIMER_BASE : Z := 0x80000000.
Definition VGA_BASE : Z := 0x30000000.

(** ** Timer Register File (class TimerMMIO) *)

Module TimerMMIO.

Record t := mk { limit : Z; enabled : bool }.

Definition init : t := mk 0 false.

Definition write (tm : t) (offset value : Z) : t :=
  if offset =? 0x4 then mk value (enabled tm)
  else if offset =? 0x8 then mk (limit tm) (negb (value =? 0))
  else tm.

Definition read (tm : t) (offset : Z) : Z :=
  if offset =? 0x4 then limit tm
  else if offset =? 0x8 then (if enabled tm then 1 else 0)
  else 0.

End TimerMMIO.

(** ** UART Register File (class UartMMIO) *)

Module UartMMIO.

Record t := mk {
  baudrate : Z;
  enabled : bool;
  last_rx : Z;
  tx_log : string
}.

Definition init : t := mk 115200 false 0 EmptyString.

(** [static_cast<char>(ch)] as the character that reaches the stream. *)
Definition char_of (ch : Z) : string :=
  String (ascii_of_N (Z.to_N ch)) EmptyString.

(** The second component is the text sent to [std::cout]. *)
Definition write (u : t) (offset value : Z) : t * string :=
  if offset =? 0x4 then
    (mk value (enabled u) (last_rx u) (tx_log u), EmptyString)
  else if offset =? 0x8 then
    (mk (baudrate u) (negb (value =? 0)) (last_rx u) (tx_log u), EmptyString)
  else if offset =? 0x10 then
    let ch := wrap8 (Z.land value 0xFF) in
    if enabled u then
      (mk (baudrate u) (enabled u) (last_rx u)
          (tx_log u ++ char_of ch)%string,
       char_of ch)
    else (u, EmptyString)
  else (u, EmptyString).

Definition read (u : t) (offset : Z) : Z :=
  if offset =? 0x4 then baudrate u
  else if offset =? 0xC then last_rx u
  else 0.

(** A run of register writes, oldest first, with the text they print. *)
Fixpoint writes (u : t) (ws : list (Z * Z)) : t * string :=
  match ws with
  | [] => (u, EmptyString)
  | (offset, value) :: rest =>
      let '(u1, o1) := write u offset value in
      let '(u2, o2) := writes u1 rest in
      (u2, (o1 ++ o2)%string)
  end.

End UartMMIO.

(** ** Frame Compositor (class VGADisplay, built with ENABLE_SDL2) *)

Module VGADisplay.

Definition H_RES : Z := 640.
Definition V_RES : Z := 480.

(** [presented] is the display sink: the frames uploaded to the texture and
    presented by the renderer, most recent first.  [sdl_quit k] tells
    whether the event queue drained by the [k]-th call of [render] (counted
    from 0) holds a window-close or an ESC key event. *)
Record t := mk {
  framebuffer : list Z;
  prev_vsync : bool;
  should_quit : bool;
  presented : list (list Z);
  sdl_quit : nat -> bool
}.

(** The constructor, when SDL initialises. *)
Definition make (events : nat -> bool) : t :=
  mk (replicate (Z.to_nat (H_RES * V_RES * 4)) 0) true false [] events.

Definition vga2bit_to_8bit (val : Z) : Z := wrap8 (val * 85).

(** Following the design document: the table of the colour expansion. *)
Definition expand_2bit (channel : Z) : Z :=
  match channel with
  | 0 => 0
  | 1 => 85
  | 2 => 170
  | _ => 255
  end.

Definition update_pixel (d : t) (rrggbb activevideo x_pos y_pos : Z) : t :=
  if negb (activevideo =? 0) && (x_pos <? H_RES) && (y_pos <? V_RES) then
    let idx := (y_pos * H_RES + x_pos) * 4 in
    let fb := framebuffer d in
    let fb := <[Z.to_nat idx := vga2bit_to_8bit (Z.land rrggbb 3)]> fb in
    let fb :=
      <[Z.to_nat (idx + 1) :=
          vga2bit_to_8bit (Z.land (Z.shiftr rrggbb 2) 3)]> fb in
    let fb :=
      <[Z.to_nat (idx + 2) :=
          vga2bit_to_8bit (Z.land (Z.shiftr rrggbb 4) 3)]> fb in
    let fb := <[Z.to_nat (idx + 3) := 255]> fb in
    mk fb (prev_vsync d) (should_quit d) (presented d) (sdl_quit d)
  else d.

Definition render (d : t) : t :=
  mk (framebuffer d) (prev_vsync d)
     (should_quit d || sdl_quit d (length (presented d)))
     (framebuffer d :: presented d) (sdl_quit d).

Definition check_vsync (d : t) (vsync : bool) : t :=
  let d := if negb vsync && prev_vsync d then render d else d in
  mk (framebuffer d) vsync (should_quit d) (presented d) (sdl_quit d).

Definition quit_requested (d : t) : bool := should_quit d.

(** The vsync check fed a sequence of samples, oldest first. *)
Definition feed_vsync (d : t) (samples : list bool) : t :=
  fold_left check_vsync samples d.

(** Following the design document: the falling edges of a sample sequence
    whose predecessor level is [prev]. *)
Fixpoint falling_edges (prev : bool) (samples : list bool) : nat :=
  match samples with
  | [] => 0%nat
  | v :: rest =>
      ((if prev && negb v then 1 else 0) + falling_edges v rest)%nat
  end.

End VGADisplay.

(** ** The core under test (class VTop)

    The verilated core is opaque: a fixed set of pins and one evaluation
    operation, a function from the input pins and the internal state to the
    output pins and the next internal state. *)

Record Inputs := mkInputs {
  reset : Z;
  clock : Z;
  io_instruction_valid : Z;
  io_memory_bundle_read_data : Z;
  io_instruction : Z;
  io_interrupt_flag : Z;
  io_vga_pixclk : Z
}.

Record Outputs := mkOutputs {
  io_deviceSelect : Z;
  io_memory_bundle_address : Z;
  io_memory_bundle_write_enable : Z;
  io_memory_bundle_write_strobe_0 : Z;
  io_memory_bundle_write_strobe_1 : Z;
  io_memory_bundle_write_strobe_2 : Z;
  io_memory_bundle_write_strobe_3 : Z;
  io_memory_bundle_write_data : Z;
  io_instruction_address : Z;
  io_vga_rrggbb : Z;
  io_vga_activevideo : Z;
  io_vga_x_pos : Z;
  io_vga_y_pos : Z;
  io_vga_vsync : Z
}.

Definition no_inputs : Inputs := mkInputs 0 0 0 0 0 0 0.
Definition no_outputs : Outputs := mkOutputs 0 0 0 0 0 0 0 0 0 0 0 0 0 0.

(** A pin read as a [bool]. *)
Definition pin (x : Z) : bool := negb (x =? 0).

(** ** Bus Decoder (the head of each tick's dispatch in Simulator::run) *)

Definition low_address (address : Z) : Z := Z.land address DEVICE_MASK.

Definition effective_address (device_select address : Z) : Z :=
  Z.lor (wrap32 (Z.shiftl device_select DEVICE_SHIFT)) (low_address address).

Definition is_uart (effective_address : Z) : bool :=
  Z.land effective_address 0xF0000000 =? UART_BASE.
Definition is_timer (effective_address : Z) : bool :=
  Z.land effective_address 0xF0000000 =? TIMER_BASE.
Definition is_vga (effective_address : Z) : bool :=
  Z.land effective_address 0xF0000000 =? VGA_BASE.

(** The three stores a bus transaction can reach. *)
Record Bus := mkBus {
  bus_memory : Memory.t;
  bus_uart : UartMMIO.t;
  bus_timer : TimerMMIO.t
}.

(** The write chain, entered when the write-enable pin is set; the second
    component is the text the UART prints. *)
Definition bus_write (b : Bus) (device_select address write_data : Z)
    (memory_write_strobe : Strobe) : Bus * string :=
  let effective_address := effective_address device_select address in
  if device_select =? 0 then
    (mkBus (Memory.write (bus_memory b) effective_address write_data
                         memory_write_strobe)
           (bus_uart b) (bus_timer b), EmptyString)
  else if is_uart effective_address then
    let '(u, out) :=
      UartMMIO.write (bus_uart b) (wrap32 (effective_address - UART_BASE))
                     write_data in
    (mkBus (bus_memory b) u (bus_timer b), out)
  else if is_timer effective_address then
    (mkBus (bus_memory b) (bus_uart b)
           (TimerMMIO.write (bus_timer b)
                            (wrap32 (effective_address - TIMER_BASE))
                            write_data), EmptyString)
  else if is_vga effective_address then (b, EmptyString)
  else (b, EmptyString).

(** The read chain, run on every tick. *)
Definition bus_read (b : Bus) (device_select address : Z) : Z * Bus :=
  let effective_address := effective_address device_select address in
  if device_select =? 0 then
    let '(w, m) := Memory.read (bus_memory b) effective_address in
    (w, mkBus m (bus_uart b) (bus_timer b))
  else if is_uart effective_address then
    (UartMMIO.read (bus_uart b) (wrap32 (effective_address - UART_BASE)), b)
  else if is_timer effective_address then
    (TimerMMIO.read (bus_timer b) (wrap32 (effective_address - TIMER_BASE)), b)
  else if is_vga effective_address then (0, b)
  else (0, b).

(** ** Signature Extractor (the tail of Simulator::run) *)

(** [snprintf(data, 9, ...)] keeps at most 8 characters. *)
Definition snprintf9 (s : string) : string := substring 0 8 s.

(** The [for] loop over the window; [acc] is the file written so far.  The
    loop needs one unit of fuel per line and answers [None] without it. *)
Fixpoint signature_loop (fuel : nat) (m : Memory.t) (addr signature_end : Z)
    (acc : string) : option (string * Memory.t) :=
  if addr <? signature_end then
    match fuel with
    | O => None
    | S fuel' =>
        let '(w, m) := Memory.read m addr in
        signature_loop fuel' m (wrap64 (addr + 4)) signature_end
          (acc ++ snprintf9 (fmt_08x w) ++ newline)%string
    end
  else Some (acc, m).

(** One line per loop iteration is enough fuel. *)
Definition signature_fuel (signature_begin signature_end : Z) : nat :=
  Z.to_nat ((signature_end - signature_begin + 3) / 4).

Definition write_signature (m : Memory.t) (signature_begin signature_end : Z)
    : option (string * Memory.t) :=
  signature_loop (signature_fuel signature_begin signature_end) m
                 signature_begin signature_end EmptyString.

(** Following the design document: the lines of the artifact, one per word
    of the window. *)
Definition signature_line (m : Memory.t) (signature_begin : Z) (k : nat)
    : string :=
  (hex_fixed 8 (fst (Memory.read m (signature_begin + 4 * Z.of_nat k)))
   ++ newline)%string.

(** The text of a file made of these pieces. *)
Definition join (pieces : list string) : string :=
  fold_right String.append EmptyString pieces.

Definition signature_lines (m : Memory.t) (signature_begin : Z) (n : nat)
    : list string :=
  map (signature_line m signature_begin) (seq 0 n).

(** The value a run of lowercase hexadecimal digits denotes, when every
    character is one. *)
Definition hex_value_digit (c : ascii) : option Z :=
  let n := Z.of_N (N_of_ascii c) in
  if (48 <=? n) && (n <=? 57) then Some (n - 48)
  else if (97 <=? n) && (n <=? 102) then Some (n - 87)
  else None.

Fixpoint hex_value_from (acc : Z) (s : string) : option Z :=
  match s with
  | EmptyString => Some acc
  | String c rest =>
      match hex_value_digit c with
      | Some d => hex_value_from (16 * acc + d) rest
      | None => None
      end
  end.

Definition hex_value (s : string) : option Z := hex_value_from 0 s.

(** ** Simulation Clock Driver (class Simulator) *)

(** How one pass through the body of the [while] loop ends: at its end, at a
    [break], or in the undefined integer division by zero of the progress
    check. *)
Inductive Control := Continue | Break | DivisionByZero.

(** The period of the progress check, [max_sim_time / 100]. *)
Definition progress_period (max_sim_time : Z) : Z := max_sim_time / 100.

Definition HALT_SENTINEL : Z := 0xBABECAFE.

Definition decimal (n : Z) : string := pretty.pretty (Z.to_N n).

Module Simulator.
Section WithCore.

Variable Core : Type.
(** [top->eval()] *)
Variable eval : Core -> Inputs -> Core * Outputs.
(** [Verilated::gotFinish()] *)
Variable gotFinish : Core -> bool.
(** Whether the simulator is compiled with the SDL2 display. *)
Variable ENABLE_SDL2 : bool.

(** The members of the class, the locals of [run] that live across ticks,
    and the two streams the run writes. *)
Record t := mk {
  main_time : Z;
  max_sim_time : Z;
  halt_address : Z;
  top_in : Inputs;
  top_out : Outputs;
  top_core : Core;
  vcd_tracer : option (list (Z * Inputs * Outputs));
  bus : Bus;
  dump_signature : bool;
  signature_begin : Z;
  signature_end : Z;
  vga_display : option VGADisplay.t;
  data_memory_read_word : Z;
  inst_memory_read_word : Z;
  counter : Z;
  clocktime : Z;
  memory_write_strobe : Strobe;
  stdout : string;
  signature_file : option string
}.

Definition memory (s : t) : Memory.t := bus_memory (bus s).

Definition print (s : t) (text : string) : t :=
  mk (main_time s) (max_sim_time s) (halt_address s) (top_in s) (top_out s)
     (top_core s) (vcd_tracer s) (bus s) (dump_signature s)
     (signature_begin s) (signature_end s) (vga_display s)
     (data_memory_read_word s) (inst_memory_read_word s) (counter s)
     (clocktime s) (memory_write_strobe s) (stdout s ++ text)%string
     (signature_file s).

Definition set_vga_display (s : t) (d : option VGADisplay.t) : t :=
  mk (main_time s) (max_sim_time s) (halt_address s) (top_in s) (top_out s)
     (top_core s) (vcd_tracer s) (bus s) (dump_signature s)
     (signature_begin s) (signature_end s) d
     (data_memory_read_word s) (inst_memory_read_word s) (counter s)
     (clocktime s) (memory_write_strobe s) (stdout s) (signature_file s).

Definition set_memory (s : t) (m : Memory.t) : t :=
  mk (main_time s) (max_sim_time s) (halt_address s) (top_in s) (top_out s)
     (top_core s) (vcd_tracer s)
     (mkBus m (bus_uart (bus s)) (bus_timer (bus s))) (dump_signature s)
     (signature_begin s) (signature_end s) (vga_display s)
     (data_memory_read_word s) (inst_memory_read_word s) (counter s)
     (clocktime s) (memory_write_strobe s) (stdout s) (signature_file s).

Definition set_signature_file (s : t) (f : option string) : t :=
  mk (main_time s) (max_sim_time s) (halt_address s) (top_in s) (top_out s)
     (top_core s) (vcd_tracer s) (bus s) (dump_signature s)
     (signature_begin s) (signature_end s) (vga_display s)
     (data_memory_read_word s) (inst_memory_read_word s) (counter s)
     (clocktime s) (memory_write_strobe s) (stdout s) f.

(** [vcd_tracer->dump(time)] *)
Definition dump (tr : option (list (Z * Inputs * Outputs))) (time : Z)
    (i : Inputs) (o : Outputs) : option (list (Z * Inputs * Outputs)) :=
  match tr with
  | Some samples => Some (samples ++ [(time, i, o)])
  | None => None
  end.

Definition strobes_of (o : Outputs) : Strobe :=
  mkStrobe (pin (io_memory_bundle_write_strobe_0 o))
           (pin (io_memory_bundle_write_strobe_1 o))
           (pin (io_memory_bundle_write_strobe_2 o))
           (pin (io_memory_bundle_write_strobe_3 o)).

(** The input pins a tick drives before it evaluates the core. *)
Definition tick_inputs (s : t) : Inputs :=
  let main_time := wrap64 (main_time s + 1) in
  let counter := wrap32 (counter s + 1) in
  let clock :=
    if counter >? clocktime s
    then (if clock (top_in s) =? 0 then 1 else 0)
    else clock (top_in s) in
  let reset := if main_time >? 2 then 0 else reset (top_in s) in
  mkInputs reset clock (io_instruction_valid (top_in s))
           (data_memory_read_word s) (inst_memory_read_word s)
           (io_interrupt_flag (top_in s))
           (if ENABLE_SDL2 then clock else io_vga_pixclk (top_in s)).

(** What the core answers in this tick. *)
Definition tick_outputs (s : t) : Outputs :=
  snd (eval (top_core s) (tick_inputs s)).

(** The body of the loop through the trace sample: clock and reset,
    evaluation of the core, decode, write then read, instruction fetch. *)
Definition tick_dispatch (s : t) : t :=
  let main_time := wrap64 (main_time s + 1) in
  let counter := wrap32 (counter s + 1) in
  let counter := if counter >? clocktime s then 0 else counter in
  let ins := tick_inputs s in
  let '(core, outs) := eval (top_core s) ins in
  let ins :=
    mkInputs (reset ins) (clock ins) (io_instruction_valid ins)
             (io_memory_bundle_read_data ins) (io_instruction ins) 0
             (io_vga_pixclk ins) in
  let device_select := io_deviceSelect outs in
  let write_enable := pin (io_memory_bundle_write_enable outs) in
  let strobe :=
    if write_enable then strobes_of outs else memory_write_strobe s in
  let '(b, uart_out) :=
    if write_enable
    then bus_write (bus s) device_select (io_memory_bundle_address outs)
                   (io_memory_bundle_write_data outs) strobe
    else (bus s, EmptyString) in
  let '(data, b) :=
    bus_read b device_select (io_memory_bundle_address outs) in
  let '(inst, m, diagnostic) :=
    Memory.readInst (bus_memory b) (io_instruction_address outs) in
  mk main_time (max_sim_time s) (halt_address s) ins outs core
     (dump (vcd_tracer s) main_time ins outs)
     (mkBus m (bus_uart b) (bus_timer b))
     (dump_signature s) (signature_begin s) (signature_end s)
     (vga_display s) data inst counter (clocktime s) strobe
     (stdout s ++ uart_out ++ diagnostic)%string (signature_file s).

Definition quit_message : string :=
  (newline ++ "[SDL2] User closed window or pressed ESC - stopping simulation"
   ++ newline)%string.

(** The display fed from the pins of the core. *)
Definition tick_display (s : t) : t :=
  if ENABLE_SDL2 then
    match vga_display s with
    | Some d =>
        let o := top_out s in
        let d := VGADisplay.update_pixel d (io_vga_rrggbb o)
                   (io_vga_activevideo o) (io_vga_x_pos o) (io_vga_y_pos o) in
        let d := VGADisplay.check_vsync d (pin (io_vga_vsync o)) in
        set_vga_display s (Some d)
    | None => s
    end
  else s.

Definition quit_requested (s : t) : bool :=
  if ENABLE_SDL2 then
    match vga_display s with
    | Some d => VGADisplay.quit_requested d
    | None => false
    end
  else false.

(** The halt condition: a halt address is configured and the word read
    there is the sentinel. *)
Definition halt_observed (s : t) : bool :=
  negb (halt_address s =? 0)
  && (fst (Memory.read (memory s) (halt_address s)) =? HALT_SENTINEL).

(** The rest of the body: display, quit request, halt condition, progress
    report. *)
Definition tick_check (s : t) : Control * t :=
  let s := tick_display s in
  if quit_requested s then (Break, print s quit_message)
  else
    let '(halted, s) :=
      if negb (halt_address s =? 0) then
        let '(w, m) := Memory.read (memory s) (halt_address s) in
        (w =? HALT_SENTINEL, set_memory s m)
      else (false, s) in
    if halted then (Break, s)
    else if progress_period (max_sim_time s) =? 0 then (DivisionByZero, s)
    else if main_time s mod progress_period (max_sim_time s) =? 0 then
      (Continue,
       print s ("Simulation progress: "
                ++ decimal (wrap64 (main_time s * 100) / max_sim_time s)
                ++ "%" ++ newline))
    else (Continue, s).

Definition tick (s : t) : Control * t := tick_check (tick_dispatch s).

(** The condition of the [while] loop. *)
Definition running (s : t) : bool :=
  (main_time s <? max_sim_time s) && negb (gotFinish (top_core s)).

Inductive Outcome :=
| Done (s : t)
| Undefined (s : t)
| OutOfFuel.

(** The [while] loop; a tick consumes one unit of fuel. *)
Fixpoint loop (fuel : nat) (s : t) : Outcome :=
  if running s then
    match fuel with
    | O => OutOfFuel
    | S fuel' =>
        match tick s with
        | (Continue, s') => loop fuel' s'
        | (Break, s') => Done s'
        | (DivisionByZero, s') => Undefined s'
        end
    end
  else Done s.

(** The statements of [run] before the loop. *)
Definition start (s : t) : t :=
  let ins :=
    mkInputs 1 0 1 (io_memory_bundle_read_data (top_in s))
             (io_instruction (top_in s)) (io_interrupt_flag (top_in s))
             (if ENABLE_SDL2 then 0 else io_vga_pixclk (top_in s)) in
  let '(core, outs) := eval (top_core s) ins in
  mk (main_time s) (max_sim_time s) (halt_address s) ins outs core
     (dump (vcd_tracer s) (main_time s) ins outs) (bus s)
     (dump_signature s) (signature_begin s) (signature_end s)
     (vga_display s) 0 0 0 1 no_strobe (stdout s) (signature_file s).

(** The statements of [run] after the loop. *)
Definition finish (s : t) : Outcome :=
  let r :=
    if dump_signature s then
      match write_signature (memory s) (signature_begin s)
                            (signature_end s) with
      | Some (text, m) =>
          Some (set_signature_file (set_memory s m) (Some text))
      | None => None
      end
    else Some s in
  match r with
  | Some s =>
      Done (if ENABLE_SDL2 then
              set_vga_display s (VGADisplay.render <$> vga_display s)
            else s)
  | None => OutOfFuel
  end.

Definition run (s : t) : Outcome :=
  let s := start s in
  match loop (Z.to_nat (max_sim_time s - main_time s)) s with
  | Done s => finish s
  | other => other
  end.

(** [n] ticks in a row, whatever each one decides. *)
Fixpoint ticks (n : nat) (s : t) : t :=
  match n with
  | O => s
  | S k => ticks k (snd (tick s))
  end.

End WithCore.

Arguments mk {Core}.
Arguments main_time {Core}.
Arguments max_sim_time {Core}.
Arguments halt_address {Core}.
Arguments top_in {Core}.
Arguments top_out {Core}.
Arguments top_core {Core}.
Arguments vcd_tracer {Core}.
Arguments bus {Core}.
Arguments dump_signature {Core}.
Arguments signature_begin {Core}.
Arguments signature_end {Core}.
Arguments vga_display {Core}.
Arguments data_memory_read_word {Core}.
Arguments inst_memory_read_word {Core}.
Arguments counter {Core}.
Arguments clocktime {Core}.
Arguments memory_write_strobe {Core}.
Arguments stdout {Core}.
Arguments signature_file {Core}.
Arguments memory {Core}.
Arguments print {Core}.
Arguments set_vga_display {Core}.
Arguments set_memory {Core}.
Arguments set_signature_file {Core}.
Arguments tick_inputs {Core}.
Arguments tick_outputs {Core}.
Arguments tick_dispatch {Core}.
Arguments tick_display {Core}.
Arguments quit_requested {Core}.
Arguments halt_observed {Core}.
Arguments tick_check {Core}.
Arguments tick {Core}.
Arguments running {Core}.
Arguments Done {Core}.
Arguments Undefined {Core}.
Arguments OutOfFuel {Core}.
Arguments loop {Core}.
Arguments start {Core}.
Arguments finish {Core}.
Arguments run {Core}.
Arguments ticks {Core}.

End Simulator.

(** ** A small core for examples *)

Module Demo.

(** What the core does: at evaluation number [store_at] (the evaluation
    before the loop is number 0, the one of tick [k] is number [k]) it
    stores [store_data] with all four strobes set at [store_address] behind
    selector [store_select]; at every evaluation it fetches from
    [fetch_address] and keeps vsync high. *)
Record Plan := mkPlan {
  store_at : Z;
  store_select : Z;
  store_address : Z;
  store_data : Z;
  fetch_address : Z
}.

(** The state of the core is the number of evaluations so far. *)
Definition eval (p : Plan) (n : Z) (i : Inputs) : Z * Outputs :=
  (n + 1,
   if n =? store_at p then
     mkOutputs (store_select p) (store_address p) 1 1 1 1 1 (store_data p)
               (fetch_address p) 0 0 0 0 1
   else mkOutputs 0 0 0 0 0 0 0 0 (fetch_address p) 0 0 0 0 1).

Definition gotFinish (n : Z) : bool := false.

(** A simulator as its constructor leaves it, without display, trace or
    signature. *)
Definition simulator (max_sim_time halt_address : Z) (memory_words : nat)
    : Simulator.t Z :=
  Simulator.mk 0 max_sim_time halt_address no_inputs no_outputs 0 None
    (mkBus (Memory.make memory_words) UartMMIO.init TimerMMIO.init)
    false 0 0 None 0 0 0 1 no_strobe EmptyString None.

(** The core stores the halt sentinel at 0x100 in tick 100. *)
Definition halting : Plan := mkPlan 100 0 0x100 HALT_SENTINEL 0.

(** The core fetches from 0x1000 and never stores. *)
Definition fetching : Plan := mkPlan (-1) 0 0 0 0x1000.

End Demo.

(** A store of a whole word: all four byte strobes set. *)
Definition all_strobes : Strobe := mkStrobe true true true true.

(** The clock side of the driver [n] ticks after the statements before the
    loop: the tick counter, the half-period counter, the clock and reset pins
    and the two pins the loop leaves alone or clears. *)
Definition clock_phase {Core : Type} (n : Z) (s : Simulator.t Core) : Prop :=
  Simulator.main_time s = n
  /\ Simulator.counter s = n mod 2
  /\ Simulator.clocktime s = 1
  /\ clock (Simulator.top_in s) = (n / 2) mod 2
  /\ reset (Simulator.top_in s) = (if n >? 2 then 0 else 1)
  /\ io_instruction_valid (Simulator.top_in s) = 1
  /\ (1 <= n -> io_interrupt_flag (Simulator.top_in s) = 0).

(** The tick numbers stamped on trace samples. *)
Definition sample_times (samples : list (Z * Inputs * Outputs)) : list Z :=
  map (fun sample => fst (fst sample)) samples.

(** A core for examples that only idles: it never stores, fetches from
    address 0 and never reports completion. *)
Module Idle.

Definition eval (core : unit) (i : Inputs) : unit * Outputs :=
  (core, no_outputs).

Definition gotFinish (core : unit) : bool := false.

(** A simulator as its constructor leaves it, with the trace recorder
    enabled when [trace] is set. *)
Definition simulator (max_sim_time : Z) (memory_words : nat) (trace : bool)
    : Simulator.t unit :=
  Simulator.mk 0 max_sim_time 0 no_inputs no_outputs tt
    (if trace then Some [] else None)
    (mkBus (Memory.make memory_words) UartMMIO.init TimerMMIO.init)
    false 0 0 None 0 0 0 1 no_strobe EmptyString None.

End Idle.

(** ** Image load (Memory::load_binary) *)

(** How a call of [load_binary] ends: with the memory loaded, or with the
    [std::runtime_error] it throws. *)
Inductive Loaded :=
| Loaded_ok (m : Memory.t)
| Runtime_error (what : string).

Section LoadBinary.

(** The [uint32_t] the host makes of the bytes [file.read] puts into it, in
    the byte order of the host. *)
Variable host_word : list Z -> Z.

(** The [for] loop: [count] words are still to be read, [i] is the loop
    variable, [stream] what is left of the file. *)
Fixpoint load_words (count : nat) (i : Z) (stream : list Z) (load_address : Z)
    (memory : list Z) : list Z :=
  match count with
  | O => memory
  | S count' =>
      load_words count' (i + 1) (drop 4 stream) load_address
        (<[Z.to_nat (i + load_address / 4) := host_word (take 4 stream)]>
           memory)
  end.

(** [file] is the content of the file named [filename], a list of bytes, or
    [None] when the file cannot be opened. *)
Definition load_binary (m : Memory.t) (file : option (list Z))
    (filename : string) (load_address : Z) : Loaded :=
  match file with
  | None => Runtime_error ("Could not open file " ++ filename)%string
  | Some bytes =>
      let size := Z.of_nat (length bytes) in
      if wrap64 (load_address + size) >? wrap64 (Memory.size m * 4) then
        Runtime_error
          ("File " ++ filename ++ " is too large (File is " ++ decimal size
           ++ " bytes. Memory is "
           ++ decimal (wrap64 (wrap64 (Memory.size m * 4) - load_address))
           ++ " bytes.)")%string
      else
        Loaded_ok
          (Memory.mk (load_words (Z.to_nat (size / 4)) 0 bytes load_address
                        (Memory.memory m)))
  end.

End LoadBinary.

(** Four bytes as a [uint32_t] on a little-endian host. *)
Definition le_word (bytes : list Z) : Z :=
  match bytes with
  | [b0; b1; b2; b3] =>
      Z.lor b0 (Z.lor (Z.shiftl b1 8) (Z.lor (Z.shiftl b2 16) (Z.shiftl b3 24)))
  | _ => 0
  end.

(** ** The reciprocal square root workload (3-pipeline/csrc/fast_rsqrt.c and
    3-pipeline/hw2/fast_rsqrt/fast_rsqrt.c)

    Both files are written for the RV32I core: [int], [unsigned long] and
    pointers are 32 bits wide, [uint64_t] is 64 bits wide. *)

Definition wrap16 (x : Z) : Z := x mod 2 ^ 16.

(** [clz] and [mul32] have the same text in both files. *)
Definition clz (x : Z) : Z :=
  if x =? 0 then 32
  else
    let n := 0 in
    let '(n, x) :=
      if Z.land x 0xFFFF0000 =? 0 then (n + 16, wrap32 (Z.shiftl x 16))
      else (n, x) in
    let '(n, x) :=
      if Z.land x 0xFF000000 =? 0 then (n + 8, wrap32 (Z.shiftl x 8))
      else (n, x) in
    let '(n, x) :=
      if Z.land x 0xF0000000 =? 0 then (n + 4, wrap32 (Z.shiftl x 4))
      else (n, x) in
    let '(n, x) :=
      if Z.land x 0xC0000000 =? 0 then (n + 2, wrap32 (Z.shiftl x 2))
      else (n, x) in
    let n := if Z.land x 0x80000000 =? 0 then n + 1 else n in
    n.

(** The body of the [for] loop of [mul32], [steps] iterations from [i]. *)
Fixpoint mul32_loop (steps : nat) (i a b r : Z) : Z :=
  match steps with
  | O => r
  | S steps' =>
      let r :=
        if negb (Z.land b (wrap32 (Z.shiftl 1 i)) =? 0)
        then wrap64 (r + wrap64 (Z.shiftl a i))
        else r in
      mul32_loop steps' (i + 1) a b r
  end.

Definition mul32 (a b : Z) : Z := mul32_loop 32 0 a b 0.

(** The Newton-Raphson loop of [fast_rsqrt], the same in both files, over
    the 64-bit product it calls three times in each iteration. *)
Fixpoint newton_with (mul32 : Z -> Z -> Z) (iterations : nat) (x y : Z) : Z :=
  match iterations with
  | O => y
  | S iterations' =>
      let y2 := wrap32 (mul32 y y) in
      let xy2 := wrap32 (Z.shiftr (mul32 x y2) 16) in
      let y :=
        wrap32 (Z.shiftr (mul32 y (wrap32 (wrap32 (Z.shiftl 3 16) - xy2)))
                         17) in
      newton_with mul32 iterations' x y
  end.

Definition newton : nat -> Z -> Z -> Z := newton_with mul32.

(** [fast_rsqrt] over the table and the product of its interpolation step,
    the two places where the files differ. *)
Definition fast_rsqrt_with (rsqrt_table : list Z) (product : Z -> Z -> Z)
    (x : Z) : Z :=
  if x =? 0 then 0xFFFFFFFF
  else if x =? 1 then 65536
  else
    let exp := clz x in
    let index := 31 - exp in
    let y := nth (Z.to_nat index) rsqrt_table 0 in
    let y :=
      if x >? wrap32 (Z.shiftl 1 exp) then
        let y_next :=
          if exp <? 31 then nth (Z.to_nat (exp + 1)) rsqrt_table 0 else 0 in
        let delta := wrap32 (y - y_next) in
        let frac :=
          wrap32 (Z.shiftr
                    (wrap64 (Z.shiftl (wrap64 (x - wrap32 (Z.shiftl 1 exp)))
                                      16))
                    exp) in
        wrap32 (y - wrap32 (Z.shiftr (product delta frac) 16))
      else y in
    newton 2 x y.

(** 3-pipeline/csrc/fast_rsqrt.c *)
Module Csrc.

Definition rsqrt_table : list Z :=
  [65535; 46341; 32768; 23170; 16384;
   11585; 8192; 5793; 4096; 2896;
   2048; 1448; 1024; 724; 512;
   362; 256; 181; 128; 90;
   64; 45; 32; 23; 16;
   11; 8; 6; 4; 3;
   2; 1].

Definition fast_rsqrt (x : Z) : Z := fast_rsqrt_with rsqrt_table mul32 x.

End Csrc.

(** 3-pipeline/hw2/fast_rsqrt/fast_rsqrt.c *)
Module Hw2.

(** [unsigned long] arithmetic. *)
Definition wrapL (x : Z) : Z := x mod 2 ^ 32.

(** The address space as the bytes at its addresses. *)
Definition ByteMemory := Z -> Z.

(** [while (n--) *d++ = *s++;] *)
Fixpoint memcpy_loop (n : nat) (d s : Z) (mem : ByteMemory) : ByteMemory :=
  match n with
  | O => mem
  | S n' =>
      memcpy_loop n' (d + 1) (s + 1)
        (fun address => if address =? d then mem s else mem address)
  end.

Definition memcpy (mem : ByteMemory) (dest src n : Z) : Z * ByteMemory :=
  (dest, memcpy_loop (Z.to_nat n) dest src mem).

(** The loop of [udiv]; the loop variable [i] is one less than the number of
    iterations left.  The result is the quotient. *)
Fixpoint udiv_loop (steps : nat) (dividend divisor quotient remainder : Z)
    : Z :=
  match steps with
  | O => quotient
  | S i =>
      let remainder := wrapL (Z.shiftl remainder 1) in
      let remainder :=
        Z.lor remainder (Z.land (Z.shiftr dividend (Z.of_nat i)) 1) in
      if remainder >=? divisor then
        udiv_loop i dividend divisor
          (Z.lor quotient (wrapL (Z.shiftl 1 (Z.of_nat i))))
          (wrapL (remainder - divisor))
      else udiv_loop i dividend divisor quotient remainder
  end.

Definition udiv (dividend divisor : Z) : Z :=
  if divisor =? 0 then 0 else udiv_loop 32 dividend divisor 0 0.

Fixpoint umod_loop (steps : nat) (dividend divisor remainder : Z) : Z :=
  match steps with
  | O => remainder
  | S i =>
      let remainder := wrapL (Z.shiftl remainder 1) in
      let remainder :=
        Z.lor remainder (Z.land (Z.shiftr dividend (Z.of_nat i)) 1) in
      if remainder >=? divisor then
        umod_loop i dividend divisor (wrapL (remainder - divisor))
      else umod_loop i dividend divisor remainder
  end.

Definition umod (dividend divisor : Z) : Z :=
  if divisor =? 0 then 0 else umod_loop 32 dividend divisor 0.

(** The [while (b)] loop of [umul]; an iteration consumes one unit of fuel
    and the loop answers [None] without it. *)
Fixpoint umul_loop (fuel : nat) (a b result : Z) : option Z :=
  if b =? 0 then Some result
  else
    match fuel with
    | O => None
    | S fuel' =>
        let result :=
          if negb (Z.land b 1 =? 0) then wrap32 (result + a) else result in
        umul_loop fuel' (wrap32 (Z.shiftl a 1)) (Z.shiftr b 1) result
    end.

Definition umul (a b : Z) : option Z := umul_loop 32 a b 0.

Definition __mulsi3 (a b : Z) : option Z := umul a b.

(** The text [printstr(p, length)] sends to the console: [length] bytes of
    the buffer from index [p]. *)
Definition printstr (buf : list Z) (p length : Z) : string :=
  string_of_list_ascii
    (map (fun b => ascii_of_N (Z.to_N b))
         (take (Z.to_nat length) (drop (Z.to_nat p) buf))).

(** [*p = c] for a pointer into [char buf[20]]; a store outside the buffer
    is undefined, [None]. *)
Definition store (buf : list Z) (p c : Z) : option (list Z) :=
  if (0 <=? p) && (p <? 20) then Some (<[Z.to_nat p := c]> buf) else None.

(** The [while (val > 0)] loop of [print_hex]. *)
Fixpoint print_hex_loop (fuel : nat) (buf : list Z) (p val : Z)
    : option (list Z * Z) :=
  if val >? 0 then
    match fuel with
    | O => None
    | S fuel' =>
        let digit := Z.land val 0xf in
        match store buf p (if digit <? 10 then 48 + digit
                           else 97 + digit - 10) with
        | Some buf => print_hex_loop fuel' buf (p - 1) (wrapL (Z.shiftr val 4))
        | None => None
        end
    end
  else Some (buf, p).

(** [buf] is the buffer as the function finds it on its stack, twenty bytes
    of any content; the result is the text printed. *)
Definition print_hex (buf : list Z) (val : Z) : option string :=
  let p := 20 - 1 in
  match store buf p 10 with
  | None => None
  | Some buf =>
      let p := p - 1 in
      let filled :=
        if val =? 0 then
          match store buf p 48 with
          | Some buf => Some (buf, p - 1)
          | None => None
          end
        else print_hex_loop 8 buf p val in
      match filled with
      | Some (buf, p) => let p := p + 1 in Some (printstr buf p (20 - p))
      | None => None
      end
  end.

(** The [while (val > 0)] loop of [print_dec]. *)
Fixpoint print_dec_loop (fuel : nat) (buf : list Z) (p val : Z)
    : option (list Z * Z) :=
  if val >? 0 then
    match fuel with
    | O => None
    | S fuel' =>
        match store buf p (48 + umod val 10) with
        | Some buf => print_dec_loop fuel' buf (p - 1) (udiv val 10)
        | None => None
        end
    end
  else Some (buf, p).

Definition print_dec (buf : list Z) (val : Z) : option string :=
  let p := 20 - 1 in
  match store buf p 10 with
  | None => None
  | Some buf =>
      let p := p - 1 in
      let filled :=
        if val =? 0 then
          match store buf p 48 with
          | Some buf => Some (buf, p - 1)
          | None => None
          end
        else print_dec_loop 10 buf p val in
      match filled with
      | Some (buf, p) => let p := p + 1 in Some (printstr buf p (20 - p))
      | None => None
      end
  end.

(** The first entry, 65536, does not fit [uint16_t] and is stored as 0. *)
Definition rsqrt_table : list Z :=
  map wrap16
    [65536; 46341; 32768; 23170; 16384;
     11585; 8192; 5793; 4096; 2896;
     2048; 1448; 1024; 724; 512;
     362; 256; 181; 128; 90;
     64; 45; 32; 23; 16;
     11; 8; 6; 4; 3;
     2; 1].

(** The interpolation multiplies two [uint32_t] with [*]. *)
Definition fast_rsqrt (x : Z) : Z :=
  fast_rsqrt_with rsqrt_table (fun delta frac => wrap32 (delta * frac)) x.

End Hw2.

(** The value a run of decimal digits denotes, when every character is
    one. *)
Fixpoint dec_value_from (acc : Z) (s : string) : option Z :=
  match s with
  | EmptyString => Some acc
  | String c rest =>
      let n := Z.of_N (N_of_ascii c) in
      if (48 <=? n) && (n <=? 57) then dec_value_from (10 * acc + (n - 48)) rest
      else None
  end.

Definition dec_value (s : string) : option Z := dec_value_from 0 s.

(** ** Arithmetic reading of the Newton-Raphson loop

    The loop of [fast_rsqrt] with the exact product in place of the
    shift-and-add loop of [mul32] and a mask in place of each truncation to
    32 bits.  It is proved equal to [newton] on 32-bit operands and is the
    form the estimate is evaluated in. *)
Definition mask32 (x : Z) : Z := Z.land x 0xFFFFFFFF.

Fixpoint newton_exact (iterations : nat) (x y : Z) : Z :=
  match iterations with
  | O => y
  | S iterations' =>
      let y2 := mask32 (y * y) in
      let xy2 := mask32 (Z.shiftr (x * y2) 16) in
      let y := mask32 (Z.shiftr (y * mask32 (196608 - xy2)) 17) in
      newton_exact iterations' x y
  end.

(** An estimate [y] of 2^16 / sqrt x is within the error bound when
    0.775 * 2^32 <= y^2 * x <= 2^32.  The input 2, whose table entry 46341
    is the rounded-up value of 2^16 / sqrt 2, is the one place where the
    upper bound is allowed to fail. *)
Definition within_error_bound (x y : Z) : bool :=
  let r := y * y * x in
  (133143986176 <=? 40 * r) && ((r <=? 4294967296) || (x =? 2)).

Definition newton_estimate_checked (x : Z) : bool :=
  within_error_bound x
    (newton_exact 2 x (nth (Z.to_nat (Z.log2 x)) Csrc.rsqrt_table 0)).

(** [P] holds of the [n] integers from [x] on. *)
Fixpoint all_from (n : nat) (x : Z) (P : Z -> bool) : bool :=
  match n with
  | O => true
  | S n' => P x && all_from n' (x + 1) P
  end.

(** * Properties *)

(** ** Bits of machine words *)

Lemma testbit_low_ones (n k : Z) :
  0 <= n -> 0 <= k -> Z.testbit (Z.ones n) k = (k <? n).
Proof.
  intros Hn Hk. destruct (Z.ltb_spec k n).
  - apply Z.ones_spec_low; lia.
  - apply Z.ones_spec_high; lia.
Qed.

Lemma testbit_not32 (x k : Z) :
  0 <= k -> Z.testbit (not32 x) k = xorb (Z.testbit x k) (k <? 32).
Proof.
  intros Hk. unfold not32. rewrite Z.lxor_spec.
  change 0xFFFFFFFF with (Z.ones 32).
  now rewrite testbit_low_ones by lia.
Qed.

Lemma testbit_byte_lane (i : nat) (w k : Z) :
  0 <= k ->
  Z.testbit (byte_lane i w) k
  = Z.testbit w (k + 8 * Z.of_nat i) && (k <? 8).
Proof.
  intros Hk. unfold byte_lane. rewrite Z.land_spec, Z.shiftr_spec by lia.
  change 0xFF with (Z.ones 8). now rewrite testbit_low_ones by lia.
Qed.

Lemma byte_lane_range (i : nat) (w : Z) : 0 <= byte_lane i w < 256.
Proof.
  unfold byte_lane. change 0xFF with (Z.ones 8).
  rewrite Z.land_ones by lia. apply Z.mod_pos_bound. lia.
Qed.

Lemma word_range_testbit (w k : Z) :
  0 <= w < 2 ^ 32 -> 32 <= k -> Z.testbit w k = false.
Proof.
  intros Hw Hk. destruct (Z.eq_dec w 0) as [-> | Hnz].
  - apply Z.bits_0.
  - apply Z.bits_above_log2; [lia |].
    assert (Z.log2 w < 32) by (apply Z.log2_lt_pow2; lia). lia.
Qed.

Lemma land_ones32_id (w : Z) : 0 <= w < 2 ^ 32 -> Z.land w 0xFFFFFFFF = w.
Proof.
  intros Hw. change 0xFFFFFFFF with (Z.ones 32).
  rewrite Z.land_ones by lia. apply Z.mod_small. lia.
Qed.

Lemma land_le (a b : Z) : 0 <= a -> Z.land a b <= a.
Proof.
  intros Ha.
  assert (Hdisj : Z.land (Z.ldiff a b) (Z.land a b) = 0).
  { rewrite (Z.land_comm a b), Z.land_assoc, Z.land_ldiff.
    apply Z.land_0_l. }
  assert (E : Z.ldiff a b + Z.land a b = a).
  { rewrite Z.add_nocarry_lxor, Z.lxor_lor by exact Hdisj.
    apply Z.lor_ldiff_and. }
  assert (0 <= Z.ldiff a b) by (apply Z.ldiff_nonneg; lia).
  lia.
Qed.

(** ** Word Memory *)

(** Bit [k] of the write mask is the strobe of the lane that holds it. *)
Lemma write_mask_testbit (ws : Strobe) (k : Z) :
  0 <= k < 32 ->
  Z.testbit (Memory.write_mask ws) k = lane ws (Z.to_nat (k / 8)).
Proof.
  intros Hk. rewrite <- (Z2Nat.id k) by lia.
  assert (Hn : (Z.to_nat k < 32)%nat) by lia.
  generalize dependent (Z.to_nat k). clear Hk k. intros n Hn.
  destruct ws as [[] [] [] []];
    do 32 (destruct n as [| n]; [reflexivity |]); lia.
Qed.

Lemma write_mask_range (ws : Strobe) : 0 <= Memory.write_mask ws < 2 ^ 32.
Proof. destruct ws as [[] [] [] []]; vm_compute; split; congruence. Qed.

(** The merge at the heart of [Memory::write], lane by lane. *)
Lemma merge_lane (ws : Strobe) (old value : Z) (i : nat) :
  (i < 4)%nat ->
  byte_lane i (Z.lor (Z.land old (not32 (Memory.write_mask ws)))
                     (Z.land value (Memory.write_mask ws)))
  = if lane ws i then byte_lane i value else byte_lane i old.
Proof.
  intros Hi. apply Z.bits_inj'. intros n Hn.
  assert (Hsel : forall b (x y : Z),
             Z.testbit (if b : bool then x else y) n
             = if b then Z.testbit x n else Z.testbit y n)
    by (intros []; reflexivity).
  rewrite Hsel, !testbit_byte_lane by lia.
  destruct (Z.ltb_spec n 8) as [Hlt | Hge].
  - rewrite Z.lor_spec, !Z.land_spec, testbit_not32 by lia.
    rewrite write_mask_testbit by lia.
    replace ((n + 8 * Z.of_nat i) / 8) with (Z.of_nat i)
      by (apply Z.div_unique with n; lia).
    rewrite Nat2Z.id.
    replace (n + 8 * Z.of_nat i <? 32) with true
      by (symmetry; apply Z.ltb_lt; lia).
    destruct (lane ws i), (Z.testbit old _), (Z.testbit value _); reflexivity.
  - rewrite !andb_false_r. now destruct (lane ws i).
Qed.

Lemma merge_range (mask old value : Z) :
  0 <= old < 2 ^ 32 -> 0 <= value < 2 ^ 32 ->
  0 <= Z.lor (Z.land old (not32 mask)) (Z.land value mask) < 2 ^ 32.
Proof.
  intros Ho Hv.
  assert (Hnn : 0 <= Z.lor (Z.land old (not32 mask)) (Z.land value mask)).
  { apply Z.lor_nonneg. split; apply Z.land_nonneg; lia. }
  split; [exact Hnn |].
  destruct (Z.eq_dec (Z.lor (Z.land old (not32 mask)) (Z.land value mask)) 0)
    as [-> | Hnz]; [lia |].
  apply Z.log2_lt_pow2; [lia |].
  destruct (Z.lt_ge_cases
              (Z.log2 (Z.lor (Z.land old (not32 mask)) (Z.land value mask)))
              32) as [Hlt | Hge]; [exact Hlt | exfalso].
  assert (Hbit : Z.testbit
            (Z.lor (Z.land old (not32 mask)) (Z.land value mask))
            (Z.log2 (Z.lor (Z.land old (not32 mask)) (Z.land value mask)))
          = true) by (apply Z.bit_log2; lia).
  rewrite Z.lor_spec, !Z.land_spec in Hbit.
  rewrite (word_range_testbit old), (word_range_testbit value) in Hbit
    by lia.
  discriminate Hbit.
Qed.

Lemma merge_no_strobe (old value : Z) :
  0 <= old < 2 ^ 32 ->
  Z.lor (Z.land old (not32 (Memory.write_mask no_strobe)))
        (Z.land value (Memory.write_mask no_strobe)) = old.
Proof.
  intros Ho. change (Memory.write_mask no_strobe) with 0.
  rewrite Z.land_0_r, Z.lor_0_r. change (not32 0) with 0xFFFFFFFF.
  now apply land_ones32_id.
Qed.

Lemma at_in_range (m : Memory.t) (i : Z) :
  Memory.wf m -> 0 <= Memory.at_ m i < 2 ^ 32.
Proof.
  intros Hwf. unfold Memory.at_.
  destruct (Memory.memory m !! Z.to_nat i) as [w |] eqn:E; simpl; [| lia].
  unfold Memory.wf in Hwf. rewrite Forall_forall in Hwf.
  apply Hwf. eapply list_elem_of_lookup_2. exact E.
Qed.

(** Writing 32-bit values keeps every stored word a 32-bit value. *)
Lemma write_wf (m : Memory.t) (address value : Z) (ws : Strobe) :
  Memory.wf m -> 0 <= value < 2 ^ 32 ->
  Memory.wf (Memory.write m address value ws).
Proof.
  intros Hwf Hv. unfold Memory.write.
  destruct (address / 4 >=? Memory.size m); [exact Hwf |].
  unfold Memory.wf. simpl. apply Forall_insert; [exact Hwf |].
  apply merge_range; [now apply at_in_range | exact Hv].
Qed.

Lemma make_wf (n : nat) : Memory.wf (Memory.make n).
Proof.
  unfold Memory.wf, Memory.make. simpl. apply Forall_replicate. lia.
Qed.

Lemma read_memory (m : Memory.t) (address : Z) :
  snd (Memory.read m address) = m.
Proof. unfold Memory.read. now destruct (_ >=? _). Qed.

Lemma read_in_range (m : Memory.t) (address : Z) :
  address / 4 < Memory.size m ->
  Memory.read m address = (Memory.at_ m (address / 4), m).
Proof.
  intros H. unfold Memory.read.
  destruct (Z.geb_spec (address / 4) (Memory.size m)); [lia | reflexivity].
Qed.

Lemma write_size (m : Memory.t) (address value : Z) (ws : Strobe) :
  Memory.size (Memory.write m address value ws) = Memory.size m.
Proof.
  unfold Memory.write. destruct (_ >=? _); [reflexivity |].
  unfold Memory.size. simpl. now rewrite length_insert.
Qed.

Lemma at_write_same (m : Memory.t) (address value : Z) (ws : Strobe) :
  0 <= address -> address / 4 < Memory.size m ->
  Memory.at_ (Memory.write m address value ws) (address / 4)
  = Z.lor (Z.land (Memory.at_ m (address / 4))
                  (not32 (Memory.write_mask ws)))
          (Z.land value (Memory.write_mask ws)).
Proof.
  intros Ha Hin. unfold Memory.write.
  destruct (Z.geb_spec (address / 4) (Memory.size m)); [lia |].
  unfold Memory.at_ at 1. simpl.
  rewrite list_lookup_insert_eq; [reflexivity |].
  unfold Memory.size in Hin. assert (0 <= address / 4) by (apply Z.div_pos; lia).
  lia.
Qed.

Lemma at_write_other (m : Memory.t) (address value : Z) (ws : Strobe) (j : Z) :
  0 <= address -> 0 <= j -> j <> address / 4 ->
  Memory.at_ (Memory.write m address value ws) j = Memory.at_ m j.
Proof.
  intros Ha Hj Hne. unfold Memory.write.
  destruct (Z.geb_spec (address / 4) (Memory.size m)); [reflexivity |].
  unfold Memory.at_. simpl.
  rewrite list_lookup_insert_ne; [reflexivity |].
  assert (0 <= address / 4) by (apply Z.div_pos; lia). lia.
Qed.

(** C2.  For a byte address whose word index is within capacity, a write
    followed by a data read of the same address returns a word whose byte
    lane [i] is byte [i] of the written value where the strobe of lane [i] is
    set, and the byte stored before where it is clear; a write with no strobe
    set leaves the whole memory as it was. *)
Theorem write_then_read_lanes (m : Memory.t) (address value : Z) (ws : Strobe) :
  Memory.wf m ->
  0 <= address ->
  address / 4 < Memory.size m ->
  (forall i, (i < 4)%nat ->
     byte_lane i (fst (Memory.read (Memory.write m address value ws) address))
     = if lane ws i then byte_lane i value
       else byte_lane i (fst (Memory.read m address)))
  /\ Memory.write m address value no_strobe = m.
Proof.
  intros Hwf Ha Hin. split.
  - intros i Hi.
    rewrite !read_in_range by (rewrite ?write_size; exact Hin).
    simpl. rewrite at_write_same by assumption. now apply merge_lane.
  - unfold Memory.write.
    destruct (Z.geb_spec (address / 4) (Memory.size m)); [reflexivity |].
    rewrite merge_no_strobe by now apply at_in_range.
    destruct m as [l]. simpl. f_equal.
    unfold Memory.at_, Memory.size in *. simpl in *.
    assert (0 <= address / 4) by (apply Z.div_pos; lia).
    destruct (lookup_lt_is_Some_2 l (Z.to_nat (address / 4)) ltac:(lia))
      as [w Hw].
    rewrite Hw. simpl. now apply list_insert_id.
Qed.

Lemma write_then_read_lanes_witness :
  (forall i, (i < 4)%nat ->
     byte_lane i
       (fst (Memory.read
               (Memory.write (Memory.mk [0x01020304; 0xA1B2C3D4]) 6 0x11223344
                             (mkStrobe true false true false)) 6))
     = if lane (mkStrobe true false true false) i
       then byte_lane i 0x11223344
       else byte_lane i
              (fst (Memory.read (Memory.mk [0x01020304; 0xA1B2C3D4]) 6)))
  /\ Memory.write (Memory.mk [0x01020304; 0xA1B2C3D4]) 6 0x11223344 no_strobe
     = Memory.mk [0x01020304; 0xA1B2C3D4].
Proof.
  apply (write_then_read_lanes (Memory.mk [0x01020304; 0xA1B2C3D4]) 6
           0x11223344 (mkStrobe true false true false)).
  - unfold Memory.wf. simpl. repeat constructor; lia.
  - lia.
  - vm_compute. reflexivity.
Defined.

(** ** Bus Decoder *)

Lemma device_mask_value : DEVICE_MASK = 2 ^ 29 - 1.
Proof. reflexivity. Qed.

Lemma shifted_selector (device_select : Z) :
  0 <= device_select < 8 ->
  wrap32 (Z.shiftl device_select DEVICE_SHIFT) = device_select * 2 ^ 29.
Proof.
  intros H. change DEVICE_SHIFT with 29. rewrite Z.shiftl_mul_pow2 by lia.
  unfold wrap32. apply Z.mod_small. lia.
Qed.

Lemma land_bit28 (a : Z) :
  Z.land a 0x10000000 = 0 \/ Z.land a 0x10000000 = 0x10000000.
Proof.
  change 0x10000000 with (2 ^ 28).
  destruct (Z.testbit a 28) eqn:E; [right | left];
    apply Z.bits_inj'; intros n Hn;
    rewrite Z.land_spec, ?Z.bits_0, Z.pow2_bits_eqb by lia;
    destruct (Z.eqb_spec 28 n) as [<- | _];
    rewrite ?E, ?andb_false_r; reflexivity.
Qed.

(** The top nibble of an effective address is the selector followed by
    bit 28 of the address the core drives. *)
Lemma region_nibble (device_select address : Z) :
  0 <= device_select < 8 ->
  exists b, (b = 0 \/ b = 1)
    /\ Z.land (effective_address device_select address) 0xF0000000
       = (2 * device_select + b) * 2 ^ 28.
Proof.
  intros H. unfold effective_address, low_address.
  rewrite shifted_selector by exact H. rewrite Z.land_lor_distr_l.
  rewrite <- Z.land_assoc.
  change (Z.land DEVICE_MASK 0xF0000000) with 0x10000000.
  assert (Hsel : Z.land (device_select * 2 ^ 29) 0xF0000000
                 = 2 * device_select * 2 ^ 28).
  { assert (Hc : device_select = 0 \/ device_select = 1 \/ device_select = 2
                 \/ device_select = 3 \/ device_select = 4
                 \/ device_select = 5 \/ device_select = 6
                 \/ device_select = 7) by lia.
    repeat (destruct Hc as [-> | Hc]; [reflexivity |]). now subst. }
  rewrite Hsel.
  assert (Hdisj : forall x, 0 <= x < 8 ->
             Z.lor (2 * x * 2 ^ 28) 0x10000000 = (2 * x + 1) * 2 ^ 28).
  { intros x Hx.
    assert (Hc : x = 0 \/ x = 1 \/ x = 2 \/ x = 3 \/ x = 4 \/ x = 5
                 \/ x = 6 \/ x = 7) by lia.
    repeat (destruct Hc as [-> | Hc]; [reflexivity |]). now subst. }
  destruct (land_bit28 address) as [-> | ->].
  - exists 0. split; [now left |]. rewrite Z.lor_0_r. lia.
  - exists 1. split; [now right |]. now apply Hdisj.
Qed.

Lemma region_flags (device_select address : Z) :
  0 <= device_select < 8 ->
  let ea := effective_address device_select address in
  (is_uart ea = true -> device_select = 2)
  /\ (is_timer ea = true -> device_select = 4)
  /\ (is_vga ea = true -> device_select = 1).
Proof.
  intros H ea. destruct (region_nibble device_select address H)
    as (b & Hb & Hn).
  unfold is_uart, is_timer, is_vga, UART_BASE, TIMER_BASE, VGA_BASE.
  subst ea. rewrite Hn.
  repeat split; intros E; apply Z.eqb_eq in E; lia.
Qed.

(** C1.  For a 3-bit selector and any address the core drives, the effective
    address is the selector shifted by 29 or-ed with the low 29 address bits;
    selector 0 matches no device region and both chains go to the word
    memory; the UART, timer and video regions are claimed by the selectors
    2, 4 and 1, so no effective address matches two of them, and the chains
    go to that device alone (the video region reads 0 and drops writes); an
    address with a nonzero selector that matches no region reads 0 and its
    write changes nothing. *)
Theorem decode_routes_to_one_target (device_select address : Z) :
  0 <= device_select < 8 ->
  let ea := effective_address device_select address in
  ea = Z.lor (Z.shiftl device_select 29) (Z.land address (2 ^ 29 - 1))
  /\ (device_select = 0 ->
      is_uart ea = false /\ is_timer ea = false /\ is_vga ea = false
      /\ forall b data ws,
           bus_write b device_select address data ws
           = (mkBus (Memory.write (bus_memory b) ea data ws)
                    (bus_uart b) (bus_timer b), EmptyString)
           /\ bus_read b device_select address
              = (fst (Memory.read (bus_memory b) ea), b))
  /\ (is_uart ea = true ->
      device_select <> 0 /\ is_timer ea = false /\ is_vga ea = false
      /\ forall b data ws,
           bus_write b device_select address data ws
           = (mkBus (bus_memory b)
                    (fst (UartMMIO.write (bus_uart b) (ea - UART_BASE) data))
                    (bus_timer b),
              snd (UartMMIO.write (bus_uart b) (ea - UART_BASE) data))
           /\ bus_read b device_select address
              = (UartMMIO.read (bus_uart b) (ea - UART_BASE), b))
  /\ (is_timer ea = true ->
      device_select <> 0 /\ is_uart ea = false /\ is_vga ea = false
      /\ forall b data ws,
           bus_write b device_select address data ws
           = (mkBus (bus_memory b) (bus_uart b)
                    (TimerMMIO.write (bus_timer b) (ea - TIMER_BASE) data),
              EmptyString)
           /\ bus_read b device_select address
              = (TimerMMIO.read (bus_timer b) (ea - TIMER_BASE), b))
  /\ (is_vga ea = true ->
      device_select <> 0 /\ is_uart ea = false /\ is_timer ea = false
      /\ forall b data ws,
           bus_write b device_select address data ws = (b, EmptyString)
           /\ bus_read b device_select address = (0, b))
  /\ (device_select <> 0 ->
      is_uart ea = false -> is_timer ea = false -> is_vga ea = false ->
      forall b data ws,
        bus_write b device_select address data ws = (b, EmptyString)
        /\ bus_read b device_select address = (0, b)).
Proof.
  intros H ea.
  destruct (region_flags device_select address H) as (Hu & Ht & Hv).
  fold ea in Hu, Ht, Hv.
  assert (Hoff : forall base, Z.land ea 0xF0000000 = base ->
             0 <= base -> wrap32 (ea - base) = ea - base).
  { intros base Hb Hpos. unfold wrap32. apply Z.mod_small.
    destruct (region_nibble device_select address H) as (b & Hbit & Hn).
    fold ea in Hn.
    assert (Hea : 0 <= ea < 2 ^ 32).
    { subst ea. unfold effective_address, low_address.
      rewrite shifted_selector, device_mask_value by exact H.
      change (2 ^ 29 - 1) with (Z.ones 29). rewrite Z.land_ones by lia.
      pose proof (Z.mod_pos_bound address (2 ^ 29) ltac:(lia)) as Hm.
      split.
      - apply Z.lor_nonneg. lia.
      - destruct (Z.eq_dec
                    (Z.lor (device_select * 2 ^ 29) (address mod 2 ^ 29)) 0)
          as [-> | Hnz]; [lia |].
        assert (0 <= Z.lor (device_select * 2 ^ 29) (address mod 2 ^ 29))
          by (apply Z.lor_nonneg; lia).
        apply Z.log2_lt_pow2; [lia |]. rewrite Z.log2_lor by lia.
        apply Z.max_lub_lt.
        + destruct (Z.eq_dec device_select 0) as [-> | Hd];
            [simpl; lia |].
          apply Z.log2_lt_pow2; lia.
        + destruct (Z.eq_dec (address mod 2 ^ 29) 0) as [-> | Hd];
            [simpl; lia |].
          apply Z.log2_lt_pow2; lia. }
    assert (Hle : Z.land ea 0xF0000000 <= ea) by (apply land_le; lia).
    lia. }
  split; [| split; [| split; [| split; [| split]]]].
  - subst ea. unfold effective_address, low_address.
    rewrite shifted_selector, device_mask_value by exact H.
    now rewrite Z.shiftl_mul_pow2 by lia.
  - intros ->.
    destruct (is_uart ea) eqn:Eu; [specialize (Hu eq_refl); lia |].
    destruct (is_timer ea) eqn:Et; [specialize (Ht eq_refl); lia |].
    destruct (is_vga ea) eqn:Ev; [specialize (Hv eq_refl); lia |].
    do 3 (split; [reflexivity |]). intros b data ws.
    unfold bus_read, bus_write. fold ea. simpl (0 =? 0). cbv iota.
    split; [reflexivity |].
    pose proof (read_memory (bus_memory b) ea) as Hm.
    destruct (Memory.read (bus_memory b) ea) as [w m]. simpl in Hm.
    subst m. now destruct b.
  - intros Eu. specialize (Hu Eu).
    destruct (is_timer ea) eqn:Et; [specialize (Ht eq_refl); lia |].
    destruct (is_vga ea) eqn:Ev; [specialize (Hv eq_refl); lia |].
    split; [lia |]. do 2 (split; [reflexivity |]).
    intros b data ws. unfold bus_read, bus_write. fold ea.
    destruct (Z.eqb_spec device_select 0); [lia |]. rewrite Eu.
    rewrite (Hoff UART_BASE) by (try apply Z.eqb_eq; trivial; discriminate).
    split; [| reflexivity]. now destruct (UartMMIO.write _ _ _).
  - intros Et. specialize (Ht Et).
    destruct (is_uart ea) eqn:Eu; [specialize (Hu eq_refl); lia |].
    destruct (is_vga ea) eqn:Ev; [specialize (Hv eq_refl); lia |].
    split; [lia |]. do 2 (split; [reflexivity |]).
    intros b data ws. unfold bus_read, bus_write. fold ea.
    destruct (Z.eqb_spec device_select 0); [lia |]. rewrite Eu, Et.
    rewrite (Hoff TIMER_BASE) by (try apply Z.eqb_eq; trivial; discriminate).
    split; reflexivity.
  - intros Ev. specialize (Hv Ev).
    destruct (is_uart ea) eqn:Eu; [specialize (Hu eq_refl); lia |].
    destruct (is_timer ea) eqn:Et; [specialize (Ht eq_refl); lia |].
    split; [lia |]. do 2 (split; [reflexivity |]).
    intros b data ws. unfold bus_read, bus_write. fold ea.
    destruct (Z.eqb_spec device_select 0); [lia |]. rewrite Eu, Et, Ev.
    split; reflexivity.
  - intros Hnz Eu Et Ev b data ws. unfold bus_read, bus_write. fold ea.
    destruct (Z.eqb_spec device_select 0); [lia |]. rewrite Eu, Et, Ev.
    split; reflexivity.
Qed.

Lemma decode_routes_to_one_target_witness :
  0 <= 2 < 8
  /\ effective_address 2 0x10
     = Z.lor (Z.shiftl 2 29) (Z.land 0x10 (2 ^ 29 - 1)).
Proof.
  split; [lia |].
  exact (proj1 (decode_routes_to_one_target 2 0x10 ltac:(lia))).
Defined.

(** ** UART Register File *)

Lemma low_byte (value : Z) : wrap8 (Z.land value 0xFF) = Z.land value 0xFF.
Proof.
  unfold wrap8. change 0xFF with (Z.ones 8). rewrite Z.land_ones by lia.
  apply Z.mod_mod. lia.
Qed.

Lemma uart_write_last_rx (u : UartMMIO.t) (offset value : Z) :
  UartMMIO.last_rx (fst (UartMMIO.write u offset value)) = UartMMIO.last_rx u.
Proof.
  unfold UartMMIO.write.
  repeat (destruct (_ =? _); [reflexivity |]).
  destruct (offset =? 16); [| reflexivity].
  now destruct (UartMMIO.enabled u).
Qed.

Lemma uart_writes_last_rx (ws : list (Z * Z)) (u : UartMMIO.t) :
  UartMMIO.last_rx (fst (UartMMIO.writes u ws)) = UartMMIO.last_rx u.
Proof.
  revert u. induction ws as [| [offset value] rest IH]; intros u; simpl.
  - reflexivity.
  - pose proof (uart_write_last_rx u offset value) as Hw.
    destruct (UartMMIO.write u offset value) as [u1 o1]. simpl in Hw.
    specialize (IH u1). destruct (UartMMIO.writes u1 rest) as [u2 o2].
    simpl in *. congruence.
Qed.

(** The claim of C4 fails: a fresh UART reads 115200 at the baud-rate
    offset 0x4, which is not the receive-byte offset 0xC. *)
Lemma uart_baudrate_reads_back :
  ~ (forall (u : UartMMIO.t) (offset : Z),
       offset <> 0xC -> UartMMIO.read u offset = 0).
Proof.
  intros H. specialize (H UartMMIO.init 0x4 ltac:(lia)). discriminate H.
Qed.

(** C4, amended.  Only the enable register is write-only.  A read at any
    offset other than the baud-rate offset 0x4 and the receive-byte offset
    0xC returns 0; in particular the enable offset 0x8 reads 0 whatever was
    stored; the baud-rate offset reads back the stored baud rate, that is the
    last value written there. *)
Theorem uart_read_offsets (u : UartMMIO.t) :
  (forall offset, offset <> 0x4 -> offset <> 0xC -> UartMMIO.read u offset = 0)
  /\ (forall v, UartMMIO.read (fst (UartMMIO.write u 0x8 v)) 0x8 = 0)
  /\ UartMMIO.read u 0x4 = UartMMIO.baudrate u
  /\ (forall v, UartMMIO.read (fst (UartMMIO.write u 0x4 v)) 0x4 = v).
Proof.
  repeat split.
  intros offset H4 HC. unfold UartMMIO.read.
  destruct (Z.eqb_spec offset 4); [lia |].
  destruct (Z.eqb_spec offset 12); [lia | reflexivity].
Qed.

Lemma uart_read_offsets_witness :
  0x8 <> 0x4 /\ 0x8 <> 0xC
  /\ UartMMIO.read (UartMMIO.mk 9600 true 0 "ok") 0x8 = 0.
Proof.
  split; [lia |]. split; [lia |].
  apply (proj1 (uart_read_offsets (UartMMIO.mk 9600 true 0 "ok"))); lia.
Defined.

(** C5.  A write of [v] to the transmit offset 0x10 appends the low 8 bits
    of [v] to the transmit log and sends them to the console when the enable
    flag is set, which a nonzero write to the enable offset 0x8 does; with the
    flag clear the write changes nothing and prints nothing; the receive
    offset 0xC reads the same placeholder after any run of writes, 0 for a
    UART that started fresh. *)
Theorem uart_transmit (u : UartMMIO.t) (v : Z) :
  (UartMMIO.enabled u = true ->
   UartMMIO.write u 0x10 v
   = (UartMMIO.mk (UartMMIO.baudrate u) true (UartMMIO.last_rx u)
        (UartMMIO.tx_log u ++ UartMMIO.char_of (Z.land v 0xFF))%string,
      UartMMIO.char_of (Z.land v 0xFF)))
  /\ (forall e, e <> 0 ->
        UartMMIO.enabled (fst (UartMMIO.write u 0x8 e)) = true)
  /\ (UartMMIO.enabled u = false ->
      UartMMIO.write u 0x10 v = (u, EmptyString))
  /\ (forall ws,
        UartMMIO.read (fst (UartMMIO.writes u ws)) 0xC = UartMMIO.read u 0xC)
  /\ (forall ws,
        UartMMIO.read (fst (UartMMIO.writes UartMMIO.init ws)) 0xC = 0).
Proof.
  split; [| split; [| split; [| split]]].
  - intros He. unfold UartMMIO.write. simpl. rewrite He, low_byte.
    reflexivity.
  - intros e He. unfold UartMMIO.write. simpl.
    destruct (Z.eqb_spec e 0); [lia | reflexivity].
  - intros He. unfold UartMMIO.write. simpl. now rewrite He.
  - intros ws. unfold UartMMIO.read. simpl. apply uart_writes_last_rx.
  - intros ws. unfold UartMMIO.read. simpl.
    now rewrite uart_writes_last_rx.
Qed.

Lemma uart_transmit_witness :
  UartMMIO.enabled (fst (UartMMIO.write UartMMIO.init 0x8 1)) = true
  /\ UartMMIO.write (fst (UartMMIO.write UartMMIO.init 0x8 1)) 0x10 0x1241
     = (UartMMIO.mk 115200 true 0 "A", "A"%string).
Proof.
  split; [reflexivity |].
  apply (proj1 (uart_transmit (fst (UartMMIO.write UartMMIO.init 0x8 1))
                  0x1241)).
  reflexivity.
Defined.

(** ** Frame Compositor *)

Lemma channel_range (v : Z) : 0 <= Z.land v 3 < 4.
Proof.
  change 3 with (Z.ones 2). rewrite Z.land_ones by lia.
  apply Z.mod_pos_bound. lia.
Qed.

Lemma vga2bit_table (channel : Z) :
  0 <= channel < 4 ->
  VGADisplay.vga2bit_to_8bit channel = VGADisplay.expand_2bit channel.
Proof.
  intros H.
  assert (Hc : channel = 0 \/ channel = 1 \/ channel = 2 \/ channel = 3)
    by lia.
  destruct Hc as [-> | [-> | [-> | ->]]]; reflexivity.
Qed.

Lemma pixel_index_bound (x y : Z) :
  0 <= x < VGADisplay.H_RES -> 0 <= y < VGADisplay.V_RES ->
  0 <= (y * VGADisplay.H_RES + x) * 4
  /\ (y * VGADisplay.H_RES + x) * 4 + 3
     < VGADisplay.H_RES * VGADisplay.V_RES * 4.
Proof. unfold VGADisplay.H_RES, VGADisplay.V_RES. intros Hx Hy. nia. Qed.

(** C6.  The colour expansion is the table 0, 85, 170, 255.  With active
    video asserted and (x, y) inside 640 by 480, the four bytes of the pixel
    become the expanded blue, green and red channels and opacity 255, and
    every other byte of the frame and the rest of the display stay as they
    were; with active video deasserted or (x, y) outside, nothing changes. *)
Theorem update_pixel_expands (d : VGADisplay.t) (rrggbb activevideo x y : Z) :
  length (VGADisplay.framebuffer d)
  = Z.to_nat (VGADisplay.H_RES * VGADisplay.V_RES * 4) ->
  0 <= x -> 0 <= y ->
  let d' := VGADisplay.update_pixel d rrggbb activevideo x y in
  let fb := VGADisplay.framebuffer d' in
  let idx := Z.to_nat ((y * VGADisplay.H_RES + x) * 4) in
  (VGADisplay.vga2bit_to_8bit 0 = 0 /\ VGADisplay.vga2bit_to_8bit 1 = 85
   /\ VGADisplay.vga2bit_to_8bit 2 = 170 /\ VGADisplay.vga2bit_to_8bit 3 = 255)
  /\ (activevideo <> 0 -> x < VGADisplay.H_RES -> y < VGADisplay.V_RES ->
      fb !! idx = Some (VGADisplay.expand_2bit (Z.land rrggbb 3))
      /\ fb !! (idx + 1)%nat
         = Some (VGADisplay.expand_2bit (Z.land (Z.shiftr rrggbb 2) 3))
      /\ fb !! (idx + 2)%nat
         = Some (VGADisplay.expand_2bit (Z.land (Z.shiftr rrggbb 4) 3))
      /\ fb !! (idx + 3)%nat = Some 255
      /\ (forall j, (j < idx \/ idx + 3 < j)%nat ->
            fb !! j = VGADisplay.framebuffer d !! j)
      /\ length fb = length (VGADisplay.framebuffer d)
      /\ VGADisplay.prev_vsync d' = VGADisplay.prev_vsync d
      /\ VGADisplay.should_quit d' = VGADisplay.should_quit d
      /\ VGADisplay.presented d' = VGADisplay.presented d)
  /\ (activevideo = 0 \/ VGADisplay.H_RES <= x \/ VGADisplay.V_RES <= y ->
      d' = d).
Proof.
  intros Hlen Hx Hy d' fb idx. split; [now vm_compute |]. split.
  - intros Ha Hxr Hyr.
    destruct (pixel_index_bound x y ltac:(lia) ltac:(lia)) as [Hlo Hhi].
    subst fb d'. unfold VGADisplay.update_pixel.
    destruct (Z.eqb_spec activevideo 0); [lia |].
    destruct (Z.ltb_spec x VGADisplay.H_RES); [| lia].
    destruct (Z.ltb_spec y VGADisplay.V_RES); [| lia].
    simpl negb. cbv [andb]. cbv zeta. simpl VGADisplay.framebuffer.
    simpl VGADisplay.prev_vsync. simpl VGADisplay.should_quit.
    simpl VGADisplay.presented.
    rewrite <- !vga2bit_table by apply channel_range.
    replace (Z.to_nat ((y * VGADisplay.H_RES + x) * 4 + 1))
      with (idx + 1)%nat by (subst idx; lia).
    replace (Z.to_nat ((y * VGADisplay.H_RES + x) * 4 + 2))
      with (idx + 2)%nat by (subst idx; lia).
    replace (Z.to_nat ((y * VGADisplay.H_RES + x) * 4 + 3))
      with (idx + 3)%nat by (subst idx; lia).
    fold idx.
    assert (Hin : (idx + 3 < length (VGADisplay.framebuffer d))%nat)
      by (subst idx; lia).
    repeat split.
    + rewrite !list_lookup_insert_ne by lia.
      apply list_lookup_insert_eq. lia.
    + rewrite !list_lookup_insert_ne by lia.
      apply list_lookup_insert_eq. rewrite !length_insert. lia.
    + rewrite !list_lookup_insert_ne by lia.
      apply list_lookup_insert_eq. rewrite !length_insert. lia.
    + apply list_lookup_insert_eq. rewrite !length_insert. lia.
    + intros j Hj. now rewrite !list_lookup_insert_ne by lia.
    + now rewrite !length_insert.
  - intros Hout. subst d'. unfold VGADisplay.update_pixel.
    destruct (Z.eqb_spec activevideo 0); [reflexivity |].
    destruct (Z.ltb_spec x VGADisplay.H_RES); [| reflexivity].
    destruct (Z.ltb_spec y VGADisplay.V_RES); [lia | reflexivity].
Qed.

Lemma update_pixel_expands_witness :
  let d := VGADisplay.make (fun _ => false) in
  length (VGADisplay.framebuffer d)
  = Z.to_nat (VGADisplay.H_RES * VGADisplay.V_RES * 4)
  /\ 0x2D <> 0 /\ 5 < VGADisplay.H_RES /\ 7 < VGADisplay.V_RES
  /\ VGADisplay.framebuffer (VGADisplay.update_pixel d 0x2D 1 5 7)
       !! Z.to_nat ((7 * VGADisplay.H_RES + 5) * 4)
     = Some 85.
Proof.
  intros d.
  assert (Hlen : length (VGADisplay.framebuffer d)
                 = Z.to_nat (VGADisplay.H_RES * VGADisplay.V_RES * 4))
    by apply length_replicate.
  split; [exact Hlen |].
  split; [lia |]. split; [reflexivity |]. split; [reflexivity |].
  apply (proj1 (proj2 (update_pixel_expands d 0x2D 1 5 7 Hlen
                         ltac:(lia) ltac:(lia)))); [lia | | ];
    reflexivity.
Defined.

Lemma check_vsync_presented (d : VGADisplay.t) (v : bool) :
  VGADisplay.presented (VGADisplay.check_vsync d v)
  = if VGADisplay.prev_vsync d && negb v
    then VGADisplay.framebuffer d :: VGADisplay.presented d
    else VGADisplay.presented d.
Proof.
  unfold VGADisplay.check_vsync.
  destruct v, (VGADisplay.prev_vsync d); reflexivity.
Qed.

Lemma feed_vsync_count (samples : list bool) (d : VGADisplay.t) :
  length (VGADisplay.presented (VGADisplay.feed_vsync d samples))
  = (length (VGADisplay.presented d)
     + VGADisplay.falling_edges (VGADisplay.prev_vsync d) samples)%nat.
Proof.
  revert d. induction samples as [| v rest IH]; intros d.
  - simpl. lia.
  - unfold VGADisplay.feed_vsync in *. simpl fold_left. rewrite IH.
    rewrite check_vsync_presented. simpl VGADisplay.falling_edges.
    replace (VGADisplay.prev_vsync (VGADisplay.check_vsync d v)) with v
      by reflexivity.
    destruct (VGADisplay.prev_vsync d && negb v); simpl; lia.
Qed.

Lemma last_nonempty_default {A : Type} (l : list A) (a x y : A) :
  List.last (a :: l) x = List.last (a :: l) y.
Proof.
  revert a. induction l as [| b l IH]; intros a; [reflexivity |].
  change (List.last (b :: l) x = List.last (b :: l) y). apply IH.
Qed.

Lemma feed_vsync_prev (samples : list bool) (d : VGADisplay.t) :
  VGADisplay.prev_vsync (VGADisplay.feed_vsync d samples)
  = List.last samples (VGADisplay.prev_vsync d).
Proof.
  revert d. induction samples as [| v rest IH]; intros d; [reflexivity |].
  unfold VGADisplay.feed_vsync in *. simpl fold_left. rewrite IH.
  destruct rest as [| b rest]; [reflexivity |].
  change (List.last (v :: b :: rest) (VGADisplay.prev_vsync d))
    with (List.last (b :: rest) (VGADisplay.prev_vsync d)).
  apply last_nonempty_default.
Qed.

(** C7.  Fed any sequence of vsync samples, the compositor hands a frame to
    the display sink once for each falling edge of the sequence, the stored
    previous level standing before the first sample, and never on a rising
    edge or a steady level; a hand-off presents the frame as it is; the only
    state the detector keeps is the previous level, which after a check is the
    sample just seen. *)
Theorem vsync_falling_edge_handoff (d : VGADisplay.t) (samples : list bool) :
  length (VGADisplay.presented (VGADisplay.feed_vsync d samples))
  = (length (VGADisplay.presented d)
     + VGADisplay.falling_edges (VGADisplay.prev_vsync d) samples)%nat
  /\ VGADisplay.prev_vsync (VGADisplay.feed_vsync d samples)
     = List.last samples (VGADisplay.prev_vsync d)
  /\ (forall v,
        VGADisplay.presented (VGADisplay.check_vsync d v)
        = match VGADisplay.prev_vsync d, v with
          | true, false => VGADisplay.framebuffer d :: VGADisplay.presented d
          | _, _ => VGADisplay.presented d
          end)
  /\ (forall v,
        VGADisplay.prev_vsync (VGADisplay.check_vsync d v) = v
        /\ VGADisplay.framebuffer (VGADisplay.check_vsync d v)
           = VGADisplay.framebuffer d).
Proof.
  split; [apply feed_vsync_count |]. split; [apply feed_vsync_prev |].
  split.
  - intros v. rewrite check_vsync_presented.
    destruct (VGADisplay.prev_vsync d), v; reflexivity.
  - intros v. unfold VGADisplay.check_vsync.
    destruct (negb v && VGADisplay.prev_vsync d); split; reflexivity.
Qed.

(** ** Signature Extractor *)

Lemma hex_fixed_length (n : nat) (v : Z) : String.length (hex_fixed n v) = n.
Proof. induction n as [| k IH]; simpl; [reflexivity | now rewrite IH]. Qed.

Lemma hex_digit_value (d : Z) :
  0 <= d < 16 -> hex_value_digit (hex_digit d) = Some d.
Proof.
  intros H. rewrite <- (Z2Nat.id d) by lia.
  assert (Hn : (Z.to_nat d < 16)%nat) by lia.
  generalize dependent (Z.to_nat d). clear H d. intros n Hn.
  do 16 (destruct n as [| n]; [reflexivity |]). lia.
Qed.

Lemma nibble_range (v k : Z) : 0 <= Z.land (Z.shiftr v k) 0xF < 16.
Proof.
  change 0xF with (Z.ones 4). rewrite Z.land_ones by lia.
  apply Z.mod_pos_bound. lia.
Qed.

(** Reading the digits back gives the value they were printed from. *)
Lemma hex_fixed_value (n : nat) (v acc : Z) :
  hex_value_from acc (hex_fixed n v)
  = Some (acc * 16 ^ Z.of_nat n + v mod 16 ^ Z.of_nat n).
Proof.
  revert acc. induction n as [| k IH]; intros acc.
  - simpl. rewrite Z.mod_1_r. f_equal. lia.
  - cbn [hex_fixed hex_value_from].
    rewrite hex_digit_value by apply nibble_range. rewrite IH. f_equal.
    change 0xF with (Z.ones 4). rewrite Z.land_ones by lia.
    rewrite Z.shiftr_div_pow2 by lia.
    replace (2 ^ (4 * Z.of_nat k)) with (16 ^ Z.of_nat k)
      by (change 16 with (2 ^ 4); rewrite <- Z.pow_mul_r by lia;
          reflexivity).
    rewrite Nat2Z.inj_succ, Z.pow_succ_r by lia.
    assert (Hp : 0 < 16 ^ Z.of_nat k) by (apply Z.pow_pos_nonneg; lia).
    rewrite (Z.mul_comm 16 (16 ^ Z.of_nat k)).
    rewrite (Z.rem_mul_r v (16 ^ Z.of_nat k) 16) by lia.
    change (2 ^ 4) with 16. ring.
Qed.

Lemma hex_width_bound (n : nat) (v : Z) :
  (1 <= n)%nat -> 0 <= v < 16 ^ Z.of_nat n -> (hex_width n v <= n)%nat.
Proof.
  revert v. induction n as [| k IH]; intros v Hn Hv; [lia |].
  cbn [hex_width]. destruct (Z.ltb_spec v 16) as [Hlt | Hge]; [lia |].
  rewrite Nat2Z.inj_succ, Z.pow_succ_r in Hv by lia.
  destruct k as [| k].
  - simpl in Hv. lia.
  - apply le_n_S. apply IH; [lia |].
    rewrite Z.shiftr_div_pow2 by lia. change (2 ^ 4) with 16.
    split; [apply Z.div_pos; lia |].
    apply Z.div_lt_upper_bound; lia.
Qed.

(** ["%08x"] of a 32-bit word is its eight hexadecimal digits, which fit the
    buffer of the dump. *)
Lemma signature_word_text (w : Z) :
  0 <= w < 2 ^ 32 -> snprintf9 (fmt_08x w) = hex_fixed 8 w.
Proof.
  intros Hw. unfold fmt_08x.
  pose proof (hex_width_bound 8 w ltac:(lia) ltac:(simpl; lia)) as Hb.
  replace (Nat.max 8 (hex_width 8 w)) with 8%nat by lia.
  reflexivity.
Qed.

Lemma read_word_range (m : Memory.t) (address : Z) :
  Memory.wf m -> 0 <= fst (Memory.read m address) < 2 ^ 32.
Proof.
  intros Hwf. unfold Memory.read. destruct (_ >=? _); simpl; [lia |].
  now apply at_in_range.
Qed.

Lemma signature_lines_step (m : Memory.t) (addr : Z) (n : nat) :
  signature_lines m addr (S n)
  = signature_line m addr 0 :: signature_lines m (addr + 4) n.
Proof.
  unfold signature_lines. rewrite <- cons_seq, <- seq_shift. cbn [map].
  f_equal. rewrite map_map. apply map_ext. intros k.
  unfold signature_line.
  replace (addr + 4 * Z.of_nat (S k)) with (addr + 4 + 4 * Z.of_nat k) by lia.
  reflexivity.
Qed.

Lemma append_empty_r (s : string) : (s ++ EmptyString)%string = s.
Proof.
  induction s as [| c s IH]; [reflexivity |].
  change (String c (s ++ EmptyString)%string = String c s). now f_equal.
Qed.

Lemma append_assoc (a b c : string) :
  ((a ++ b) ++ c)%string = (a ++ (b ++ c))%string.
Proof.
  induction a as [| x a IH]; [reflexivity |].
  change (String x ((a ++ b) ++ c)%string = String x (a ++ (b ++ c))%string).
  now f_equal.
Qed.

Lemma signature_loop_lines (m : Memory.t) (signature_end : Z) (fuel : nat) :
  Memory.wf m -> signature_end < 2 ^ 32 ->
  forall (addr : Z) (acc : string),
    0 <= addr ->
    (Z.to_nat ((signature_end - addr + 3) / 4) <= fuel)%nat ->
    signature_loop fuel m addr signature_end acc
    = Some ((acc ++ join (signature_lines m addr
                            (Z.to_nat ((signature_end - addr + 3) / 4))))%string,
            m).
Proof.
  intros Hwf He. induction fuel as [| fuel IH]; intros addr acc Ha Hfuel.
  - destruct (Z.ltb_spec addr signature_end) as [Hlt | Hge].
    + exfalso.
      assert (1 <= (signature_end - addr + 3) / 4)
        by (apply Z.div_le_lower_bound; lia).
      lia.
    + simpl. destruct (Z.ltb_spec addr signature_end); [lia |].
      replace (Z.to_nat ((signature_end - addr + 3) / 4)) with 0%nat by lia.
      simpl. now rewrite append_empty_r.
  - cbn [signature_loop].
    destruct (Z.ltb_spec addr signature_end) as [Hlt | Hge].
    + pose proof (read_memory m addr) as Hm.
      pose proof (read_word_range m addr Hwf) as Hw.
      destruct (Memory.read m addr) as [w m'] eqn:E. simpl in Hm, Hw.
      subst m'.
      assert (Hwrap : wrap64 (addr + 4) = addr + 4)
        by (unfold wrap64; apply Z.mod_small; lia).
      assert (Hn : Z.to_nat ((signature_end - addr + 3) / 4)
                   = S (Z.to_nat ((signature_end - (addr + 4) + 3) / 4))).
      { replace (signature_end - addr + 3)
          with (signature_end - (addr + 4) + 3 + 1 * 4) by lia.
        rewrite Z.div_add by lia.
        assert (0 <= (signature_end - (addr + 4) + 3) / 4)
          by (apply Z.div_pos; lia).
        lia. }
      rewrite Hwrap, IH by lia. rewrite Hn, signature_lines_step.
      cbn [join fold_right]. rewrite append_assoc.
      unfold signature_line. rewrite Z.add_0_r, E. simpl fst.
      now rewrite signature_word_text by exact Hw.
    + replace (Z.to_nat ((signature_end - addr + 3) / 4)) with 0%nat.
      * simpl. now rewrite append_empty_r.
      * assert ((signature_end - addr + 3) / 4 <= 0); [| lia].
        assert ((signature_end - addr + 3) / 4 < 1); [| lia].
        apply Z.div_lt_upper_bound; lia.
Qed.

(** C9.  For a window inside the 32-bit address space the dump ends and the
    file is the lines of the words at begin, begin + 4, ... below end, in
    that order; each line is the eight lowercase hexadecimal digits of the
    word read at that address, with no prefix, and a newline; the number of
    lines is (end - begin) / 4 when begin <= end and the length of the window
    is a multiple of 4. *)
Theorem signature_format (m : Memory.t) (signature_begin signature_end : Z) :
  Memory.wf m ->
  0 <= signature_begin < 2 ^ 32 ->
  0 <= signature_end < 2 ^ 32 ->
  let n := Z.to_nat ((signature_end - signature_begin + 3) / 4) in
  write_signature m signature_begin signature_end
  = Some (join (signature_lines m signature_begin n), m)
  /\ length (signature_lines m signature_begin n) = n
  /\ (forall k, (k < n)%nat ->
        let address := signature_begin + 4 * Z.of_nat k in
        let w := fst (Memory.read m address) in
        signature_begin <= address < signature_end
        /\ signature_lines m signature_begin n !! k
           = Some (hex_fixed 8 w ++ newline)%string
        /\ String.length (hex_fixed 8 w) = 8%nat
        /\ hex_value (hex_fixed 8 w) = Some w)
  /\ (signature_begin <= signature_end ->
      (signature_end - signature_begin) mod 4 = 0 ->
      Z.of_nat n = (signature_end - signature_begin) / 4).
Proof.
  intros Hwf Hb He n. split; [| split; [| split]].
  - unfold write_signature, signature_fuel.
    rewrite signature_loop_lines by (assumption || lia). reflexivity.
  - unfold signature_lines. now rewrite length_map, length_seq.
  - intros k Hk address w.
    assert (Hq : Z.of_nat k < (signature_end - signature_begin + 3) / 4)
      by (subst n; lia).
    split; [| split; [| split]].
    + subst address. split; [lia |].
      assert (4 * (Z.of_nat k + 1) <= signature_end - signature_begin + 3)
        by (etransitivity;
            [| apply (Z.mul_div_le (signature_end - signature_begin + 3) 4);
               lia];
            lia).
      lia.
    + unfold signature_lines. rewrite list_lookup_fmap.
      rewrite lookup_seq_lt by exact Hk. reflexivity.
    + apply hex_fixed_length.
    + unfold hex_value. rewrite hex_fixed_value. f_equal.
      pose proof (read_word_range m address Hwf) as Hw. fold w in Hw.
      change (16 ^ Z.of_nat 8) with (2 ^ 32). rewrite Z.mod_small; lia.
  - intros Hle Hmod. subst n.
    assert (Hd : signature_end - signature_begin
                 = 4 * ((signature_end - signature_begin) / 4))
      by (rewrite (Z.div_mod (signature_end - signature_begin) 4) at 1; lia).
    assert (0 <= (signature_end - signature_begin) / 4)
      by (apply Z.div_pos; lia).
    rewrite Z2Nat.id by (apply Z.div_pos; lia).
    rewrite Hd at 1. rewrite Z.mul_comm, Z.div_add_l by lia.
    change (3 / 4) with 0. lia.
Qed.

Lemma signature_format_witness :
  let m := Memory.mk [0xBABECAFE; 0x1F] in
  Memory.wf m /\ 0 <= 0 < 2 ^ 32 /\ 0 <= 12 < 2 ^ 32
  /\ write_signature m 0 12
     = Some (("babecafe" ++ newline ++ "0000001f" ++ newline
              ++ "00000000" ++ newline)%string, m).
Proof.
  intros m.
  assert (Hwf : Memory.wf m)
    by (unfold Memory.wf; simpl; repeat constructor; lia).
  split; [exact Hwf |]. split; [lia |]. split; [lia |].
  exact (proj1 (signature_format m 0 12 Hwf ltac:(lia) ltac:(lia))).
Defined.

(** ** Simulation Clock Driver *)

Lemma bus_write_size b device_select address data ws :
  Memory.size (bus_memory (fst (bus_write b device_select address data ws)))
  = Memory.size (bus_memory b).
Proof.
  unfold bus_write. destruct (device_select =? 0); [apply write_size |].
  destruct (is_uart _); [now destruct (UartMMIO.write _ _ _) |].
  destruct (is_timer _); [reflexivity |].
  now destruct (is_vga _).
Qed.

Lemma bus_read_bus b device_select address :
  snd (bus_read b device_select address) = b.
Proof.
  unfold bus_read. destruct (device_select =? 0).
  - pose proof (read_memory (bus_memory b)
                  (effective_address device_select address)) as Hm.
    destruct (Memory.read _ _) as [w m]. simpl in *. subst m. now destruct b.
  - destruct (is_uart _); [reflexivity |].
    destruct (is_timer _); [reflexivity |].
    now destruct (is_vga _).
Qed.

Lemma readInst_memory m address :
  snd (fst (Memory.readInst m address)) = m.
Proof. unfold Memory.readInst. now destruct (_ >=? _). Qed.

Lemma readInst_out_of_range m address :
  0 <= address < 2 ^ 64 -> Memory.size m <= address / 4 ->
  Memory.readInst m address
  = (0, m, ("invalid read Inst address 0x" ++ fmt_08zx (address / 4 * 4)
            ++ newline)%string).
Proof.
  intros Ha Hout. unfold Memory.readInst.
  destruct (Z.geb_spec (address / 4) (Memory.size m)); [| lia].
  assert (0 <= address / 4) by (apply Z.div_pos; lia).
  assert (address / 4 * 4 <= address)
    by (rewrite Z.mul_comm; apply Z.mul_div_le; lia).
  unfold wrap64. rewrite Z.mod_small by lia. reflexivity.
Qed.

Section SimulatorFacts.

Context {Core : Type}.
Variable eval : Core -> Inputs -> Core * Outputs.
Variable gotFinish : Core -> bool.
Variable ENABLE_SDL2 : bool.

Local Abbreviation tick_inputs := (Simulator.tick_inputs ENABLE_SDL2).
Local Abbreviation tick_outputs := (Simulator.tick_outputs eval ENABLE_SDL2).
Local Abbreviation tick_dispatch := (Simulator.tick_dispatch eval ENABLE_SDL2).
Local Abbreviation tick_display := (Simulator.tick_display ENABLE_SDL2).
Local Abbreviation quit_requested := (Simulator.quit_requested ENABLE_SDL2).
Local Abbreviation tick_check := (Simulator.tick_check ENABLE_SDL2).
Local Abbreviation tick := (Simulator.tick eval ENABLE_SDL2).
Local Abbreviation running := (Simulator.running gotFinish).
Local Abbreviation loop := (Simulator.loop eval gotFinish ENABLE_SDL2).
Local Abbreviation finish := (Simulator.finish ENABLE_SDL2).

(** What the dispatch half of a tick leaves in the fields the rest of the
    tick looks at. *)
Lemma tick_dispatch_fields (s : Simulator.t Core) :
  Simulator.main_time (tick_dispatch s) = wrap64 (Simulator.main_time s + 1)
  /\ Simulator.max_sim_time (tick_dispatch s) = Simulator.max_sim_time s
  /\ Simulator.halt_address (tick_dispatch s) = Simulator.halt_address s
  /\ Simulator.vga_display (tick_dispatch s) = Simulator.vga_display s
  /\ Simulator.top_core (tick_dispatch s)
     = fst (eval (Simulator.top_core s) (tick_inputs s))
  /\ Simulator.top_out (tick_dispatch s) = tick_outputs s
  /\ Memory.size (Simulator.memory (tick_dispatch s))
     = Memory.size (Simulator.memory s).
Proof.
  unfold Simulator.tick_dispatch, Simulator.tick_outputs.
  destruct (eval (Simulator.top_core s) (tick_inputs s)) as [core outs].
  set (w := if pin (io_memory_bundle_write_enable outs) then _ else _).
  assert (Hsize : Memory.size (bus_memory (fst w))
                  = Memory.size (Simulator.memory s)).
  { subst w. destruct (pin _); [apply bus_write_size | reflexivity]. }
  destruct w as [b uart_out]. simpl in Hsize.
  pose proof (bus_read_bus b (io_deviceSelect outs)
                (io_memory_bundle_address outs)) as Hb.
  destruct (bus_read b _ _) as [data b']. simpl in Hb. subst b'.
  pose proof (readInst_memory (bus_memory b)
                (io_instruction_address outs)) as Hm.
  destruct (Memory.readInst _ _) as [[inst m] diagnostic]. simpl in Hm.
  subst m. simpl. repeat split. exact Hsize.
Qed.

(** An instruction fetch outside the memory latches 0 as the next
    instruction word and ends the text of the tick's dispatch with the
    diagnostic. *)
Lemma tick_dispatch_fetch_out_of_range (s : Simulator.t Core) :
  let address := io_instruction_address (tick_outputs s) in
  0 <= address < 2 ^ 64 ->
  Memory.size (Simulator.memory s) <= address / 4 ->
  Simulator.inst_memory_read_word (tick_dispatch s) = 0
  /\ exists uart_out,
       Simulator.stdout (tick_dispatch s)
       = (Simulator.stdout s ++ uart_out
          ++ "invalid read Inst address 0x" ++ fmt_08zx (address / 4 * 4)
          ++ newline)%string.
Proof.
  intros address. subst address.
  unfold Simulator.tick_dispatch, Simulator.tick_outputs.
  destruct (eval (Simulator.top_core s) (tick_inputs s)) as [core outs].
  simpl snd. intros Ha Hout.
  set (address := io_instruction_address outs) in *.
  set (w := if pin (io_memory_bundle_write_enable outs) then _ else _).
  assert (Hsize : Memory.size (bus_memory (fst w))
                  = Memory.size (Simulator.memory s)).
  { subst w. destruct (pin _); [apply bus_write_size | reflexivity]. }
  destruct w as [b uart_out]. simpl in Hsize.
  pose proof (bus_read_bus b (io_deviceSelect outs)
                (io_memory_bundle_address outs)) as Hb.
  destruct (bus_read b _ _) as [data b']. simpl in Hb. subst b'.
  rewrite readInst_out_of_range by (rewrite ?Hsize; assumption).
  simpl. split; [reflexivity |]. now exists uart_out.
Qed.

Lemma tick_display_fields (s : Simulator.t Core) :
  Simulator.main_time (tick_display s) = Simulator.main_time s
  /\ Simulator.max_sim_time (tick_display s) = Simulator.max_sim_time s
  /\ Simulator.halt_address (tick_display s) = Simulator.halt_address s
  /\ Simulator.memory (tick_display s) = Simulator.memory s
  /\ Simulator.top_core (tick_display s) = Simulator.top_core s.
Proof.
  unfold Simulator.tick_display. destruct ENABLE_SDL2; [| now repeat split].
  destruct (Simulator.vga_display s); now repeat split.
Qed.

(** How the second half of a tick ends, and what it leaves of the clock
    and of the core. *)
Lemma tick_check_control (s : Simulator.t Core) :
  fst (tick_check s)
  = (if quit_requested (tick_display s) then Break
     else if Simulator.halt_observed s then Break
     else if progress_period (Simulator.max_sim_time s) =? 0
          then DivisionByZero
     else Continue)
  /\ Simulator.main_time (snd (tick_check s)) = Simulator.main_time s
  /\ Simulator.max_sim_time (snd (tick_check s)) = Simulator.max_sim_time s
  /\ Simulator.top_core (snd (tick_check s)) = Simulator.top_core s.
Proof.
  destruct (tick_display_fields s) as (Ht & Hmax & Hh & Hm & Hc).
  unfold Simulator.tick_check, Simulator.halt_observed.
  destruct (quit_requested (tick_display s)); [now repeat split |].
  rewrite Hh, Hm.
  destruct (negb (Simulator.halt_address s =? 0)).
  - destruct (Memory.read (Simulator.memory s) (Simulator.halt_address s))
      as [w m]. simpl fst. simpl andb.
    destruct (w =? HALT_SENTINEL); [now repeat split |].
    simpl Simulator.max_sim_time. rewrite Hmax.
    destruct (progress_period (Simulator.max_sim_time s) =? 0);
      [now repeat split |].
    simpl Simulator.main_time.
    destruct (_ mod _ =? 0); now repeat split.
  - simpl andb. cbv iota. rewrite Hmax.
    destruct (progress_period (Simulator.max_sim_time s) =? 0);
      [now repeat split |].
    destruct (_ mod _ =? 0); now repeat split.
Qed.

Lemma tick_fields (s : Simulator.t Core) :
  fst (tick s)
  = (if quit_requested (tick_display (tick_dispatch s)) then Break
     else if Simulator.halt_observed (tick_dispatch s) then Break
     else if progress_period (Simulator.max_sim_time s) =? 0
          then DivisionByZero
     else Continue)
  /\ Simulator.main_time (snd (tick s)) = wrap64 (Simulator.main_time s + 1)
  /\ Simulator.max_sim_time (snd (tick s)) = Simulator.max_sim_time s
  /\ Simulator.top_core (snd (tick s))
     = fst (eval (Simulator.top_core s) (tick_inputs s)).
Proof.
  destruct (tick_dispatch_fields s) as (Ht & Hmax & _ & _ & Hc & _).
  destruct (tick_check_control (tick_dispatch s)) as (Hk & Ht' & Hmax' & Hc').
  unfold Simulator.tick. rewrite Hk, Ht', Hmax', Hc', Hmax, Ht, Hc.
  now repeat split.
Qed.

(** While the loop runs, the tick counter stays below the budget, so one
    unit of fuel per remaining tick is enough. *)
Lemma loop_enough_fuel (fuel : nat) (s : Simulator.t Core) :
  0 <= Simulator.main_time s ->
  Simulator.max_sim_time s < 2 ^ 64 ->
  (Z.to_nat (Simulator.max_sim_time s - Simulator.main_time s) <= fuel)%nat ->
  loop fuel s <> Simulator.OutOfFuel.
Proof.
  revert s. induction fuel as [| fuel IH]; intros s Ht Hmax Hfuel.
  - simpl. unfold Simulator.running.
    destruct (Z.ltb_spec (Simulator.main_time s) (Simulator.max_sim_time s));
      [lia | discriminate].
  - cbn [Simulator.loop]. unfold Simulator.running.
    destruct (Z.ltb_spec (Simulator.main_time s) (Simulator.max_sim_time s));
      [| discriminate].
    destruct (negb (gotFinish (Simulator.top_core s))); [| discriminate].
    simpl andb. cbv iota.
    destruct (tick_fields s) as (_ & Ht' & Hmax' & _).
    destruct (tick s) as [[] s']; simpl in Ht', Hmax'; try discriminate.
    unfold wrap64 in Ht'. rewrite Z.mod_small in Ht' by lia.
    apply IH; lia.
Qed.

(** With a budget of at least 100 the loop never ends in the division by
    zero. *)
Lemma loop_progress_defined (fuel : nat) (s s' : Simulator.t Core) :
  100 <= Simulator.max_sim_time s -> loop fuel s <> Simulator.Undefined s'.
Proof.
  revert s. induction fuel as [| fuel IH]; intros s Hmax.
  - simpl. destruct (running s); discriminate.
  - cbn [Simulator.loop]. destruct (running s); [| discriminate].
    destruct (tick_fields s) as (Hk & _ & Hmax' & _).
    destruct (tick s) as [c s1]. simpl in Hk, Hmax'.
    destruct c; [apply IH; lia | discriminate |].
    exfalso.
    destruct (quit_requested _); [discriminate |].
    destruct (Simulator.halt_observed _); [discriminate |].
    destruct (Z.eqb_spec (progress_period (Simulator.max_sim_time s)) 0)
      as [E | _]; [| discriminate].
    unfold progress_period in E.
    assert (1 <= Simulator.max_sim_time s / 100)
      by (apply Z.div_le_lower_bound; lia).
    lia.
Qed.

Lemma signature_loop_terminates (m : Memory.t) (signature_end : Z)
    (fuel : nat) :
  signature_end < 2 ^ 32 ->
  forall (addr : Z) (acc : string),
    0 <= addr ->
    (Z.to_nat ((signature_end - addr + 3) / 4) <= fuel)%nat ->
    exists text, signature_loop fuel m addr signature_end acc
                 = Some (text, m).
Proof.
  intros He. induction fuel as [| fuel IH]; intros addr acc Ha Hfuel.
  - simpl. destruct (Z.ltb_spec addr signature_end) as [Hlt | Hge];
      [| now exists acc].
    exfalso.
    assert (1 <= (signature_end - addr + 3) / 4)
      by (apply Z.div_le_lower_bound; lia).
    lia.
  - cbn [signature_loop].
    destruct (Z.ltb_spec addr signature_end) as [Hlt | Hge];
      [| now exists acc].
    pose proof (read_memory m addr) as Hm.
    destruct (Memory.read m addr) as [w m']. simpl in Hm. subst m'.
    unfold wrap64. rewrite Z.mod_small by lia.
    apply IH; [lia |].
    replace (signature_end - addr + 3)
      with (signature_end - (addr + 4) + 3 + 1 * 4) in Hfuel by lia.
    rewrite Z.div_add in Hfuel by lia.
    assert (0 <= (signature_end - (addr + 4) + 3) / 4)
      by (apply Z.div_pos; lia).
    lia.
Qed.

(** The statements after the loop end and leave the core alone. *)
Lemma finish_keeps_core (s : Simulator.t Core) :
  0 <= Simulator.signature_begin s ->
  Simulator.signature_end s < 2 ^ 32 ->
  exists final,
    finish s = Simulator.Done final
    /\ Simulator.top_core final = Simulator.top_core s
    /\ Simulator.main_time final = Simulator.main_time s.
Proof.
  intros Hb He. unfold Simulator.finish, write_signature, signature_fuel.
  destruct (Simulator.dump_signature s).
  - destruct (signature_loop_terminates (Simulator.memory s)
                (Simulator.signature_end s)
                (Z.to_nat ((Simulator.signature_end s
                            - Simulator.signature_begin s + 3) / 4))
                He (Simulator.signature_begin s) EmptyString Hb
                ltac:(lia)) as [text ->].
    eexists. split; [reflexivity |]. now destruct ENABLE_SDL2.
  - eexists. split; [reflexivity |]. now destruct ENABLE_SDL2.
Qed.

(** A tick leaves the signature window as configured. *)
Lemma tick_window (s : Simulator.t Core) :
  Simulator.signature_begin (snd (tick s)) = Simulator.signature_begin s
  /\ Simulator.signature_end (snd (tick s)) = Simulator.signature_end s.
Proof.
  assert (Hd : Simulator.signature_begin (tick_dispatch s)
               = Simulator.signature_begin s
               /\ Simulator.signature_end (tick_dispatch s)
                  = Simulator.signature_end s).
  { unfold Simulator.tick_dispatch.
    destruct (eval _ _) as [core outs].
    destruct (if pin _ then _ else _) as [b uart_out].
    destruct (bus_read _ _ _) as [data b'].
    destruct (Memory.readInst _ _) as [[inst m] diagnostic].
    split; reflexivity. }
  destruct Hd as [<- <-]. unfold Simulator.tick.
  generalize (tick_dispatch s). clear s. intros s.
  assert (Hv : Simulator.signature_begin (tick_display s)
               = Simulator.signature_begin s
               /\ Simulator.signature_end (tick_display s)
                  = Simulator.signature_end s).
  { unfold Simulator.tick_display. destruct ENABLE_SDL2; [| now split].
    destruct (Simulator.vga_display s); now split. }
  destruct Hv as [<- <-]. unfold Simulator.tick_check.
  generalize (tick_display s). clear s. intros s.
  destruct (quit_requested s); [now split |].
  destruct (negb (Simulator.halt_address s =? 0)).
  - destruct (Memory.read _ _) as [w m].
    destruct (w =? HALT_SENTINEL); [now split |].
    destruct (progress_period _ =? 0); [now split |].
    destruct (_ mod _ =? 0); now split.
  - destruct (progress_period _ =? 0); [now split |].
    destruct (_ mod _ =? 0); now split.
Qed.

(** C3.  For an address whose word index is outside the capacity, a data
    read returns 0 and the memory it hands back is the one it was given; an
    instruction read returns 0, leaves the memory alone and prints the
    diagnostic; a write returns the memory unchanged.  In a tick whose fetch
    address is that address the next instruction word is 0, the diagnostic
    ends the text of the dispatch, and the loop goes on unless the display
    asks to quit or the halt condition holds. *)
Theorem out_of_range_access (m : Memory.t) (address value : Z) (ws : Strobe) :
  0 <= address < 2 ^ 64 ->
  Memory.size m <= address / 4 ->
  Memory.read m address = (0, m)
  /\ Memory.readInst m address
     = (0, m, ("invalid read Inst address 0x" ++ fmt_08zx (address / 4 * 4)
               ++ newline)%string)
  /\ Memory.write m address value ws = m
  /\ forall s : Simulator.t Core,
       Simulator.memory s = m ->
       io_instruction_address (tick_outputs s) = address ->
       Simulator.inst_memory_read_word (tick_dispatch s) = 0
       /\ (exists uart_out,
             Simulator.stdout (tick_dispatch s)
             = (Simulator.stdout s ++ uart_out
                ++ "invalid read Inst address 0x"
                ++ fmt_08zx (address / 4 * 4) ++ newline)%string)
       /\ (quit_requested (tick_display (tick_dispatch s)) = false ->
           Simulator.halt_observed (tick_dispatch s) = false ->
           100 <= Simulator.max_sim_time s ->
           fst (tick s) = Continue).
Proof.
  intros Ha Hout. split; [| split; [| split]].
  - unfold Memory.read.
    destruct (Z.geb_spec (address / 4) (Memory.size m)); [reflexivity | lia].
  - now apply readInst_out_of_range.
  - unfold Memory.write.
    destruct (Z.geb_spec (address / 4) (Memory.size m)); [reflexivity | lia].
  - intros s Hm Hfetch.
    destruct (tick_dispatch_fetch_out_of_range s) as [Hinst Hout'];
      rewrite ?Hfetch, ?Hm; try assumption.
    split; [exact Hinst |]. split; [rewrite Hfetch in Hout'; exact Hout' |].
    intros Hq Hh Hmax. destruct (tick_fields s) as (Hk & _).
    rewrite Hk, Hq, Hh.
    destruct (Z.eqb_spec (progress_period (Simulator.max_sim_time s)) 0)
      as [E | _]; [| reflexivity].
    unfold progress_period in E.
    assert (1 <= Simulator.max_sim_time s / 100)
      by (apply Z.div_le_lower_bound; lia).
    lia.
Qed.

(** C8, amended.  With a nonzero halt address A configured, if the
    dispatch of a tick leaves the sentinel word at A, the loop ends in that
    very tick: the tick breaks, the loop returns the state of that tick, the
    tick counter is one more than before the tick and so at most the budget,
    the core has been evaluated once in the tick and the statements after
    the loop do not evaluate it again. *)
Theorem halt_sentinel_ends_the_run (s : Simulator.t Core) (fuel : nat) :
  0 <= Simulator.main_time s ->
  Simulator.max_sim_time s < 2 ^ 64 ->
  0 <= Simulator.signature_begin s ->
  Simulator.signature_end s < 2 ^ 32 ->
  running s = true ->
  Simulator.halt_address s <> 0 ->
  fst (Memory.read (Simulator.memory (tick_dispatch s))
                   (Simulator.halt_address s)) = HALT_SENTINEL ->
  let s' := snd (tick s) in
  fst (tick s) = Break
  /\ loop (S fuel) s = Simulator.Done s'
  /\ Simulator.main_time s' = Simulator.main_time s + 1
  /\ Simulator.main_time s' <= Simulator.max_sim_time s
  /\ Simulator.top_core s'
     = fst (eval (Simulator.top_core s) (tick_inputs s))
  /\ exists final,
       finish s' = Simulator.Done final
       /\ Simulator.top_core final = Simulator.top_core s'
       /\ Simulator.main_time final = Simulator.main_time s'.
Proof.
  intros Ht Hmax Hb He Hrun Hhalt Hsent s'.
  destruct (tick_fields s) as (Hk & Ht' & Hmax' & Hc).
  destruct (tick_dispatch_fields s) as (_ & _ & Hh & _).
  assert (Hlt : Simulator.main_time s < Simulator.max_sim_time s).
  { unfold Simulator.running in Hrun. apply andb_true_iff in Hrun.
    now apply Z.ltb_lt. }
  assert (Hbreak : fst (tick s) = Break).
  { rewrite Hk. destruct (quit_requested _); [reflexivity |].
    unfold Simulator.halt_observed. rewrite Hh, Hsent.
    destruct (Z.eqb_spec (Simulator.halt_address s) 0); [lia |].
    reflexivity. }
  assert (Htime : Simulator.main_time s' = Simulator.main_time s + 1).
  { subst s'. rewrite Ht'. unfold wrap64. apply Z.mod_small. lia. }
  split; [exact Hbreak |]. split; [| split; [| split; [| split]]].
  - cbn [Simulator.loop]. rewrite Hrun. subst s'.
    destruct (tick s) as [c s1]. simpl in Hbreak. now subst c.
  - exact Htime.
  - lia.
  - exact Hc.
  - destruct (tick_window s) as [Hwb Hwe].
    apply finish_keeps_core; subst s'; [rewrite Hwb | rewrite Hwe];
      assumption.
Qed.

(** C10.  The progress check of a tick divides by the integer quotient
    of the budget by 100.  That divisor is zero exactly when the budget is
    below 100.  With a budget of at least 100 no tick and no run of the loop
    ends in the division by zero, a tick that does not break goes on, and
    the loop ends; with a budget below 100 every tick that reaches the
    check, that is every tick that does not break, divides by zero. *)
Theorem progress_check_defined (s : Simulator.t Core) :
  0 <= Simulator.max_sim_time s ->
  progress_period (Simulator.max_sim_time s) = Simulator.max_sim_time s / 100
  /\ (progress_period (Simulator.max_sim_time s) = 0
      <-> Simulator.max_sim_time s < 100)
  /\ (100 <= Simulator.max_sim_time s ->
      fst (tick s) <> DivisionByZero
      /\ (quit_requested (tick_display (tick_dispatch s)) = false ->
          Simulator.halt_observed (tick_dispatch s) = false ->
          fst (tick s) = Continue)
      /\ (forall fuel s', loop fuel s <> Simulator.Undefined s')
      /\ (0 <= Simulator.main_time s ->
          Simulator.max_sim_time s < 2 ^ 64 ->
          exists s',
            loop (Z.to_nat (Simulator.max_sim_time s - Simulator.main_time s))
                 s = Simulator.Done s'))
  /\ (Simulator.max_sim_time s < 100 ->
      (fst (tick s) = DivisionByZero \/ fst (tick s) = Break)
      /\ (quit_requested (tick_display (tick_dispatch s)) = false ->
          Simulator.halt_observed (tick_dispatch s) = false ->
          fst (tick s) = DivisionByZero)).
Proof.
  intros Hmax.
  assert (Hzero : progress_period (Simulator.max_sim_time s) = 0
                  <-> Simulator.max_sim_time s < 100).
  { unfold progress_period. split; intros H.
    - destruct (Z.lt_ge_cases (Simulator.max_sim_time s) 100) as [Hlt | Hge];
        [exact Hlt |].
      assert (1 <= Simulator.max_sim_time s / 100)
        by (apply Z.div_le_lower_bound; lia).
      lia.
    - apply Z.div_small. lia. }
  destruct (tick_fields s) as (Hk & _).
  split; [reflexivity |]. split; [exact Hzero |]. split.
  - intros Hge.
    assert (Hnz : (progress_period (Simulator.max_sim_time s) =? 0) = false)
      by (apply Z.eqb_neq; rewrite Hzero; lia).
    split; [| split; [| split]].
    + rewrite Hk, Hnz. destruct (quit_requested _); [discriminate |].
      destruct (Simulator.halt_observed _); discriminate.
    + intros Hq Hh. now rewrite Hk, Hq, Hh, Hnz.
    + intros fuel s'. now apply loop_progress_defined.
    + intros Ht Hlt.
      pose proof (loop_enough_fuel
                    (Z.to_nat (Simulator.max_sim_time s
                               - Simulator.main_time s)) s Ht Hlt
                    ltac:(lia)) as Hfuel.
      pose proof (fun s' =>
                    loop_progress_defined
                      (Z.to_nat (Simulator.max_sim_time s
                                 - Simulator.main_time s)) s s' Hge) as Hdef.
      destruct (loop _ s) as [s' | s' |].
      * now exists s'.
      * now destruct (Hdef s').
      * now destruct Hfuel.
  - intros Hlt.
    assert (Hz : (progress_period (Simulator.max_sim_time s) =? 0) = true)
      by (apply Z.eqb_eq; rewrite Hzero; lia).
    split.
    + rewrite Hk, Hz. destruct (quit_requested _); [now right |].
      destruct (Simulator.halt_observed _); [now right | now left].
    + intros Hq Hh. now rewrite Hk, Hq, Hh, Hz.
Qed.

End SimulatorFacts.

Lemma out_of_range_access_witness :
  let s := Simulator.start (Demo.eval Demo.fetching) false
             (Demo.simulator 100 0 16) in
  0 <= 0x1000 < 2 ^ 64
  /\ Memory.size (Simulator.memory s) <= 0x1000 / 4
  /\ Memory.write (Simulator.memory s) 0x1000 7 no_strobe = Simulator.memory s
  /\ Simulator.inst_memory_read_word
       (Simulator.tick_dispatch (Demo.eval Demo.fetching) false s) = 0
  /\ fst (Simulator.tick (Demo.eval Demo.fetching) false s) = Continue.
Proof.
  intros s.
  assert (Ha : 0 <= 0x1000 < 2 ^ 64) by lia.
  assert (Hout : Memory.size (Simulator.memory s) <= 0x1000 / 4)
    by (vm_compute; discriminate).
  destruct (out_of_range_access (Demo.eval Demo.fetching) false
              (Simulator.memory s) 0x1000 7 no_strobe Ha Hout)
    as (_ & _ & Hwrite & Htick).
  destruct (Htick s eq_refl eq_refl) as (Hinst & _ & Hgo).
  split; [exact Ha |]. split; [exact Hout |]. split; [exact Hwrite |].
  split; [exact Hinst |].
  apply Hgo; [reflexivity | reflexivity | vm_compute; discriminate].
Defined.

(** The claim of C8 fails on the last tick of the budget.  With a budget of
    100 ticks and halt address 0x100, the core stores the sentinel at 0x100
    in tick 100, which runs with reset deasserted; the run ends in that tick
    with the tick counter at 100, not below the budget. *)
Lemma halt_on_the_last_tick :
  let eval := Demo.eval Demo.halting in
  let sim := Demo.simulator 100 0x100 128 in
  let s := Simulator.ticks eval false 99 (Simulator.start eval false sim) in
  Simulator.running Demo.gotFinish s = true
  /\ Simulator.halt_address s = 0x100
  /\ reset (Simulator.tick_inputs false s) = 0
  /\ fst (Memory.read (Simulator.memory s) 0x100) = 0
  /\ fst (Memory.read (Simulator.memory (Simulator.tick_dispatch eval false s))
                      0x100) = HALT_SENTINEL
  /\ fst (Simulator.tick eval false s) = Break
  /\ Simulator.main_time (snd (Simulator.tick eval false s)) = 100
  /\ Simulator.max_sim_time s = 100
  /\ ~ (Simulator.main_time (snd (Simulator.tick eval false s))
        < Simulator.max_sim_time s)
  /\ exists final,
       Simulator.run eval Demo.gotFinish false sim = Simulator.Done final
       /\ Simulator.main_time final = Simulator.max_sim_time final.
Proof.
  intros eval sim s. repeat (split; [vm_compute; congruence |]).
  eexists. split; [vm_compute; reflexivity | reflexivity].
Qed.

Lemma halt_sentinel_ends_the_run_witness :
  let eval := Demo.eval Demo.halting in
  let sim := Demo.simulator 200 0x100 128 in
  let s := Simulator.ticks eval false 99 (Simulator.start eval false sim) in
  Simulator.running Demo.gotFinish s = true
  /\ Simulator.halt_address s <> 0
  /\ fst (Memory.read (Simulator.memory (Simulator.tick_dispatch eval false s))
                      (Simulator.halt_address s)) = HALT_SENTINEL
  /\ Simulator.loop eval Demo.gotFinish false 101 s
     = Simulator.Done (snd (Simulator.tick eval false s))
  /\ Simulator.main_time (snd (Simulator.tick eval false s))
     = Simulator.main_time s + 1.
Proof.
  intros eval sim s.
  assert (Hrun : Simulator.running Demo.gotFinish s = true) by reflexivity.
  assert (Hhalt : Simulator.halt_address s <> 0) by (vm_compute; discriminate).
  assert (Hsent : fst (Memory.read
                         (Simulator.memory
                            (Simulator.tick_dispatch eval false s))
                         (Simulator.halt_address s)) = HALT_SENTINEL)
    by reflexivity.
  destruct (halt_sentinel_ends_the_run eval Demo.gotFinish false s 100%nat)
    as (_ & Hloop & Htime & _);
    try assumption; try (vm_compute; congruence).
  repeat (split; [assumption |]). exact Htime.
Defined.

Lemma progress_check_defined_witness :
  let eval := Demo.eval Demo.halting in
  let long := Simulator.start eval false (Demo.simulator 100 0x100 128) in
  let short := Simulator.start eval false (Demo.simulator 50 0x100 128) in
  (100 <= Simulator.max_sim_time long
   /\ fst (Simulator.tick eval false long) = Continue)
  /\ (Simulator.max_sim_time short < 100
      /\ fst (Simulator.tick eval false short) = DivisionByZero).
Proof.
  intros eval long short. split.
  - split; [vm_compute; discriminate |].
    destruct (progress_check_defined eval Demo.gotFinish false long)
      as (_ & _ & Hlong & _); [vm_compute; discriminate |].
    destruct Hlong as (_ & Hgo & _); [vm_compute; discriminate |].
    apply Hgo; reflexivity.
  - split; [reflexivity |].
    destruct (progress_check_defined eval Demo.gotFinish false short)
      as (_ & _ & _ & Hshort); [vm_compute; discriminate |].
    destruct Hshort as (_ & Hdiv); [reflexivity |].
    apply Hdiv; reflexivity.
Defined.

(** * Further properties of the simulator *)

(** ** Image load *)

Section LoadBinaryFacts.

Variable host_word : list Z -> Z.




(** X2.  With sizes that do not wrap, the load throws exactly when the file
    cannot be opened or the image placed at the load address ends beyond the
    capacity; an image that ends at the last byte of the memory loads. *)
Theorem load_binary_throws (m : Memory.t) (file : option (list Z))
    (filename : string) (load_address : Z) :
  0 <= load_address ->
  Memory.size m * 4 < 2 ^ 64 ->
  load_address + Z.of_nat (length (default [] file)) < 2 ^ 64 ->
  (exists what,
     load_binary host_word m file filename load_address = Runtime_error what)
  <-> (file = None
       \/ Memory.size m * 4
          < load_address + Z.of_nat (length (default [] file))).
Proof.
  intros Hload Hcap Hwrap. unfold load_binary.
  destruct file as [bytes |]; simpl in *.
  - unfold wrap64. rewrite !Z.mod_small by (unfold Memory.size in *; lia).
    destruct (Z.gtb_spec (load_address + Z.of_nat (length bytes))
                (Memory.size m * 4)) as [Hgt | Hle].
    + split; [intros _; right; lia | intros _; eexists; reflexivity].
    + split.
      * intros [what Hw]. discriminate Hw.
      * intros [Hnone | Hbig]; [discriminate | lia].
  - split; [intros _; now left | intros _; eexists; reflexivity].
Qed.

End LoadBinaryFacts.


Lemma load_binary_throws_witness :
  let m := Memory.make 2 in
  0 <= 8 /\ Memory.size m * 4 < 2 ^ 64
  /\ exists what,
       load_binary le_word m (Some [1; 2; 3; 4]) "image.bin" 8
       = Runtime_error what.
Proof.
  intros m.
  assert (H1 : 0 <= 8) by lia.
  assert (H2 : Memory.size m * 4 < 2 ^ 64) by (vm_compute; reflexivity).
  split; [exact H1 |]. split; [exact H2 |].
  apply (load_binary_throws le_word m (Some [1; 2; 3; 4]) "image.bin" 8 H1 H2).
  - vm_compute. reflexivity.
  - right. vm_compute. reflexivity.
Defined.

(** ** Word Memory: how writes compose *)

Lemma merge_all_strobes (old value : Z) :
  0 <= value < 2 ^ 32 ->
  Z.lor (Z.land old (not32 (Memory.write_mask all_strobes)))
        (Z.land value (Memory.write_mask all_strobes)) = value.
Proof.
  intros Hv. change (Memory.write_mask all_strobes) with 0xFFFFFFFF.
  change (not32 0xFFFFFFFF) with 0.
  rewrite Z.land_0_r, Z.lor_0_l. now apply land_ones32_id.
Qed.

(** Merging twice under one mask keeps only the second value. *)
Lemma merge_twice (mask old v1 v2 : Z) :
  0 <= mask < 2 ^ 32 ->
  Z.lor (Z.land (Z.lor (Z.land old (not32 mask)) (Z.land v1 mask))
                (not32 mask))
        (Z.land v2 mask)
  = Z.lor (Z.land old (not32 mask)) (Z.land v2 mask).
Proof.
  intros Hmask. apply Z.bits_inj'. intros n Hn.
  rewrite !Z.lor_spec, !Z.land_spec, !Z.lor_spec, !Z.land_spec.
  rewrite !testbit_not32 by lia.
  destruct (Z.ltb_spec n 32) as [Hlt | Hge].
  - destruct (Z.testbit old n), (Z.testbit mask n), (Z.testbit v1 n),
      (Z.testbit v2 n); reflexivity.
  - rewrite (word_range_testbit mask n Hmask Hge).
    destruct (Z.testbit old n), (Z.testbit v1 n), (Z.testbit v2 n);
      reflexivity.
Qed.

Lemma read_write_other (m : Memory.t) (address value : Z) (ws : Strobe)
    (other : Z) :
  0 <= address -> 0 <= other -> other / 4 <> address / 4 ->
  fst (Memory.read (Memory.write m address value ws) other)
  = fst (Memory.read m other).
Proof.
  intros Ha Ho Hne. unfold Memory.read. rewrite write_size.
  destruct (other / 4 >=? Memory.size m); [reflexivity |]. simpl.
  apply at_write_other; [lia | apply Z.div_pos; lia | exact Hne].
Qed.

(** X3.  A write with all four strobes set to a word within capacity makes
    a data read of that address return exactly the written 32-bit value,
    whatever was stored before; and a write, with any strobes, leaves the
    value read at every address of another word as it was. *)
Theorem full_word_write_read (m : Memory.t) (address value : Z) :
  0 <= address ->
  address / 4 < Memory.size m ->
  0 <= value < 2 ^ 32 ->
  fst (Memory.read (Memory.write m address value all_strobes) address) = value
  /\ forall ws other,
       0 <= other -> other / 4 <> address / 4 ->
       fst (Memory.read (Memory.write m address value ws) other)
       = fst (Memory.read m other).
Proof.
  intros Ha Hin Hv. split.
  - rewrite read_in_range by (rewrite write_size; exact Hin). simpl.
    rewrite at_write_same by assumption. now apply merge_all_strobes.
  - intros ws other Ho Hne. now apply read_write_other.
Qed.

Lemma full_word_write_read_witness :
  let m := Memory.mk [0xDEADBEEF; 0x01020304] in
  0 <= 5 /\ 5 / 4 < Memory.size m /\ 0 <= 0xCAFEF00D < 2 ^ 32
  /\ fst (Memory.read (Memory.write m 5 0xCAFEF00D all_strobes) 5)
     = 0xCAFEF00D.
Proof.
  intros m.
  assert (H1 : 0 <= 5) by lia.
  assert (H2 : 5 / 4 < Memory.size m) by (vm_compute; reflexivity).
  assert (H3 : 0 <= 0xCAFEF00D < 2 ^ 32) by lia.
  repeat (split; [assumption |]).
  exact (proj1 (full_word_write_read m 5 0xCAFEF00D H1 H2 H3)).
Defined.

(** X4.  Writes to different words commute, whatever their strobes and
    whether or not they are within capacity; of two writes to the same word
    under the same strobes only the second one counts. *)
Theorem writes_commute_or_overwrite (m : Memory.t) (a1 v1 a2 v2 : Z)
    (w1 w2 : Strobe) :
  0 <= a1 -> 0 <= a2 ->
  (a1 / 4 <> a2 / 4 ->
   Memory.write (Memory.write m a1 v1 w1) a2 v2 w2
   = Memory.write (Memory.write m a2 v2 w2) a1 v1 w1)
  /\ (a1 / 4 = a2 / 4 ->
      Memory.write (Memory.write m a1 v1 w1) a2 v2 w1
      = Memory.write m a2 v2 w1).
Proof.
  intros H1 H2.
  assert (Hd1 : 0 <= a1 / 4) by (apply Z.div_pos; lia).
  assert (Hd2 : 0 <= a2 / 4) by (apply Z.div_pos; lia).
  split.
  - intros Hne.
    pose proof (at_write_other m a1 v1 w1 (a2 / 4) H1 Hd2 ltac:(lia)) as E21.
    pose proof (at_write_other m a2 v2 w2 (a1 / 4) H2 Hd1 ltac:(lia)) as E12.
    unfold Memory.write at 1 3. rewrite !write_size, E21, E12.
    unfold Memory.write.
    destruct (a1 / 4 >=? Memory.size m), (a2 / 4 >=? Memory.size m);
      try reflexivity.
    simpl. f_equal. apply list_insert_insert_ne. lia.
  - intros Heq.
    unfold Memory.write at 1. rewrite write_size, <- Heq.
    destruct (Z.geb_spec (a1 / 4) (Memory.size m)) as [Hout | Hin].
    + unfold Memory.write.
      destruct (Z.geb_spec (a1 / 4) (Memory.size m)); [| lia].
      rewrite <- Heq.
      destruct (Z.geb_spec (a1 / 4) (Memory.size m)); [reflexivity | lia].
    + rewrite at_write_same by lia.
      rewrite merge_twice by apply write_mask_range.
      unfold Memory.write.
      destruct (Z.geb_spec (a1 / 4) (Memory.size m)); [lia |].
      rewrite <- Heq.
      destruct (Z.geb_spec (a1 / 4) (Memory.size m)); [lia |].
      simpl. f_equal. apply list_insert_insert_eq.
Qed.

Lemma writes_commute_or_overwrite_witness :
  let m := Memory.mk [1; 2; 3] in
  0 <= 0 /\ 0 <= 9 /\ 0 / 4 <> 9 / 4
  /\ Memory.write (Memory.write m 0 0xAA (mkStrobe true false false false))
                  9 0xBBCC (mkStrobe true true false false)
     = Memory.write (Memory.write m 9 0xBBCC (mkStrobe true true false false))
                    0 0xAA (mkStrobe true false false false).
Proof.
  intros m.
  assert (H1 : 0 <= 0) by lia. assert (H2 : 0 <= 9) by lia.
  assert (H3 : 0 / 4 <> 9 / 4) by (vm_compute; discriminate).
  repeat (split; [assumption |]).
  exact (proj1 (writes_commute_or_overwrite m 0 0xAA 9 0xBBCC
                  (mkStrobe true false false false)
                  (mkStrobe true true false false) H1 H2) H3).
Defined.

(** ** Timer Register File *)

(** X5.  The timer is plain storage of two independent registers.  The limit
    register at 0x4 reads back the value written; the enable register at 0x8
    reads back 1 after a nonzero write and 0 after a zero write; a write to
    one register does not change what the other reads; a write at any other
    offset changes nothing and a read at any other offset returns 0. *)
Theorem timer_registers (tm : TimerMMIO.t) (value : Z) :
  TimerMMIO.read (TimerMMIO.write tm 0x4 value) 0x4 = value
  /\ TimerMMIO.read (TimerMMIO.write tm 0x8 value) 0x8
     = (if value =? 0 then 0 else 1)
  /\ TimerMMIO.read (TimerMMIO.write tm 0x4 value) 0x8 = TimerMMIO.read tm 0x8
  /\ TimerMMIO.read (TimerMMIO.write tm 0x8 value) 0x4 = TimerMMIO.read tm 0x4
  /\ (forall offset, offset <> 0x4 -> offset <> 0x8 ->
        TimerMMIO.write tm offset value = tm
        /\ TimerMMIO.read tm offset = 0).
Proof.
  split; [reflexivity |]. split.
  { unfold TimerMMIO.read, TimerMMIO.write. simpl.
    now destruct (value =? 0). }
  split; [reflexivity |]. split; [reflexivity |].
  intros offset H4 H8. unfold TimerMMIO.read, TimerMMIO.write.
  destruct (Z.eqb_spec offset 4); [lia |].
  destruct (Z.eqb_spec offset 8); [lia |]. now split.
Qed.

Lemma timer_registers_witness :
  0x10 <> 0x4 /\ 0x10 <> 0x8
  /\ TimerMMIO.write (TimerMMIO.mk 7 true) 0x10 99 = TimerMMIO.mk 7 true.
Proof.
  split; [lia |]. split; [lia |].
  apply (proj2 (proj2 (proj2 (proj2
           (timer_registers (TimerMMIO.mk 7 true) 99)))) 0x10); lia.
Defined.

(** ** Peripherals behind the bus *)

Lemma high_bits_clear (b n k : Z) :
  0 <= b < 2 ^ n -> n <= k -> Z.testbit b k = false.
Proof.
  intros Hb Hk. destruct (Z.eq_dec b 0) as [-> | Hnz]; [apply Z.bits_0 |].
  assert (0 <= n).
  { destruct (Z.lt_ge_cases n 0) as [Hneg | Hpos]; [| exact Hpos].
    rewrite Z.pow_neg_r in Hb by exact Hneg. lia. }
  apply Z.bits_above_log2; [lia |].
  assert (Z.log2 b < n) by (apply Z.log2_lt_pow2; lia). lia.
Qed.

(** Or-ing a value below bit [n] into a multiple of [2^n] adds it. *)
Lemma shifted_lor_add (a b n : Z) :
  0 <= n -> 0 <= b < 2 ^ n -> Z.lor (a * 2 ^ n) b = a * 2 ^ n + b.
Proof.
  intros Hn Hb.
  assert (Hdisj : Z.land (a * 2 ^ n) b = 0).
  { apply Z.bits_inj'. intros k Hk. rewrite Z.land_spec, Z.bits_0.
    destruct (Z.ltb_spec k n).
    - rewrite Z.mul_pow2_bits_low by lia. reflexivity.
    - rewrite (high_bits_clear b n k) by lia. apply andb_false_r. }
  now rewrite <- Z.lxor_lor, <- Z.add_nocarry_lxor.
Qed.

Lemma effective_address_low (device_select address low : Z) :
  0 <= device_select < 8 ->
  0 <= low < 2 ^ 28 ->
  Z.land address DEVICE_MASK = low ->
  effective_address device_select address = device_select * 2 ^ 29 + low.
Proof.
  intros Hsel Hlow Hland. unfold effective_address, low_address.
  rewrite shifted_selector, Hland by exact Hsel.
  apply shifted_lor_add; lia.
Qed.

(** The region tests on an address made of a selector and a low part below
    bit 28. *)
Lemma region_of_selector (device_select low : Z) :
  0 <= device_select < 8 ->
  0 <= low < 2 ^ 28 ->
  let ea := device_select * 2 ^ 29 + low in
  is_uart ea = (device_select =? 2)
  /\ is_timer ea = (device_select =? 4)
  /\ is_vga ea = false.
Proof.
  intros Hsel Hlow ea.
  assert (Hn : Z.land ea 0xF0000000 = device_select * 2 ^ 29).
  { subst ea. rewrite <- shifted_lor_add by lia.
    rewrite Z.land_lor_distr_l.
    assert (Hl : Z.land low 0xF0000000 = 0).
    { apply Z.bits_inj'. intros n Hn. rewrite Z.land_spec, Z.bits_0.
      destruct (Z.ltb_spec n 28).
      - replace (Z.testbit 0xF0000000 n) with false;
          [apply andb_false_r |].
        symmetry. change 0xF0000000 with (15 * 2 ^ 28).
        apply Z.mul_pow2_bits_low. lia.
      - now rewrite (high_bits_clear low 28 n) by lia. }
    rewrite Hl, Z.lor_0_r.
    assert (Hc : device_select = 0 \/ device_select = 1
                 \/ device_select = 2 \/ device_select = 3
                 \/ device_select = 4 \/ device_select = 5
                 \/ device_select = 6 \/ device_select = 7) by lia.
    repeat (destruct Hc as [-> | Hc]; [reflexivity |]). now subst. }
  unfold is_uart, is_timer, is_vga, UART_BASE, TIMER_BASE, VGA_BASE.
  rewrite Hn. repeat split.
  - destruct (Z.eqb_spec device_select 2),
      (Z.eqb_spec (device_select * 2 ^ 29) 0x40000000); lia || reflexivity.
  - destruct (Z.eqb_spec device_select 4),
      (Z.eqb_spec (device_select * 2 ^ 29) 0x80000000); lia || reflexivity.
  - destruct (Z.eqb_spec (device_select * 2 ^ 29) 0x30000000);
      [lia | reflexivity].
Qed.

(** X6.  Peripheral registers are reached with selector 4 (timer) or 2
    (UART) and a low address below bit 28, which is the register offset.  A
    store there hands the whole 32-bit data to the register file whatever the
    byte strobes are, and leaves the word memory and the other peripheral
    alone; a load reads the register and changes nothing.  So a store to the
    timer limit register followed by a load of it returns the stored data,
    and a store to the UART baud-rate register likewise. *)
Theorem peripheral_access_through_bus (b : Bus) (address data low : Z) :
  0 <= low < 2 ^ 28 ->
  Z.land address DEVICE_MASK = low ->
  (forall ws,
     bus_write b 4 address data ws
     = (mkBus (bus_memory b) (bus_uart b)
              (TimerMMIO.write (bus_timer b) low data), EmptyString))
  /\ (forall ws,
        bus_write b 2 address data ws
        = (mkBus (bus_memory b) (fst (UartMMIO.write (bus_uart b) low data))
                 (bus_timer b),
           snd (UartMMIO.write (bus_uart b) low data)))
  /\ bus_read b 4 address = (TimerMMIO.read (bus_timer b) low, b)
  /\ bus_read b 2 address = (UartMMIO.read (bus_uart b) low, b)
  /\ (low = 0x4 ->
      forall ws,
        fst (bus_read (fst (bus_write b 4 address data ws)) 4 address) = data
        /\ fst (bus_read (fst (bus_write b 2 address data ws)) 2 address)
           = data).
Proof.
  intros Hlow Hland.
  pose proof (effective_address_low 4 address low ltac:(lia) Hlow Hland) as E4.
  pose proof (effective_address_low 2 address low ltac:(lia) Hlow Hland) as E2.
  destruct (region_of_selector 4 low ltac:(lia) Hlow) as (U4 & T4 & V4).
  destruct (region_of_selector 2 low ltac:(lia) Hlow) as (U2 & T2 & V2).
  assert (O4 : wrap32 (4 * 2 ^ 29 + low - TIMER_BASE) = low)
    by (unfold wrap32, TIMER_BASE; rewrite Z.mod_small; lia).
  assert (O2 : wrap32 (2 * 2 ^ 29 + low - UART_BASE) = low)
    by (unfold wrap32, UART_BASE; rewrite Z.mod_small; lia).
  assert (W4 : forall ws,
             bus_write b 4 address data ws
             = (mkBus (bus_memory b) (bus_uart b)
                      (TimerMMIO.write (bus_timer b) low data), EmptyString)).
  { intros ws. unfold bus_write. rewrite E4. simpl (4 =? 0). cbv iota.
    rewrite U4, T4, O4. reflexivity. }
  assert (W2 : forall ws,
             bus_write b 2 address data ws
             = (mkBus (bus_memory b)
                      (fst (UartMMIO.write (bus_uart b) low data))
                      (bus_timer b),
                snd (UartMMIO.write (bus_uart b) low data))).
  { intros ws. unfold bus_write. rewrite E2. simpl (2 =? 0). cbv iota.
    rewrite U2, O2. simpl (2 =? 2). cbv iota.
    now destruct (UartMMIO.write (bus_uart b) low data). }
  assert (R4 : forall b', bus_read b' 4 address
                          = (TimerMMIO.read (bus_timer b') low, b')).
  { intros b'. unfold bus_read. rewrite E4. simpl (4 =? 0). cbv iota.
    rewrite U4, T4, O4. reflexivity. }
  assert (R2 : forall b', bus_read b' 2 address
                          = (UartMMIO.read (bus_uart b') low, b')).
  { intros b'. unfold bus_read. rewrite E2. simpl (2 =? 0). cbv iota.
    rewrite U2, O2. reflexivity. }
  split; [exact W4 |]. split; [exact W2 |].
  split; [apply R4 |]. split; [apply R2 |].
  intros -> ws. rewrite W4, W2, R4, R2. split; reflexivity.
Qed.

Lemma peripheral_access_through_bus_witness :
  let b := mkBus (Memory.make 4) UartMMIO.init TimerMMIO.init in
  0 <= 0x4 < 2 ^ 28
  /\ Z.land 0x80000004 DEVICE_MASK = 0x4
  /\ fst (bus_read (fst (bus_write b 4 0x80000004 1000 no_strobe))
                   4 0x80000004) = 1000.
Proof.
  intros b.
  assert (H1 : 0 <= 0x4 < 2 ^ 28) by lia.
  assert (H2 : Z.land 0x80000004 DEVICE_MASK = 0x4) by reflexivity.
  split; [exact H1 |]. split; [exact H2 |].
  destruct (peripheral_access_through_bus b 0x80000004 1000 0x4 H1 H2)
    as (_ & _ & _ & _ & Hround).
  exact (proj1 (Hround eq_refl no_strobe)).
Defined.

(** ** UART Register File: the transmit log *)

Lemma uart_write_log (u : UartMMIO.t) (offset value : Z) :
  UartMMIO.tx_log (fst (UartMMIO.write u offset value))
  = (UartMMIO.tx_log u ++ snd (UartMMIO.write u offset value))%string.
Proof.
  unfold UartMMIO.write.
  destruct (offset =? 4); [simpl; now rewrite append_empty_r |].
  destruct (offset =? 8); [simpl; now rewrite append_empty_r |].
  destruct (offset =? 16); [| simpl; now rewrite append_empty_r].
  destruct (UartMMIO.enabled u); simpl;
    [reflexivity | now rewrite append_empty_r].
Qed.

Lemma uart_write_quiet (u : UartMMIO.t) (offset value : Z) :
  UartMMIO.enabled u = false -> offset <> 0x8 \/ value = 0 ->
  UartMMIO.write u offset value
  = (UartMMIO.mk (if offset =? 0x4 then value else UartMMIO.baudrate u)
                 false (UartMMIO.last_rx u) (UartMMIO.tx_log u),
     EmptyString).
Proof.
  intros Hoff Hno. unfold UartMMIO.write.
  destruct (Z.eqb_spec offset 4) as [-> | H4]; [now rewrite Hoff |].
  destruct (Z.eqb_spec offset 8) as [-> | H8].
  - destruct Hno as [Hno | ->]; [lia |]. simpl. destruct u; simpl in *.
    now subst.
  - destruct (offset =? 16); rewrite ?Hoff; destruct u; simpl in *;
      now subst.
Qed.

(** X7.  Over any run of register writes the transmit log grows by exactly
    the text sent to the console, so the log always mirrors the console; and
    a UART whose enable flag is clear prints nothing and logs nothing as long
    as no nonzero value is written to the enable offset 0x8. *)
Theorem uart_log_mirrors_console (u : UartMMIO.t) (ws : list (Z * Z)) :
  UartMMIO.tx_log (fst (UartMMIO.writes u ws))
  = (UartMMIO.tx_log u ++ snd (UartMMIO.writes u ws))%string
  /\ (UartMMIO.enabled u = false ->
      Forall (fun w => fst w <> 0x8 \/ snd w = 0) ws ->
      snd (UartMMIO.writes u ws) = EmptyString
      /\ UartMMIO.tx_log (fst (UartMMIO.writes u ws)) = UartMMIO.tx_log u
      /\ UartMMIO.enabled (fst (UartMMIO.writes u ws)) = false).
Proof.
  split.
  - revert u. induction ws as [| [offset value] rest IH]; intros u.
    + simpl. now rewrite append_empty_r.
    + simpl. pose proof (uart_write_log u offset value) as Hw.
      destruct (UartMMIO.write u offset value) as [u1 o1]. simpl in Hw.
      specialize (IH u1). destruct (UartMMIO.writes u1 rest) as [u2 o2].
      simpl in *. now rewrite IH, Hw, append_assoc.
  - revert u. induction ws as [| [offset value] rest IH]; intros u Hoff Hall.
    + now repeat split.
    + apply Forall_cons in Hall. destruct Hall as [Hhead Hrest].
      simpl in Hhead. simpl.
      rewrite (uart_write_quiet u offset value Hoff Hhead).
      specialize (IH (UartMMIO.mk
                        (if offset =? 0x4 then value else UartMMIO.baudrate u)
                        false (UartMMIO.last_rx u) (UartMMIO.tx_log u))
                    eq_refl Hrest). simpl in IH.
      destruct (UartMMIO.writes _ rest) as [u2 o2]. simpl in *.
      destruct IH as (-> & -> & ->). now repeat split.
Qed.

Lemma uart_log_mirrors_console_witness :
  UartMMIO.enabled UartMMIO.init = false
  /\ Forall (fun w => fst w <> 0x8 \/ snd w = 0)
            [(0x10, 0x41); (0x8, 0); (0x4, 9600); (0x10, 0x42)]
  /\ snd (UartMMIO.writes UartMMIO.init
            [(0x10, 0x41); (0x8, 0); (0x4, 9600); (0x10, 0x42)])
     = EmptyString.
Proof.
  assert (H : Forall (fun w : Z * Z => fst w <> 0x8 \/ snd w = 0)
                [(0x10, 0x41); (0x8, 0); (0x4, 9600); (0x10, 0x42)]).
  { repeat constructor; simpl; lia. }
  split; [reflexivity |]. split; [exact H |].
  exact (proj1 (proj2 (uart_log_mirrors_console UartMMIO.init _) eq_refl H)).
Defined.

(** ** Frame Compositor: the frame between sync edges *)

(** Four bytes stored in a row, read back at any index. *)
Lemma store4_lookup (l : list Z) (i : nat) (a b c d : Z) (j : nat) :
  (i + 3 < length l)%nat ->
  <[(i + 3)%nat := d]> (<[(i + 2)%nat := c]> (<[(i + 1)%nat := b]>
                                                (<[i := a]> l))) !! j
  = if decide (j = i) then Some a
    else if decide (j = i + 1)%nat then Some b
    else if decide (j = i + 2)%nat then Some c
    else if decide (j = i + 3)%nat then Some d
    else l !! j.
Proof.
  intros Hin.
  repeat case_decide; subst;
    rewrite ?list_lookup_insert_ne by lia;
    try (apply list_lookup_insert_eq; rewrite ?length_insert; lia);
    reflexivity.
Qed.

Lemma update_pixel_length (d : VGADisplay.t) (rrggbb activevideo x y : Z) :
  length (VGADisplay.framebuffer
            (VGADisplay.update_pixel d rrggbb activevideo x y))
  = length (VGADisplay.framebuffer d).
Proof.
  unfold VGADisplay.update_pixel.
  destruct (_ && _); [| reflexivity]. simpl. now rewrite !length_insert.
Qed.

(** The frame after an update that takes effect, byte by byte. *)
Lemma update_pixel_lookup (d : VGADisplay.t) (rrggbb activevideo x y : Z)
    (j : nat) :
  length (VGADisplay.framebuffer d)
  = Z.to_nat (VGADisplay.H_RES * VGADisplay.V_RES * 4) ->
  activevideo <> 0 -> 0 <= x < VGADisplay.H_RES -> 0 <= y < VGADisplay.V_RES ->
  let i := Z.to_nat ((y * VGADisplay.H_RES + x) * 4) in
  VGADisplay.framebuffer (VGADisplay.update_pixel d rrggbb activevideo x y)
    !! j
  = if decide (j = i)
    then Some (VGADisplay.vga2bit_to_8bit (Z.land rrggbb 3))
    else if decide (j = i + 1)%nat
    then Some (VGADisplay.vga2bit_to_8bit (Z.land (Z.shiftr rrggbb 2) 3))
    else if decide (j = i + 2)%nat
    then Some (VGADisplay.vga2bit_to_8bit (Z.land (Z.shiftr rrggbb 4) 3))
    else if decide (j = i + 3)%nat then Some 255
    else VGADisplay.framebuffer d !! j.
Proof.
  intros Hlen Ha Hx Hy i.
  destruct (pixel_index_bound x y Hx Hy) as [Hlo Hhi].
  unfold VGADisplay.update_pixel.
  destruct (Z.eqb_spec activevideo 0); [lia |].
  destruct (Z.ltb_spec x VGADisplay.H_RES); [| lia].
  destruct (Z.ltb_spec y VGADisplay.V_RES); [| lia].
  simpl negb. cbv [andb]. cbv zeta. simpl VGADisplay.framebuffer.
  replace (Z.to_nat ((y * VGADisplay.H_RES + x) * 4 + 1))
    with (i + 1)%nat by (subst i; lia).
  replace (Z.to_nat ((y * VGADisplay.H_RES + x) * 4 + 2))
    with (i + 2)%nat by (subst i; lia).
  replace (Z.to_nat ((y * VGADisplay.H_RES + x) * 4 + 3))
    with (i + 3)%nat by (subst i; lia).
  fold i. apply store4_lookup. subst i. lia.
Qed.

Lemma update_pixel_rest (d : VGADisplay.t) (rrggbb activevideo x y : Z) :
  VGADisplay.prev_vsync (VGADisplay.update_pixel d rrggbb activevideo x y)
  = VGADisplay.prev_vsync d
  /\ VGADisplay.should_quit (VGADisplay.update_pixel d rrggbb activevideo x y)
     = VGADisplay.should_quit d
  /\ VGADisplay.presented (VGADisplay.update_pixel d rrggbb activevideo x y)
     = VGADisplay.presented d
  /\ VGADisplay.sdl_quit (VGADisplay.update_pixel d rrggbb activevideo x y)
     = VGADisplay.sdl_quit d.
Proof.
  unfold VGADisplay.update_pixel. destruct (_ && _); now repeat split.
Qed.

Lemma display_eq (d1 d2 : VGADisplay.t) :
  VGADisplay.framebuffer d1 = VGADisplay.framebuffer d2 ->
  VGADisplay.prev_vsync d1 = VGADisplay.prev_vsync d2 ->
  VGADisplay.should_quit d1 = VGADisplay.should_quit d2 ->
  VGADisplay.presented d1 = VGADisplay.presented d2 ->
  VGADisplay.sdl_quit d1 = VGADisplay.sdl_quit d2 ->
  d1 = d2.
Proof. destruct d1, d2. simpl. intros. now subst. Qed.

Lemma update_pixel_skip (d : VGADisplay.t) (rrggbb activevideo x y : Z) :
  activevideo = 0 \/ VGADisplay.H_RES <= x \/ VGADisplay.V_RES <= y ->
  VGADisplay.update_pixel d rrggbb activevideo x y = d.
Proof.
  intros Hout. unfold VGADisplay.update_pixel.
  destruct (Z.eqb_spec activevideo 0); [reflexivity |].
  destruct (Z.ltb_spec x VGADisplay.H_RES); [| reflexivity].
  destruct (Z.ltb_spec y VGADisplay.V_RES); [lia | reflexivity].
Qed.

(** X8.  Pixel updates compose as on a frame buffer that is never cleared:
    a second update of the same position with active video asserted replaces
    the first one, and updates of two different positions give the same
    display in either order. *)
Theorem update_pixel_composes (d : VGADisplay.t)
    (c1 a1 c2 a2 x1 y1 x2 y2 : Z) :
  length (VGADisplay.framebuffer d)
  = Z.to_nat (VGADisplay.H_RES * VGADisplay.V_RES * 4) ->
  0 <= x1 -> 0 <= y1 -> 0 <= x2 -> 0 <= y2 ->
  (a2 <> 0 ->
   VGADisplay.update_pixel (VGADisplay.update_pixel d c1 a1 x1 y1) c2 a2 x1 y1
   = VGADisplay.update_pixel d c2 a2 x1 y1)
  /\ (x1 <> x2 \/ y1 <> y2 ->
      VGADisplay.update_pixel (VGADisplay.update_pixel d c1 a1 x1 y1)
                              c2 a2 x2 y2
      = VGADisplay.update_pixel (VGADisplay.update_pixel d c2 a2 x2 y2)
                                c1 a1 x1 y1).
Proof.
  intros Hlen Hx1 Hy1 Hx2 Hy2.
  assert (Hskip1 : a1 = 0 \/ VGADisplay.H_RES <= x1 \/ VGADisplay.V_RES <= y1
                   \/ (a1 <> 0 /\ x1 < VGADisplay.H_RES
                       /\ y1 < VGADisplay.V_RES)) by lia.
  assert (Hskip2 : a2 = 0 \/ VGADisplay.H_RES <= x2 \/ VGADisplay.V_RES <= y2
                   \/ (a2 <> 0 /\ x2 < VGADisplay.H_RES
                       /\ y2 < VGADisplay.V_RES)) by lia.
  split.
  - intros Ha2.
    destruct (Z.lt_ge_cases x1 VGADisplay.H_RES) as [Hx |];
      [| rewrite !(update_pixel_skip _ _ _ x1 y1) by lia; reflexivity].
    destruct (Z.lt_ge_cases y1 VGADisplay.V_RES) as [Hy |];
      [| rewrite !(update_pixel_skip _ _ _ x1 y1) by lia; reflexivity].
    destruct (Z.eq_dec a1 0) as [-> | Ha1];
      [rewrite (update_pixel_skip d c1 0 x1 y1) by lia; reflexivity |].
    destruct (update_pixel_rest (VGADisplay.update_pixel d c1 a1 x1 y1)
                c2 a2 x1 y1) as (P1 & P2 & P3 & P4).
    destruct (update_pixel_rest d c1 a1 x1 y1) as (Q1 & Q2 & Q3 & Q4).
    destruct (update_pixel_rest d c2 a2 x1 y1) as (R1 & R2 & R3 & R4).
    apply display_eq; try congruence.
    apply list_eq. intros j.
    rewrite !update_pixel_lookup
      by (rewrite ?update_pixel_length; assumption || lia).
    cbv zeta. repeat case_decide; reflexivity.
  - intros Hne.
    destruct Hskip1 as [-> | [H | [H | (Ha1 & Hx1' & Hy1')]]];
      try (rewrite !(update_pixel_skip _ c1 _ x1 y1) by lia; reflexivity).
    destruct Hskip2 as [-> | [H | [H | (Ha2 & Hx2' & Hy2')]]];
      try (rewrite !(update_pixel_skip _ c2 _ x2 y2) by lia; reflexivity).
    destruct (update_pixel_rest (VGADisplay.update_pixel d c1 a1 x1 y1)
                c2 a2 x2 y2) as (P1 & P2 & P3 & P4).
    destruct (update_pixel_rest (VGADisplay.update_pixel d c2 a2 x2 y2)
                c1 a1 x1 y1) as (S1 & S2 & S3 & S4).
    destruct (update_pixel_rest d c1 a1 x1 y1) as (Q1 & Q2 & Q3 & Q4).
    destruct (update_pixel_rest d c2 a2 x2 y2) as (R1 & R2 & R3 & R4).
    apply display_eq; try congruence.
    apply list_eq. intros j.
    rewrite !update_pixel_lookup
      by (rewrite ?update_pixel_length; assumption || lia).
    cbv zeta.
    unfold VGADisplay.H_RES, VGADisplay.V_RES in *.
    assert (Hidx : y1 * 640 + x1 <> y2 * 640 + x2) by lia.
    repeat case_decide; try reflexivity; exfalso; lia.
Qed.

Lemma update_pixel_composes_witness :
  let d := VGADisplay.make (fun _ => false) in
  length (VGADisplay.framebuffer d)
  = Z.to_nat (VGADisplay.H_RES * VGADisplay.V_RES * 4)
  /\ 1 <> 0
  /\ VGADisplay.update_pixel (VGADisplay.update_pixel d 0x3F 1 10 20)
                             0x15 1 10 20
     = VGADisplay.update_pixel d 0x15 1 10 20.
Proof.
  intros d.
  assert (Hlen : length (VGADisplay.framebuffer d)
                 = Z.to_nat (VGADisplay.H_RES * VGADisplay.V_RES * 4))
    by apply length_replicate.
  split; [exact Hlen |]. split; [lia |].
  apply (proj1 (update_pixel_composes d 0x3F 1 0x15 1 10 20 10 20 Hlen
                  ltac:(lia) ltac:(lia) ltac:(lia) ltac:(lia))).
  lia.
Defined.

Lemma replicate_shift {A : Type} (n : nat) (a : A) (l : list A) :
  replicate n a ++ a :: l = a :: replicate n a ++ l.
Proof.
  induction n as [| n IH]; [reflexivity |]. simpl. now rewrite IH.
Qed.

Lemma check_vsync_step (d : VGADisplay.t) (v : bool) :
  VGADisplay.framebuffer (VGADisplay.check_vsync d v)
  = VGADisplay.framebuffer d
  /\ VGADisplay.prev_vsync (VGADisplay.check_vsync d v) = v
  /\ VGADisplay.sdl_quit (VGADisplay.check_vsync d v) = VGADisplay.sdl_quit d
  /\ VGADisplay.should_quit (VGADisplay.check_vsync d v)
     = (VGADisplay.should_quit d
        || (VGADisplay.prev_vsync d && negb v)
           && VGADisplay.sdl_quit d (length (VGADisplay.presented d))).
Proof.
  unfold VGADisplay.check_vsync.
  destruct v, (VGADisplay.prev_vsync d); simpl;
    rewrite ?orb_false_r; now repeat split.
Qed.

(** X9.  Vsync checks never touch the frame under construction: after any
    sequence of samples the frame is the same, the display sink has received
    one copy of it per falling edge on top of what it had, the frame keeps its
    size through later pixel updates, and the quit flag is set exactly when it
    was set before or one of the event polls made by these hand-offs found a
    quit event, so it is never cleared. *)
Theorem vsync_keeps_frame_and_quit (d : VGADisplay.t) (samples : list bool) :
  let d' := VGADisplay.feed_vsync d samples in
  let edges := VGADisplay.falling_edges (VGADisplay.prev_vsync d) samples in
  VGADisplay.framebuffer d' = VGADisplay.framebuffer d
  /\ VGADisplay.presented d'
     = replicate edges (VGADisplay.framebuffer d) ++ VGADisplay.presented d
  /\ VGADisplay.should_quit d'
     = (VGADisplay.should_quit d
        || existsb (VGADisplay.sdl_quit d)
                   (seq (length (VGADisplay.presented d)) edges))
  /\ (forall rrggbb activevideo x y,
        length (VGADisplay.framebuffer
                  (VGADisplay.update_pixel d' rrggbb activevideo x y))
        = length (VGADisplay.framebuffer d)).
Proof.
  cbv zeta.
  assert (H : VGADisplay.framebuffer (VGADisplay.feed_vsync d samples)
              = VGADisplay.framebuffer d
              /\ VGADisplay.presented (VGADisplay.feed_vsync d samples)
                 = replicate
                     (VGADisplay.falling_edges (VGADisplay.prev_vsync d)
                        samples)
                     (VGADisplay.framebuffer d) ++ VGADisplay.presented d
              /\ VGADisplay.should_quit (VGADisplay.feed_vsync d samples)
                 = (VGADisplay.should_quit d
                    || existsb (VGADisplay.sdl_quit d)
                         (seq (length (VGADisplay.presented d))
                            (VGADisplay.falling_edges
                               (VGADisplay.prev_vsync d) samples)))).
  { revert d. induction samples as [| v rest IH]; intros d.
    - simpl. now rewrite orb_false_r.
    - unfold VGADisplay.feed_vsync in *. simpl fold_left.
      destruct (IH (VGADisplay.check_vsync d v)) as (Hfb & Hpres & Hquit).
      destruct (check_vsync_step d v) as (Sfb & Sprev & Ssdl & Squit).
      rewrite Hfb, Hpres, Hquit, Sfb, Sprev, Ssdl, Squit.
      rewrite check_vsync_presented. simpl VGADisplay.falling_edges.
      destruct (VGADisplay.prev_vsync d && negb v); simpl.
      + split; [reflexivity |]. split.
        * apply replicate_shift.
        * now rewrite orb_assoc.
      + split; [reflexivity |]. split; [reflexivity |].
        now rewrite orb_false_r. }
  destruct H as (Hfb & Hpres & Hquit).
  split; [exact Hfb |]. split; [exact Hpres |]. split; [exact Hquit |].
  intros. now rewrite update_pixel_length, Hfb.
Qed.

(** ** Simulation Clock Driver: what a run keeps *)

Section ClockDriverFacts.

Context {Core : Type}.
Variable eval : Core -> Inputs -> Core * Outputs.
Variable gotFinish : Core -> bool.
Variable ENABLE_SDL2 : bool.

Local Abbreviation tick_inputs := (Simulator.tick_inputs ENABLE_SDL2).
Local Abbreviation tick_outputs := (Simulator.tick_outputs eval ENABLE_SDL2).
Local Abbreviation tick_dispatch := (Simulator.tick_dispatch eval ENABLE_SDL2).
Local Abbreviation tick_display := (Simulator.tick_display ENABLE_SDL2).
Local Abbreviation quit_requested := (Simulator.quit_requested ENABLE_SDL2).
Local Abbreviation tick_check := (Simulator.tick_check ENABLE_SDL2).
Local Abbreviation tick := (Simulator.tick eval ENABLE_SDL2).
Local Abbreviation running := (Simulator.running gotFinish).
Local Abbreviation loop := (Simulator.loop eval gotFinish ENABLE_SDL2).
Local Abbreviation start := (Simulator.start eval ENABLE_SDL2).
Local Abbreviation finish := (Simulator.finish ENABLE_SDL2).
Local Abbreviation run := (Simulator.run eval gotFinish ENABLE_SDL2).
Local Abbreviation ticks := (Simulator.ticks eval ENABLE_SDL2).

Lemma bus_eta (b : Bus) : mkBus (bus_memory b) (bus_uart b) (bus_timer b) = b.
Proof. now destruct b. Qed.

(** The fields the dispatch half of a tick sets. *)
Lemma tick_dispatch_state (s : Simulator.t Core) :
  let i := tick_inputs s in
  let c := wrap32 (Simulator.counter s + 1) in
  Simulator.top_in (tick_dispatch s)
  = mkInputs (reset i) (clock i) (io_instruction_valid i)
             (io_memory_bundle_read_data i) (io_instruction i) 0
             (io_vga_pixclk i)
  /\ Simulator.counter (tick_dispatch s)
     = (if c >? Simulator.clocktime s then 0 else c)
  /\ Simulator.clocktime (tick_dispatch s) = Simulator.clocktime s
  /\ Simulator.vcd_tracer (tick_dispatch s)
     = Simulator.dump (Simulator.vcd_tracer s)
         (wrap64 (Simulator.main_time s + 1))
         (Simulator.top_in (tick_dispatch s)) (tick_outputs s)
  /\ (pin (io_memory_bundle_write_enable (tick_outputs s)) = false ->
      Simulator.bus (tick_dispatch s) = Simulator.bus s)
  /\ Simulator.bus (tick_dispatch s)
     = (if pin (io_memory_bundle_write_enable (tick_outputs s))
        then fst (bus_write (Simulator.bus s)
                    (io_deviceSelect (tick_outputs s))
                    (io_memory_bundle_address (tick_outputs s))
                    (io_memory_bundle_write_data (tick_outputs s))
                    (Simulator.strobes_of (tick_outputs s)))
        else Simulator.bus s).
Proof.
  cbv zeta. unfold Simulator.tick_dispatch, Simulator.tick_outputs.
  destruct (eval (Simulator.top_core s) (tick_inputs s)) as [core outs].
  simpl snd.
  destruct (pin (io_memory_bundle_write_enable outs)) eqn:Hwe.
  - destruct (bus_write _ _ _ _ _) as [b uart_out]. simpl fst.
    pose proof (bus_read_bus b (io_deviceSelect outs)
                  (io_memory_bundle_address outs)) as Hb.
    destruct (bus_read b _ _) as [data b']. simpl in Hb. subst b'.
    pose proof (readInst_memory (bus_memory b)
                  (io_instruction_address outs)) as Hm.
    destruct (Memory.readInst _ _) as [[inst m] diagnostic]. simpl in Hm.
    subst m. simpl. rewrite bus_eta. repeat split. discriminate.
  - pose proof (bus_read_bus (Simulator.bus s) (io_deviceSelect outs)
                  (io_memory_bundle_address outs)) as Hb.
    destruct (bus_read (Simulator.bus s) _ _) as [data b']. simpl in Hb.
    subst b'.
    pose proof (readInst_memory (bus_memory (Simulator.bus s))
                  (io_instruction_address outs)) as Hm.
    destruct (Memory.readInst _ _) as [[inst m] diagnostic]. simpl in Hm.
    subst m. simpl. rewrite bus_eta. now repeat split.
Qed.

Lemma set_memory_same (s : Simulator.t Core) :
  Simulator.set_memory s (Simulator.memory s) = s.
Proof.
  unfold Simulator.set_memory, Simulator.memory. rewrite bus_eta.
  now destruct s.
Qed.

(** The second half of a tick changes the display and the console only. *)
Lemma tick_check_keeps (s : Simulator.t Core) :
  Simulator.top_in (snd (tick_check s)) = Simulator.top_in s
  /\ Simulator.counter (snd (tick_check s)) = Simulator.counter s
  /\ Simulator.clocktime (snd (tick_check s)) = Simulator.clocktime s
  /\ Simulator.vcd_tracer (snd (tick_check s)) = Simulator.vcd_tracer s
  /\ Simulator.bus (snd (tick_check s)) = Simulator.bus s
  /\ Simulator.halt_address (snd (tick_check s)) = Simulator.halt_address s
  /\ quit_requested (snd (tick_check s)) = quit_requested (tick_display s).
Proof.
  assert (Hv : Simulator.top_in (tick_display s) = Simulator.top_in s
               /\ Simulator.counter (tick_display s) = Simulator.counter s
               /\ Simulator.clocktime (tick_display s) = Simulator.clocktime s
               /\ Simulator.vcd_tracer (tick_display s)
                  = Simulator.vcd_tracer s
               /\ Simulator.bus (tick_display s) = Simulator.bus s
               /\ Simulator.halt_address (tick_display s)
                  = Simulator.halt_address s).
  { unfold Simulator.tick_display. destruct ENABLE_SDL2; [| now repeat split].
    destruct (Simulator.vga_display s); now repeat split. }
  destruct Hv as (<- & <- & <- & <- & <- & <-).
  unfold Simulator.tick_check.
  generalize (tick_display s). clear s. intros s.
  destruct (quit_requested s) eqn:Hq; [now repeat split |].
  destruct (negb (Simulator.halt_address s =? 0)).
  - pose proof (read_memory (Simulator.memory s) (Simulator.halt_address s))
      as Hm.
    destruct (Memory.read _ _) as [w m]. simpl in Hm. subst m.
    rewrite set_memory_same.
    destruct (w =? HALT_SENTINEL); [now repeat split |].
    destruct (progress_period _ =? 0); [now repeat split |].
    destruct (_ mod _ =? 0); now repeat split.
  - destruct (progress_period _ =? 0); [now repeat split |].
    destruct (_ mod _ =? 0); now repeat split.
Qed.

(** An invariant of the ticks is an invariant of the loop. *)
Lemma loop_invariant (P : Simulator.t Core -> Prop) :
  (forall s, running s = true -> P s -> P (snd (tick s))) ->
  forall (fuel : nat) (s f : Simulator.t Core),
    P s ->
    loop fuel s = Simulator.Done f \/ loop fuel s = Simulator.Undefined f ->
    P f.
Proof.
  intros Hstep. induction fuel as [| fuel IH]; intros s f Hs Hend.
  - simpl in Hend. destruct (running s); destruct Hend as [E | E];
      try discriminate E. now injection E as <-.
  - cbn [Simulator.loop] in Hend. destruct (running s) eqn:Hrun.
    + specialize (Hstep s Hrun Hs). destruct (tick s) as [[] s1];
        simpl in Hstep.
      * now apply (IH s1).
      * destruct Hend as [E | E]; try discriminate E. now injection E as <-.
      * destruct Hend as [E | E]; try discriminate E. now injection E as <-.
    + destruct Hend as [E | E]; try discriminate E. now injection E as <-.
Qed.

Lemma tick_clock (s : Simulator.t Core) :
  let i := tick_inputs s in
  let c := wrap32 (Simulator.counter s + 1) in
  Simulator.top_in (snd (tick s))
  = mkInputs (reset i) (clock i) (io_instruction_valid i)
             (io_memory_bundle_read_data i) (io_instruction i) 0
             (io_vga_pixclk i)
  /\ Simulator.counter (snd (tick s))
     = (if c >? Simulator.clocktime s then 0 else c)
  /\ Simulator.clocktime (snd (tick s)) = Simulator.clocktime s
  /\ Simulator.vcd_tracer (snd (tick s))
     = Simulator.dump (Simulator.vcd_tracer s)
         (wrap64 (Simulator.main_time s + 1))
         (Simulator.top_in (snd (tick s))) (tick_outputs s).
Proof.
  cbv zeta. unfold Simulator.tick.
  destruct (tick_check_keeps (tick_dispatch s)) as (-> & -> & -> & -> & _).
  destruct (tick_dispatch_state s) as (Hin & Hc & Hct & Hv & _).
  now repeat split.
Qed.

Lemma tick_phase (n : Z) (s : Simulator.t Core) :
  0 <= n < 2 ^ 64 - 1 -> clock_phase n s -> clock_phase (n + 1) (snd (tick s)).
Proof.
  intros Hn (Ht & Hc & Hct & Hclk & Hrst & Hval & Hint).
  destruct (tick_fields eval ENABLE_SDL2 s) as (_ & Ht' & _).
  destruct (tick_clock s) as (Hin & Hc' & Hct' & _).
  unfold clock_phase. rewrite Ht', Hin, Hc', Hct'. cbn [reset clock
    io_instruction_valid io_interrupt_flag]. unfold Simulator.tick_inputs.
  cbn [reset clock io_instruction_valid]. rewrite Ht, Hc, Hct, Hclk, Hrst, Hval.
  assert (Hw64 : wrap64 (n + 1) = n + 1)
    by (unfold wrap64; apply Z.mod_small; lia).
  assert (Hm : n mod 2 = 0 \/ n mod 2 = 1)
    by (pose proof (Z.mod_pos_bound n 2); lia).
  assert (Hw32 : wrap32 (n mod 2 + 1) = n mod 2 + 1)
    by (unfold wrap32; apply Z.mod_small; lia).
  rewrite Hw64, Hw32.
  assert (Hq : (n / 2) mod 2 = 0 \/ (n / 2) mod 2 = 1)
    by (pose proof (Z.mod_pos_bound (n / 2) 2); lia).
  repeat split.
  - destruct (Z.gtb_spec (n mod 2 + 1) 1);
      Z.div_mod_to_equations; lia.
  - destruct (Z.gtb_spec (n mod 2 + 1) 1).
    + destruct (Z.eqb_spec ((n / 2) mod 2) 0);
        Z.div_mod_to_equations; lia.
    + Z.div_mod_to_equations; lia.
  - destruct (Z.gtb_spec (n + 1) 2), (Z.gtb_spec n 2); lia.
Qed.

Lemma start_phase (s0 : Simulator.t Core) :
  Simulator.main_time s0 = 0 -> clock_phase 0 (start s0).
Proof.
  intros H0. unfold Simulator.start.
  destruct (eval _ _) as [core outs]. unfold clock_phase. simpl.
  repeat split; try assumption. lia.
Qed.

Lemma ticks_phase (k : nat) (n : Z) (s : Simulator.t Core) :
  0 <= n -> n + Z.of_nat k < 2 ^ 64 ->
  clock_phase n s -> clock_phase (n + Z.of_nat k) (ticks k s).
Proof.
  revert n s. induction k as [| k IH]; intros n s Hn Hk Hp.
  - simpl. now rewrite Z.add_0_r.
  - cbn [Simulator.ticks].
    replace (n + Z.of_nat (S k)) with (n + 1 + Z.of_nat k) by lia.
    apply IH; [lia | lia |]. apply tick_phase; [lia | exact Hp].
Qed.

(** X10.  In a run that starts at tick 0 the pins the driver feeds the core
    follow a fixed schedule: the evaluation of tick [k + 1] sees reset
    asserted exactly in ticks 1 and 2, a clock that toggles every second tick
    (low in tick 1, high in ticks 2 and 3, low in ticks 4 and 5, ...), the
    instruction-valid pin at 1, the pixel clock equal to the clock when the
    display is compiled in, and, from the second tick on, the interrupt flag
    at 0. *)
Theorem clock_and_reset_schedule (s0 : Simulator.t Core) (k : nat) :
  Simulator.main_time s0 = 0 ->
  Z.of_nat k + 1 < 2 ^ 64 ->
  let s := ticks k (start s0) in
  let i := tick_inputs s in
  Simulator.main_time s = Z.of_nat k
  /\ reset i = (if Z.of_nat k + 1 >? 2 then 0 else 1)
  /\ clock i = ((Z.of_nat k + 1) / 2) mod 2
  /\ io_instruction_valid i = 1
  /\ (ENABLE_SDL2 = true -> io_vga_pixclk i = clock i)
  /\ ((1 <= k)%nat -> io_interrupt_flag i = 0).
Proof.
  intros H0 Hk s i.
  pose proof (ticks_phase k 0 (start s0) ltac:(lia) ltac:(lia)
                (start_phase s0 H0)) as Hp.
  rewrite Z.add_0_l in Hp. fold s in Hp.
  destruct Hp as (Ht & Hc & Hct & Hclk & Hrst & Hval & Hint).
  subst i. unfold Simulator.tick_inputs.
  cbn [reset clock io_instruction_valid io_interrupt_flag io_vga_pixclk].
  rewrite Ht, Hc, Hct, Hclk, Hrst, Hval.
  assert (Hw64 : wrap64 (Z.of_nat k + 1) = Z.of_nat k + 1)
    by (unfold wrap64; apply Z.mod_small; lia).
  assert (Hm : Z.of_nat k mod 2 = 0 \/ Z.of_nat k mod 2 = 1)
    by (pose proof (Z.mod_pos_bound (Z.of_nat k) 2); lia).
  assert (Hw32 : wrap32 (Z.of_nat k mod 2 + 1) = Z.of_nat k mod 2 + 1)
    by (unfold wrap32; apply Z.mod_small; lia).
  rewrite Hw64, Hw32.
  assert (Hq : (Z.of_nat k / 2) mod 2 = 0 \/ (Z.of_nat k / 2) mod 2 = 1)
    by (pose proof (Z.mod_pos_bound (Z.of_nat k / 2) 2); lia).
  split; [reflexivity |]. split.
  { destruct (Z.gtb_spec (Z.of_nat k + 1) 2), (Z.gtb_spec (Z.of_nat k) 2);
      lia. }
  split.
  { destruct (Z.gtb_spec (Z.of_nat k mod 2 + 1) 1).
    - destruct (Z.eqb_spec ((Z.of_nat k / 2) mod 2) 0);
        Z.div_mod_to_equations; lia.
    - Z.div_mod_to_equations; lia. }
  split; [reflexivity |]. split.
  - intros ->. reflexivity.
  - intros Hk1. apply Hint. lia.
Qed.

(** The loop runs some number of ticks, one after the other. *)
Lemma loop_is_ticks (fuel : nat) (s f : Simulator.t Core) :
  loop fuel s = Simulator.Done f \/ loop fuel s = Simulator.Undefined f ->
  exists j, (j <= fuel)%nat /\ f = ticks j s.
Proof.
  revert s. induction fuel as [| fuel IH]; intros s Hend.
  - exists 0%nat. split; [lia |]. simpl in Hend.
    destruct (running s); destruct Hend as [E | E]; try discriminate E.
    now injection E as <-.
  - cbn [Simulator.loop] in Hend. destruct (running s).
    + destruct (tick s) as [c s1] eqn:Etick.
      assert (Hs1 : s1 = snd (tick s)) by now rewrite Etick.
      destruct c.
      * destruct (IH s1 Hend) as (j & Hj & ->). exists (S j).
        split; [lia |]. cbn [Simulator.ticks]. now rewrite <- Hs1.
      * exists 1%nat. split; [lia |].
        destruct Hend as [E | E]; try discriminate E.
        injection E as <-. cbn [Simulator.ticks]. now rewrite <- Hs1.
      * exists 1%nat. split; [lia |].
        destruct Hend as [E | E]; try discriminate E.
        injection E as <-. cbn [Simulator.ticks]. now rewrite <- Hs1.
    + exists 0%nat. split; [lia |].
      destruct Hend as [E | E]; try discriminate E. now injection E as <-.
Qed.

Lemma ticks_main_time (k : nat) (s : Simulator.t Core) :
  0 <= Simulator.main_time s ->
  Simulator.main_time s + Z.of_nat k < 2 ^ 64 ->
  Simulator.main_time (ticks k s) = Simulator.main_time s + Z.of_nat k.
Proof.
  revert s. induction k as [| k IH]; intros s Ht Hk; [simpl; lia |].
  cbn [Simulator.ticks].
  destruct (tick_fields eval ENABLE_SDL2 s) as (_ & Ht' & _).
  unfold wrap64 in Ht'. rewrite Z.mod_small in Ht' by lia.
  rewrite IH; lia.
Qed.

Lemma ticks_trace (k : nat) (s : Simulator.t Core) :
  0 <= Simulator.main_time s ->
  Simulator.main_time s + Z.of_nat k < 2 ^ 64 ->
  (Simulator.vcd_tracer s = None -> Simulator.vcd_tracer (ticks k s) = None)
  /\ (forall tr,
        Simulator.vcd_tracer s = Some tr ->
        exists new,
          Simulator.vcd_tracer (ticks k s) = Some (tr ++ new)
          /\ sample_times new
             = map (fun j => Simulator.main_time s + 1 + Z.of_nat j)
                   (seq 0 k)).
Proof.
  revert s. induction k as [| k IH]; intros s Ht Hk.
  - split; [trivial |]. intros tr Htr. exists []. now rewrite app_nil_r.
  - cbn [Simulator.ticks].
    destruct (tick_fields eval ENABLE_SDL2 s) as (_ & Ht' & _).
    unfold wrap64 in Ht'. rewrite Z.mod_small in Ht' by lia.
    destruct (tick_clock s) as (_ & _ & _ & Hv).
    unfold wrap64 in Hv. rewrite Z.mod_small in Hv by lia.
    destruct (IH (snd (tick s)) ltac:(lia) ltac:(lia)) as [IHnone IHsome].
    split.
    + intros Hnone. apply IHnone. now rewrite Hv, Hnone.
    + intros tr Htr. rewrite Htr in Hv. simpl in Hv.
      destruct (IHsome _ Hv) as (new & Hnew & Htimes).
      eexists (_ :: new). split.
      * rewrite Hnew, <- app_assoc. reflexivity.
      * unfold sample_times in *. cbn [map fst]. rewrite Htimes, Ht'.
        rewrite <- cons_seq, <- seq_shift. cbn [map]. rewrite map_map.
        f_equal; [lia |]. apply map_ext. intros j. lia.
Qed.

(** The statements after the loop end and keep everything but the signature
    file and the display. *)
Lemma finish_fields (s : Simulator.t Core) :
  0 <= Simulator.signature_begin s ->
  Simulator.signature_end s < 2 ^ 32 ->
  exists final,
    finish s = Simulator.Done final
    /\ Simulator.top_core final = Simulator.top_core s
    /\ Simulator.main_time final = Simulator.main_time s
    /\ Simulator.max_sim_time final = Simulator.max_sim_time s
    /\ Simulator.halt_address final = Simulator.halt_address s
    /\ Simulator.bus final = Simulator.bus s
    /\ Simulator.vcd_tracer final = Simulator.vcd_tracer s
    /\ Simulator.stdout final = Simulator.stdout s
    /\ (quit_requested s = true -> quit_requested final = true).
Proof.
  intros Hb He.
  assert (Hrender : forall s1 : Simulator.t Core,
             quit_requested s1 = true ->
             quit_requested
               (if ENABLE_SDL2
                then Simulator.set_vga_display s1
                       (VGADisplay.render <$> Simulator.vga_display s1)
                else s1) = true).
  { intros s1. unfold Simulator.quit_requested.
    destruct ENABLE_SDL2; [| trivial]. simpl.
    destruct (Simulator.vga_display s1); [| trivial]. simpl.
    unfold VGADisplay.quit_requested. simpl. now intros ->. }
  unfold Simulator.finish, write_signature, signature_fuel.
  destruct (Simulator.dump_signature s).
  - destruct (signature_loop_terminates (Simulator.memory s)
                (Simulator.signature_end s)
                (Z.to_nat ((Simulator.signature_end s
                            - Simulator.signature_begin s + 3) / 4))
                He (Simulator.signature_begin s) EmptyString Hb
                ltac:(lia)) as [text ->].
    rewrite set_memory_same. eexists. split; [reflexivity |].
    repeat split; try (now destruct ENABLE_SDL2).
    intros Hq. apply (Hrender (Simulator.set_signature_file s (Some text))).
    exact Hq.
  - eexists. split; [reflexivity |].
    repeat split; try (now destruct ENABLE_SDL2). apply Hrender.
Qed.

Lemma start_fields (s : Simulator.t Core) :
  Simulator.main_time (start s) = Simulator.main_time s
  /\ Simulator.max_sim_time (start s) = Simulator.max_sim_time s
  /\ Simulator.halt_address (start s) = Simulator.halt_address s
  /\ Simulator.bus (start s) = Simulator.bus s
  /\ Simulator.signature_begin (start s) = Simulator.signature_begin s
  /\ Simulator.signature_end (start s) = Simulator.signature_end s
  /\ exists ins outs,
       Simulator.vcd_tracer (start s)
       = Simulator.dump (Simulator.vcd_tracer s) (Simulator.main_time s)
           ins outs.
Proof.
  unfold Simulator.start. destruct (eval _ _) as [core outs]. simpl.
  repeat split. eauto.
Qed.

Lemma ticks_window (k : nat) (s : Simulator.t Core) :
  Simulator.signature_begin (ticks k s) = Simulator.signature_begin s
  /\ Simulator.signature_end (ticks k s) = Simulator.signature_end s
  /\ Simulator.max_sim_time (ticks k s) = Simulator.max_sim_time s.
Proof.
  revert s. induction k as [| k IH]; intros s; [now repeat split |].
  cbn [Simulator.ticks]. destruct (IH (snd (tick s))) as (-> & -> & ->).
  destruct (tick_window eval ENABLE_SDL2 s) as (-> & ->).
  destruct (tick_fields eval ENABLE_SDL2 s) as (_ & _ & -> & _).
  now repeat split.
Qed.

(** How [run] decomposes when it returns. *)
Lemma run_done (s f : Simulator.t Core) :
  run s = Simulator.Done f ->
  exists j,
    (j <= Z.to_nat (Simulator.max_sim_time s - Simulator.main_time s))%nat
    /\ loop (Z.to_nat (Simulator.max_sim_time s - Simulator.main_time s))
            (start s) = Simulator.Done (ticks j (start s))
    /\ finish (ticks j (start s)) = Simulator.Done f.
Proof.
  unfold Simulator.run. destruct (start_fields s) as (Ht & Hmax & _).
  rewrite Ht, Hmax. intros Hrun.
  destruct (loop _ (start s)) as [s1 | s1 |] eqn:Eloop; try discriminate Hrun.
  destruct (loop_is_ticks _ _ _ (or_introl Eloop)) as (j & Hj & ->).
  exists j. now repeat split.
Qed.

(** X11.  When a run returns, a trace recorder that was disabled is still
    disabled, and an enabled one has gained exactly one sample for the
    evaluation before the loop and one per tick, stamped in order with the
    tick numbers from the start time to the final tick counter. *)
Theorem trace_has_one_sample_per_tick (s f : Simulator.t Core) :
  0 <= Simulator.main_time s < 2 ^ 64 ->
  Simulator.max_sim_time s < 2 ^ 64 ->
  0 <= Simulator.signature_begin s ->
  Simulator.signature_end s < 2 ^ 32 ->
  run s = Simulator.Done f ->
  (Simulator.vcd_tracer s = None -> Simulator.vcd_tracer f = None)
  /\ (forall tr,
        Simulator.vcd_tracer s = Some tr ->
        exists new,
          Simulator.vcd_tracer f = Some (tr ++ new)
          /\ sample_times new
             = map (fun j => Simulator.main_time s + Z.of_nat j)
                   (seq 0 (S (Z.to_nat (Simulator.main_time f
                                        - Simulator.main_time s))))).
Proof.
  intros Ht Hmax Hb He Hrun.
  destruct (run_done s f Hrun) as (j & Hj & _ & Hfin).
  destruct (start_fields s) as (St & Smax & _ & _ & Sb & Se & ins & outs & Sv).
  destruct (ticks_window j (start s)) as (Wb & We & _).
  destruct (finish_fields (ticks j (start s))) as (f' & Hf' & _ & Ft & _ & _
                                                    & _ & Fv & _);
    [rewrite Wb, Sb; exact Hb | rewrite We, Se; exact He |].
  rewrite Hfin in Hf'. injection Hf' as <-.
  assert (Hbound : Simulator.main_time (start s) + Z.of_nat j < 2 ^ 64)
    by (rewrite St; lia).
  pose proof (ticks_main_time j (start s) ltac:(rewrite St; lia) Hbound)
    as Htime.
  destruct (ticks_trace j (start s) ltac:(rewrite St; lia) Hbound)
    as [Hnone Hsome].
  rewrite Fv, Ft, Htime, St. split.
  - intros Hoff. apply Hnone. now rewrite Sv, Hoff.
  - intros tr Htr. rewrite Htr in Sv. simpl in Sv.
    destruct (Hsome _ Sv) as (new & Hnew & Htimes).
    exists ((Simulator.main_time s, ins, outs) :: new). split.
    + rewrite Hnew, <- app_assoc. reflexivity.
    + replace (Z.to_nat (Simulator.main_time s + Z.of_nat j
                         - Simulator.main_time s)) with j by lia.
      unfold sample_times in *. cbn [map fst]. rewrite Htimes, St.
      rewrite <- cons_seq, <- seq_shift. cbn [map]. rewrite map_map.
      f_equal; [lia |]. apply map_ext. intros i. lia.
Qed.

Lemma tick_bus (s : Simulator.t Core) :
  Simulator.bus (snd (tick s))
  = (if pin (io_memory_bundle_write_enable (tick_outputs s))
     then fst (bus_write (Simulator.bus s)
                 (io_deviceSelect (tick_outputs s))
                 (io_memory_bundle_address (tick_outputs s))
                 (io_memory_bundle_write_data (tick_outputs s))
                 (Simulator.strobes_of (tick_outputs s)))
     else Simulator.bus s).
Proof.
  unfold Simulator.tick.
  destruct (tick_check_keeps (tick_dispatch s)) as (_ & _ & _ & _ & -> & _).
  now destruct (tick_dispatch_state s) as (_ & _ & _ & _ & _ & ->).
Qed.

Lemma bus_write_wf (b : Bus) (device_select address data : Z) (ws : Strobe) :
  Memory.wf (bus_memory b) -> 0 <= data < 2 ^ 32 ->
  Memory.wf (bus_memory (fst (bus_write b device_select address data ws))).
Proof.
  intros Hwf Hd. unfold bus_write.
  destruct (device_select =? 0); [now apply write_wf |].
  destruct (is_uart _); [now destruct (UartMMIO.write _ _ _) |].
  destruct (is_timer _); [exact Hwf |].
  now destruct (is_vga _).
Qed.

(** X12.  A core that never asserts write enable leaves the word memory,
    the UART and the timer exactly as they were, over any number of ticks and
    over a whole run: loads, instruction fetches, the halt check and the
    signature dump never modify a store. *)
Theorem run_without_stores_keeps_bus (s : Simulator.t Core) :
  (forall core ins,
     pin (io_memory_bundle_write_enable (snd (eval core ins))) = false) ->
  0 <= Simulator.signature_begin s ->
  Simulator.signature_end s < 2 ^ 32 ->
  (forall k, Simulator.bus (ticks k (start s)) = Simulator.bus s)
  /\ (forall f, run s = Simulator.Done f -> Simulator.bus f = Simulator.bus s).
Proof.
  intros Hnw Hb He.
  assert (Hticks : forall k s1, Simulator.bus (ticks k s1) = Simulator.bus s1).
  { induction k as [| k IH]; intros s1; [reflexivity |].
    cbn [Simulator.ticks]. rewrite IH, tick_bus.
    unfold Simulator.tick_outputs. now rewrite Hnw. }
  destruct (start_fields s) as (_ & _ & _ & Sbus & Sb & Se & _).
  split.
  - intros k. now rewrite Hticks.
  - intros f Hrun. destruct (run_done s f Hrun) as (j & _ & _ & Hfin).
    destruct (ticks_window j (start s)) as (Wb & We & _).
    destruct (finish_fields (ticks j (start s)))
      as (f' & Hf' & _ & _ & _ & _ & Fbus & _);
      [rewrite Wb, Sb; exact Hb | rewrite We, Se; exact He |].
    rewrite Hfin in Hf'. injection Hf' as <-.
    now rewrite Fbus, Hticks.
Qed.

(** X13.  The capacity of the word memory never changes during a run, and
    when the core drives 32-bit write data every stored word stays a 32-bit
    value. *)
Theorem run_keeps_capacity (s f : Simulator.t Core) :
  0 <= Simulator.signature_begin s ->
  Simulator.signature_end s < 2 ^ 32 ->
  run s = Simulator.Done f ->
  Memory.size (Simulator.memory f) = Memory.size (Simulator.memory s)
  /\ (Memory.wf (Simulator.memory s) ->
      (forall core ins,
         0 <= io_memory_bundle_write_data (snd (eval core ins)) < 2 ^ 32) ->
      Memory.wf (Simulator.memory f)).
Proof.
  intros Hb He Hrun.
  assert (Hsize : forall k s1,
             Memory.size (Simulator.memory (ticks k s1))
             = Memory.size (Simulator.memory s1)).
  { induction k as [| k IH]; intros s1; [reflexivity |].
    cbn [Simulator.ticks]. rewrite IH. unfold Simulator.memory.
    rewrite tick_bus. destruct (pin _); [apply bus_write_size | reflexivity]. }
  assert (Hwf : (forall core ins,
                   0 <= io_memory_bundle_write_data (snd (eval core ins))
                   < 2 ^ 32) ->
                forall k s1,
                  Memory.wf (Simulator.memory s1) ->
                  Memory.wf (Simulator.memory (ticks k s1))).
  { intros Hdata. induction k as [| k IH]; intros s1 Hs1; [exact Hs1 |].
    cbn [Simulator.ticks]. apply IH. unfold Simulator.memory.
    rewrite tick_bus. destruct (pin _); [| exact Hs1].
    apply bus_write_wf; [exact Hs1 | apply Hdata]. }
  destruct (start_fields s) as (_ & _ & _ & Sbus & Sb & Se & _).
  destruct (run_done s f Hrun) as (j & _ & _ & Hfin).
  destruct (ticks_window j (start s)) as (Wb & We & _).
  destruct (finish_fields (ticks j (start s)))
    as (f' & Hf' & _ & _ & _ & _ & Fbus & _);
    [rewrite Wb, Sb; exact Hb | rewrite We, Se; exact He |].
  rewrite Hfin in Hf'. injection Hf' as <-.
  unfold Simulator.memory in *. rewrite Fbus. split.
  - now rewrite Hsize, Sbus.
  - intros Hs Hdata. apply Hwf; [exact Hdata |]. now rewrite Sbus.
Qed.

(** Why the loop has stopped when it returns normally. *)
Lemma loop_exit (fuel : nat) (s f : Simulator.t Core) :
  loop fuel s = Simulator.Done f ->
  running f = false
  \/ Simulator.halt_observed f = true
  \/ quit_requested f = true.
Proof.
  revert s. induction fuel as [| fuel IH]; intros s Hend.
  - simpl in Hend. destruct (running s) eqn:Hrun; [discriminate |].
    injection Hend as <-. now left.
  - cbn [Simulator.loop] in Hend. destruct (running s) eqn:Hrun.
    + destruct (tick_fields eval ENABLE_SDL2 s) as (Hk & _).
      destruct (tick_check_keeps (tick_dispatch s))
        as (_ & _ & _ & _ & Hbus & Hhalt & Hquit).
      fold (tick s) in Hbus, Hhalt, Hquit.
      destruct (tick s) as [c s1]. simpl in *.
      destruct c; [now apply (IH s1) | | discriminate].
      injection Hend as <-. right.
      destruct (Simulator.quit_requested ENABLE_SDL2
                  (Simulator.tick_display ENABLE_SDL2
                     (Simulator.tick_dispatch eval ENABLE_SDL2 s)));
        [now right |].
      left. clear IH. unfold Simulator.halt_observed, Simulator.memory in Hk.
      unfold Simulator.halt_observed, Simulator.memory.
      rewrite Hbus, Hhalt.
      destruct (negb _ && _); [reflexivity |].
      now destruct (progress_period _ =? 0).
    + injection Hend as <-. now left.
Qed.

(** X14.  A run always ends with fuel to spare, and when it returns
    normally it has stopped for one of the four reasons the driver knows:
    the tick counter has reached the budget, the core has reported
    completion, the halt address holds the sentinel, or the display has asked
    to quit.  The tick counter has not moved backwards and, if it started
    within the budget, it has not passed it. *)
Theorem run_ends_for_a_reason (s : Simulator.t Core) :
  0 <= Simulator.main_time s < 2 ^ 64 ->
  Simulator.max_sim_time s < 2 ^ 64 ->
  0 <= Simulator.signature_begin s ->
  Simulator.signature_end s < 2 ^ 32 ->
  run s <> Simulator.OutOfFuel
  /\ forall f,
       run s = Simulator.Done f ->
       (Simulator.max_sim_time f <= Simulator.main_time f
        \/ gotFinish (Simulator.top_core f) = true
        \/ Simulator.halt_observed f = true
        \/ quit_requested f = true)
       /\ Simulator.max_sim_time f = Simulator.max_sim_time s
       /\ Simulator.main_time s <= Simulator.main_time f
       /\ (Simulator.main_time s <= Simulator.max_sim_time s ->
           Simulator.main_time f <= Simulator.max_sim_time s).
Proof.
  intros Ht Hmax Hb He.
  destruct (start_fields s) as (St & Smax & _ & _ & Sb & Se & _).
  assert (Hfinish : forall j, exists f',
             finish (ticks j (start s)) = Simulator.Done f'
             /\ Simulator.top_core f' = Simulator.top_core (ticks j (start s))
             /\ Simulator.main_time f'
                = Simulator.main_time (ticks j (start s))
             /\ Simulator.max_sim_time f'
                = Simulator.max_sim_time (ticks j (start s))
             /\ Simulator.halt_address f'
                = Simulator.halt_address (ticks j (start s))
             /\ Simulator.bus f' = Simulator.bus (ticks j (start s))
             /\ (quit_requested (ticks j (start s)) = true ->
                 quit_requested f' = true)).
  { intros j. destruct (ticks_window j (start s)) as (Wb & We & _).
    destruct (finish_fields (ticks j (start s)))
      as (f' & Hf' & Fc & Ft & Fm & Fh & Fbus & _ & _ & Fq);
      [rewrite Wb, Sb; exact Hb | rewrite We, Se; exact He |].
    exists f'. now repeat split. }
  split.
  - unfold Simulator.run.
    pose proof (loop_enough_fuel eval gotFinish ENABLE_SDL2
                  (Z.to_nat (Simulator.max_sim_time (start s)
                             - Simulator.main_time (start s)))
                  (start s) ltac:(rewrite St; lia) ltac:(rewrite Smax; lia)
                  ltac:(lia)) as Hfuel.
    destruct (loop _ (start s)) as [s1 | s1 |] eqn:Eloop;
      [| discriminate | now destruct Hfuel].
    destruct (loop_is_ticks _ _ _ (or_introl Eloop)) as (j & _ & ->).
    destruct (Hfinish j) as (f' & -> & _). discriminate.
  - intros f Hrun. destruct (run_done s f Hrun) as (j & Hj & Hloop & Hfin).
    destruct (Hfinish j) as (f' & Hf' & Fc & Ft & Fm & Fh & Fbus & Fq).
    rewrite Hfin in Hf'. injection Hf' as <-.
    destruct (ticks_window j (start s)) as (_ & _ & Wmax).
    pose proof (ticks_main_time j (start s) ltac:(rewrite St; lia)
                  ltac:(rewrite St; lia)) as Htime.
    rewrite Ft, Fm, Wmax, Smax, Htime, St.
    split; [| split; [reflexivity | split; lia]].
    destruct (loop_exit _ _ _ Hloop) as [Hstop | [Hhalt | Hquit]].
    + unfold Simulator.running in Hstop. apply andb_false_iff in Hstop.
      destruct Hstop as [Hlt | Hfin'].
      * left. apply Z.ltb_ge in Hlt. rewrite Htime, Wmax, Smax, St in Hlt.
        exact Hlt.
      * right; left. rewrite Fc. now destruct (gotFinish _).
    + right; right; left. unfold Simulator.halt_observed, Simulator.memory in *.
      now rewrite Fbus, Fh.
    + right; right; right. now apply Fq.
Qed.

End ClockDriverFacts.

Lemma clock_and_reset_schedule_witness :
  let s0 := Idle.simulator 100 4 false in
  Simulator.main_time s0 = 0
  /\ Z.of_nat 3 + 1 < 2 ^ 64
  /\ reset (Simulator.tick_inputs true
              (Simulator.ticks Idle.eval true 3
                 (Simulator.start Idle.eval true s0))) = 0
  /\ clock (Simulator.tick_inputs true
              (Simulator.ticks Idle.eval true 3
                 (Simulator.start Idle.eval true s0))) = 0.
Proof.
  intros s0.
  assert (H0 : Simulator.main_time s0 = 0) by reflexivity.
  assert (Hk : Z.of_nat 3 + 1 < 2 ^ 64) by (vm_compute; reflexivity).
  split; [exact H0 |]. split; [exact Hk |].
  destruct (clock_and_reset_schedule Idle.eval true s0 3 H0 Hk)
    as (_ & Hreset & Hclock & _).
  split; [exact Hreset | exact Hclock].
Defined.

Lemma trace_has_one_sample_per_tick_witness :
  let s := Idle.simulator 100 4 true in
  0 <= Simulator.main_time s < 2 ^ 64
  /\ Simulator.max_sim_time s < 2 ^ 64
  /\ exists f new,
       Simulator.run Idle.eval Idle.gotFinish false s = Simulator.Done f
       /\ Simulator.vcd_tracer f = Some new
       /\ length (sample_times new) = 101%nat.
Proof.
  intros s.
  assert (Ht : 0 <= Simulator.main_time s < 2 ^ 64)
    by (vm_compute; split; congruence).
  assert (Hmax : Simulator.max_sim_time s < 2 ^ 64) by (vm_compute; reflexivity).
  split; [exact Ht |]. split; [exact Hmax |].
  destruct (Simulator.run Idle.eval Idle.gotFinish false s) as [f | f |] eqn:E;
    [| vm_compute in E; discriminate E | vm_compute in E; discriminate E].
  destruct (trace_has_one_sample_per_tick Idle.eval Idle.gotFinish false s f
              Ht Hmax ltac:(vm_compute; discriminate)
              ltac:(vm_compute; reflexivity) E) as [_ Hsome].
  destruct (Hsome [] eq_refl) as (new & Hnew & Htimes).
  exists f, new. split; [reflexivity |]. split; [exact Hnew |].
  rewrite Htimes, length_map, length_seq.
  assert (Hf : Simulator.main_time f = 100).
  { assert (Hg : match Simulator.run Idle.eval Idle.gotFinish false s with
                 | Simulator.Done f' => Simulator.main_time f' = 100
                 | _ => True
                 end) by (vm_compute; reflexivity).
    now rewrite E in Hg. }
  rewrite Hf. reflexivity.
Defined.

Lemma run_without_stores_keeps_bus_witness :
  let s := Idle.simulator 100 4 false in
  (forall core ins,
     pin (io_memory_bundle_write_enable (snd (Idle.eval core ins))) = false)
  /\ Simulator.bus
       (Simulator.ticks Idle.eval false 7 (Simulator.start Idle.eval false s))
     = Simulator.bus s.
Proof.
  intros s.
  assert (Hnw : forall core ins,
             pin (io_memory_bundle_write_enable (snd (Idle.eval core ins)))
             = false) by reflexivity.
  split; [exact Hnw |].
  apply (proj1 (run_without_stores_keeps_bus Idle.eval Idle.gotFinish false s
                  Hnw ltac:(vm_compute; discriminate)
                  ltac:(vm_compute; reflexivity))).
Defined.

Lemma run_keeps_capacity_witness :
  let eval := Demo.eval Demo.halting in
  let s := Demo.simulator 200 0x100 128 in
  exists f,
    Simulator.run eval Demo.gotFinish false s = Simulator.Done f
    /\ Memory.size (Simulator.memory f) = 128.
Proof.
  intros eval s.
  destruct (Simulator.run eval Demo.gotFinish false s) as [f | f |] eqn:E;
    [| vm_compute in E; discriminate E | vm_compute in E; discriminate E].
  exists f. split; [reflexivity |].
  rewrite (proj1 (run_keeps_capacity eval Demo.gotFinish false s f
                    ltac:(vm_compute; discriminate)
                    ltac:(vm_compute; reflexivity) E)).
  reflexivity.
Defined.

Lemma run_ends_for_a_reason_witness :
  let eval := Demo.eval Demo.halting in
  let s := Demo.simulator 200 0x100 128 in
  0 <= Simulator.main_time s < 2 ^ 64
  /\ Simulator.max_sim_time s < 2 ^ 64
  /\ Simulator.run eval Demo.gotFinish false s <> Simulator.OutOfFuel.
Proof.
  intros eval s.
  assert (Ht : 0 <= Simulator.main_time s < 2 ^ 64)
    by (vm_compute; split; congruence).
  assert (Hmax : Simulator.max_sim_time s < 2 ^ 64) by (vm_compute; reflexivity).
  split; [exact Ht |]. split; [exact Hmax |].
  apply (proj1 (run_ends_for_a_reason eval Demo.gotFinish false s Ht Hmax
                  ltac:(vm_compute; discriminate)
                  ltac:(vm_compute; reflexivity))).
Defined.

(** * Properties of the reciprocal square root workload *)

(** ** Leading zeros *)

(** The test of the top [k] bits of a 32-bit word against zero. *)
Lemma top_bits_clear (x k : Z) :
  0 <= x < 2 ^ 32 -> 0 < k <= 32 ->
  (Z.land x (Z.shiftl (Z.ones k) (32 - k)) =? 0) = (x <? 2 ^ (32 - k)).
Proof.
  intros Hx Hk. destruct (Z.ltb_spec x (2 ^ (32 - k))) as [Hlt | Hge].
  - apply Z.eqb_eq, Z.bits_inj'. intros n Hn.
    rewrite Z.land_spec, Z.bits_0.
    destruct (Z.ltb_spec n (32 - k)).
    + rewrite Z.shiftl_spec_low by lia. apply andb_false_r.
    + now rewrite (high_bits_clear x (32 - k) n) by lia.
  - apply Z.eqb_neq. intros Hzero.
    assert (Hpos : 0 < x).
    { assert (0 < 2 ^ (32 - k)) by (apply Z.pow_pos_nonneg; lia). lia. }
    assert (Hlog : 32 - k <= Z.log2 x < 32).
    { split; [apply Z.log2_le_pow2; lia | apply Z.log2_lt_pow2; lia]. }
    assert (Hbit : Z.testbit (Z.land x (Z.shiftl (Z.ones k) (32 - k)))
                     (Z.log2 x) = true).
    { rewrite Z.land_spec, Z.bit_log2 by lia.
      rewrite Z.shiftl_spec by lia. rewrite testbit_low_ones by lia.
      apply Z.ltb_lt. lia. }
    rewrite Hzero, Z.bits_0 in Hbit. discriminate Hbit.
Qed.

Lemma shift_in_word (x w : Z) :
  0 <= w -> 0 <= x < 2 ^ (32 - w) -> w <= 32 ->
  wrap32 (Z.shiftl x w) = x * 2 ^ w.
Proof.
  intros Hw Hx Hle. rewrite Z.shiftl_mul_pow2 by lia. unfold wrap32.
  apply Z.mod_small. split; [apply Z.mul_nonneg_nonneg; lia |].
  replace (2 ^ 32) with (2 ^ (32 - w) * 2 ^ w)
    by (rewrite <- Z.pow_add_r by lia; f_equal; lia).
  apply Z.mul_lt_mono_pos_r; [apply Z.pow_pos_nonneg; lia | lia].
Qed.

(** One test of [clz]: decide it, and undo the wrap of the shift it guards. *)
Ltac clz_step k :=
  match goal with
  | |- context [Z.land ?y (Z.shiftl (Z.ones k) (32 - k)) =? 0] =>
      rewrite (top_bits_clear y k) by lia;
      destruct (Z.ltb_spec y (2 ^ (32 - k)));
      [try rewrite (shift_in_word y k) by lia |]
  end.

Lemma clz_window (x : Z) :
  0 < x < 2 ^ 32 ->
  0 <= clz x <= 31 /\ 2 ^ (31 - clz x) <= x < 2 ^ (32 - clz x).
Proof.
  intros Hx. unfold clz. destruct (Z.eqb_spec x 0); [lia |].
  change 0xFFFF0000 with (Z.shiftl (Z.ones 16) (32 - 16)).
  change 0xFF000000 with (Z.shiftl (Z.ones 8) (32 - 8)).
  change 0xF0000000 with (Z.shiftl (Z.ones 4) (32 - 4)).
  change 0xC0000000 with (Z.shiftl (Z.ones 2) (32 - 2)).
  change 0x80000000 with (Z.shiftl (Z.ones 1) (32 - 1)).
  clz_step 16; clz_step 8; clz_step 4; clz_step 2; clz_step 1; simpl; lia.
Qed.

(** X15.  [clz] counts the leading zeros of a 32-bit word: 32 for zero, and
    for a nonzero word the count [n] is at most 31 and the word lies between
    2^(31 - n) and 2^(32 - n). *)
Theorem clz_counts_leading_zeros (x : Z) :
  0 <= x < 2 ^ 32 ->
  (x = 0 -> clz x = 32)
  /\ (x <> 0 ->
      0 <= clz x <= 31 /\ 2 ^ (31 - clz x) <= x < 2 ^ (32 - clz x)).
Proof.
  intros Hx. split; [intros ->; reflexivity |]. intros Hnz.
  apply clz_window. lia.
Qed.

Lemma clz_counts_leading_zeros_witness :
  0 <= 0x00012345 < 2 ^ 32 /\ 0x00012345 <> 0
  /\ 2 ^ (31 - clz 0x00012345) <= 0x00012345 < 2 ^ (32 - clz 0x00012345).
Proof.
  assert (H : 0 <= 0x00012345 < 2 ^ 32) by lia.
  split; [exact H |]. split; [lia |].
  apply (proj2 (clz_counts_leading_zeros 0x00012345 H)). lia.
Defined.

(** ** Software multiplication and division *)

Lemma land_single_bit (b i : Z) :
  0 <= i -> Z.land b (2 ^ i) = Z.b2z (Z.testbit b i) * 2 ^ i.
Proof.
  intros Hi. destruct (Z.testbit b i) eqn:E; simpl Z.b2z.
  - rewrite Z.mul_1_l. apply Z.bits_inj'. intros n Hn.
    rewrite Z.land_spec, Z.pow2_bits_eqb by lia.
    destruct (Z.eqb_spec i n) as [<- | _];
      [now rewrite E | apply andb_false_r].
  - rewrite Z.mul_0_l. apply Z.bits_inj'. intros n Hn.
    rewrite Z.land_spec, Z.pow2_bits_eqb, Z.bits_0 by lia.
    destruct (Z.eqb_spec i n) as [<- | _];
      [now rewrite E | apply andb_false_r].
Qed.

(** The low [i + 1] bits are the low [i] bits and bit [i]. *)
Lemma mod_next_bit (b i : Z) :
  0 <= i ->
  b mod 2 ^ (i + 1) = b mod 2 ^ i + Z.b2z (Z.testbit b i) * 2 ^ i.
Proof.
  intros Hi. rewrite Z.pow_add_r, Z.pow_1_r by lia.
  assert (0 < 2 ^ i) by (apply Z.pow_pos_nonneg; lia).
  rewrite Z.rem_mul_r by lia. rewrite Z.testbit_spec' by lia. ring.
Qed.

Lemma mul32_loop_product (a b : Z) (steps : nat) :
  0 <= a < 2 ^ 32 -> 0 <= b < 2 ^ 32 ->
  forall i r,
    0 <= i -> i + Z.of_nat steps = 32 -> r = a * (b mod 2 ^ i) ->
    mul32_loop steps i a b r = a * b.
Proof.
  intros Ha Hb. induction steps as [| steps IH]; intros i r Hi Hsum Hr.
  - simpl. rewrite Hr. replace i with 32 by lia.
    now rewrite Z.mod_small by lia.
  - cbn [mul32_loop]. apply IH; [lia | lia |].
    assert (Hpow : 0 < 2 ^ i < 2 ^ 32).
    { split; [apply Z.pow_pos_nonneg; lia |].
      apply Z.pow_lt_mono_r; lia. }
    assert (Hone : wrap32 (Z.shiftl 1 i) = 2 ^ i).
    { rewrite Z.shiftl_mul_pow2, Z.mul_1_l by lia. unfold wrap32.
      apply Z.mod_small. lia. }
    rewrite Hone, land_single_bit, mod_next_bit by lia.
    pose proof (Z.mod_pos_bound b (2 ^ i) ltac:(lia)) as Hm.
    assert (Hlow : 0 <= a * (b mod 2 ^ i) < 2 ^ 32 * 2 ^ i) by nia.
    assert (Hai : 0 <= a * 2 ^ i < 2 ^ 32 * 2 ^ i) by nia.
    assert (Hcap : 2 ^ 32 * 2 ^ i <= 2 ^ 32 * 2 ^ 31).
    { apply Z.mul_le_mono_nonneg_l; [lia |].
      apply Z.pow_le_mono_r; lia. }
    destruct (Z.testbit b i); simpl Z.b2z.
    + rewrite Z.mul_1_l.
      destruct (Z.eqb_spec (2 ^ i) 0); [lia |]. simpl negb. cbv iota.
      rewrite Z.shiftl_mul_pow2 by lia. unfold wrap64.
      rewrite (Z.mod_small (a * 2 ^ i)) by lia.
      rewrite Z.mod_small by lia. rewrite Hr. ring.
    + rewrite Z.mul_0_l. simpl. rewrite Hr. f_equal. lia.
Qed.

Lemma mul32_value (a b : Z) :
  0 <= a < 2 ^ 32 -> 0 <= b < 2 ^ 32 -> mul32 a b = a * b.
Proof.
  intros Ha Hb. unfold mul32.
  apply mul32_loop_product; try assumption; try lia.
  rewrite Z.mod_1_r. lia.
Qed.

(** X16.  [mul32] returns the exact 64-bit product of two 32-bit values: the
    sum of the shifted copies of [a] never overflows the 64-bit result. *)
Theorem mul32_is_product (a b : Z) :
  0 <= a < 2 ^ 32 -> 0 <= b < 2 ^ 32 ->
  mul32 a b = a * b /\ 0 <= mul32 a b < 2 ^ 64.
Proof.
  intros Ha Hb. rewrite mul32_value by assumption. split; [reflexivity | nia].
Qed.

Lemma mul32_is_product_witness :
  0 <= 65536 < 2 ^ 32 /\ 0 <= 6700 < 2 ^ 32 /\ mul32 65536 6700 = 439091200.
Proof.
  assert (Ha : 0 <= 65536 < 2 ^ 32) by lia.
  assert (Hb : 0 <= 6700 < 2 ^ 32) by lia.
  split; [exact Ha |]. split; [exact Hb |].
  exact (proj1 (mul32_is_product 65536 6700 Ha Hb)).
Defined.

Lemma umul_loop_product (fuel : nat) :
  forall a b result,
    0 <= b < 2 ^ Z.of_nat fuel -> 0 <= result < 2 ^ 32 ->
    Hw2.umul_loop fuel a b result = Some ((result + a * b) mod 2 ^ 32).
Proof.
  induction fuel as [| fuel IH]; intros a b result Hb Hr.
  - simpl in Hb. assert (b = 0) by lia. subst b. simpl.
    rewrite Z.mul_0_r, Z.add_0_r, Z.mod_small by lia. reflexivity.
  - cbn [Hw2.umul_loop]. destruct (Z.eqb_spec b 0) as [-> | Hnz].
    + rewrite Z.mul_0_r, Z.add_0_r, Z.mod_small by lia. reflexivity.
    + rewrite Nat2Z.inj_succ, Z.pow_succ_r in Hb by lia.
      assert (Hhalf : 0 <= Z.shiftr b 1 < 2 ^ Z.of_nat fuel).
      { rewrite Z.shiftr_div_pow2 by lia. change (2 ^ 1) with 2.
        split; [apply Z.div_pos; lia | apply Z.div_lt_upper_bound; lia]. }
      assert (Hbit : Z.land b 1 = b mod 2)
        by (change 1 with (Z.ones 1) at 1; now rewrite Z.land_ones by lia).
      assert (Hsplit : b = 2 * Z.shiftr b 1 + b mod 2).
      { rewrite Z.shiftr_div_pow2 by lia. change (2 ^ 1) with 2.
        apply Z.div_mod. lia. }
      rewrite IH.
      * f_equal. unfold wrap32. rewrite Z.shiftl_mul_pow2 by lia.
        change (2 ^ 1) with 2. rewrite Hbit.
        rewrite Hsplit at 3.
        pose proof (Z.mod_pos_bound b 2 ltac:(lia)) as Hm.
        destruct (Z.eqb_spec (b mod 2) 0) as [E | E]; simpl negb; cbv iota.
        -- rewrite E, Z.add_0_r.
           rewrite Z.add_mod, Z.mul_mod_idemp_l, <- Z.add_mod by lia.
           f_equal. ring.
        -- assert (E1 : b mod 2 = 1) by lia. rewrite E1.
           rewrite Z.add_mod, Z.mod_mod, Z.mul_mod_idemp_l,
             <- Z.add_mod by lia.
           f_equal. ring.
      * exact Hhalf.
      * destruct (negb _); [apply Z.mod_pos_bound; lia | exact Hr].
Qed.

(** X17.  [umul], and with it [__mulsi3], ends for every pair of 32-bit
    values and returns their product modulo 2^32. *)
Theorem umul_is_product_mod (a b : Z) :
  0 <= a < 2 ^ 32 -> 0 <= b < 2 ^ 32 ->
  Hw2.umul a b = Some ((a * b) mod 2 ^ 32)
  /\ Hw2.__mulsi3 a b = Some ((a * b) mod 2 ^ 32).
Proof.
  intros Ha Hb. unfold Hw2.__mulsi3, Hw2.umul.
  rewrite umul_loop_product by (simpl; lia). now split.
Qed.

Lemma umul_is_product_mod_witness :
  0 <= 0xFFFFFFFF < 2 ^ 32 /\ Hw2.umul 0xFFFFFFFF 0xFFFFFFFF = Some 1.
Proof.
  assert (H : 0 <= 0xFFFFFFFF < 2 ^ 32) by lia.
  split; [exact H |].
  exact (proj1 (umul_is_product_mod 0xFFFFFFFF 0xFFFFFFFF H H)).
Defined.

(** One round of the restoring division of [udiv] and [umod]: bit [i] of the
    dividend is shifted into the remainder, which then lies below twice the
    divisor, so that one subtraction restores it. *)
Lemma division_round (dividend divisor Q r : Z) (i : nat) :
  0 <= dividend < 2 ^ 32 -> 0 < divisor < 2 ^ 32 ->
  (i < 32)%nat -> 0 <= Q -> 0 <= r < divisor ->
  dividend / 2 ^ Z.of_nat (S i) = Q * divisor + r ->
  let r2 := Z.lor (Hw2.wrapL (Z.shiftl r 1))
                  (Z.land (Z.shiftr dividend (Z.of_nat i)) 1) in
  dividend / 2 ^ Z.of_nat i = 2 * Q * divisor + r2
  /\ 0 <= r2 < 2 * divisor
  /\ Hw2.wrapL (r2 - divisor) = (r2 - divisor) mod 2 ^ 32
  /\ Z.lor (Q * 2 ^ Z.of_nat (S i)) (Hw2.wrapL (Z.shiftl 1 (Z.of_nat i)))
     = (2 * Q + 1) * 2 ^ Z.of_nat i.
Proof.
  intros Hd Hv Hi HQ Hr Hinv r2.
  assert (Hpow : 0 < 2 ^ Z.of_nat i) by (apply Z.pow_pos_nonneg; lia).
  assert (Hsucc : 2 ^ Z.of_nat (S i) = 2 ^ Z.of_nat i * 2)
    by (rewrite Nat2Z.inj_succ, Z.pow_succ_r by lia; ring).
  assert (Hhigh : dividend / 2 ^ Z.of_nat (S i) < 2 ^ 31).
  { apply Z.div_lt_upper_bound; [lia |].
    assert (2 ^ 1 <= 2 ^ Z.of_nat (S i)) by (apply Z.pow_le_mono_r; lia).
    change (2 ^ 1) with 2 in *. lia. }
  assert (Hr31 : r < 2 ^ 31) by nia.
  assert (Hshift : Hw2.wrapL (Z.shiftl r 1) = r * 2 ^ 1).
  { rewrite Z.shiftl_mul_pow2 by lia. unfold Hw2.wrapL.
    apply Z.mod_small. change (2 ^ 1) with 2. lia. }
  assert (Hbit : Z.land (Z.shiftr dividend (Z.of_nat i)) 1
                 = (dividend / 2 ^ Z.of_nat i) mod 2).
  { change 1 with (Z.ones 1). rewrite Z.land_ones by lia.
    now rewrite Z.shiftr_div_pow2 by lia. }
  pose proof (Z.mod_pos_bound (dividend / 2 ^ Z.of_nat i) 2 ltac:(lia)) as Hm.
  assert (Hr2 : r2 = 2 * r + (dividend / 2 ^ Z.of_nat i) mod 2).
  { subst r2. rewrite Hshift, Hbit, shifted_lor_add by (simpl; lia).
    change (2 ^ 1) with 2. ring. }
  assert (Hnext : dividend / 2 ^ Z.of_nat i
                  = 2 * (dividend / 2 ^ Z.of_nat (S i))
                    + (dividend / 2 ^ Z.of_nat i) mod 2).
  { rewrite Hsucc, <- Z.div_div by lia. apply Z.div_mod. lia. }
  split; [rewrite Hr2, Hnext at 1; rewrite Hinv; ring |].
  split; [lia |]. split; [reflexivity |].
  assert (Hone : Hw2.wrapL (Z.shiftl 1 (Z.of_nat i)) = Z.shiftl 1 (Z.of_nat i)).
  { unfold Hw2.wrapL. apply Z.mod_small.
    rewrite Z.shiftl_mul_pow2, Z.mul_1_l by lia.
    split; [lia | apply Z.pow_lt_mono_r; lia]. }
  rewrite Hone, Hsucc.
  replace (Q * (2 ^ Z.of_nat i * 2)) with (Z.shiftl (Q * 2 ^ 1) (Z.of_nat i))
    by (rewrite Z.shiftl_mul_pow2 by lia; change (2 ^ 1) with 2; ring).
  rewrite <- Z.shiftl_lor, shifted_lor_add by (simpl; lia).
  rewrite Z.shiftl_mul_pow2 by lia. change (2 ^ 1) with 2. ring.
Qed.

Lemma udiv_loop_quotient (dividend divisor : Z) (steps : nat) :
  0 <= dividend < 2 ^ 32 -> 0 < divisor < 2 ^ 32 ->
  (steps <= 32)%nat ->
  forall Q r,
    0 <= Q -> 0 <= r < divisor ->
    dividend / 2 ^ Z.of_nat steps = Q * divisor + r ->
    Hw2.udiv_loop steps dividend divisor (Q * 2 ^ Z.of_nat steps) r
    = dividend / divisor.
Proof.
  intros Hd Hv. induction steps as [| i IH]; intros Hle Q r HQ Hr Hinv.
  - simpl in *. rewrite Z.div_1_r in Hinv. rewrite Z.mul_1_r.
    apply Z.div_unique with r; [lia | lia].
  - cbn [Hw2.udiv_loop].
    destruct (division_round dividend divisor Q r i Hd Hv ltac:(lia) HQ Hr
                Hinv) as (Hnext & Hr2 & Hsub & Hq).
    cbv zeta in Hnext, Hr2, Hsub.
    destruct (Z.geb_spec
                (Z.lor (Hw2.wrapL (Z.shiftl r 1))
                       (Z.land (Z.shiftr dividend (Z.of_nat i)) 1))
                divisor) as [Hge | Hlt].
    + rewrite Hq, Hsub, Z.mod_small by lia.
      apply IH; [lia | lia | lia |]. rewrite Hnext. ring.
    + replace (Q * 2 ^ Z.of_nat (S i)) with (2 * Q * 2 ^ Z.of_nat i)
        by (rewrite Nat2Z.inj_succ, Z.pow_succ_r by lia; ring).
      apply IH; [lia | lia | lia |]. exact Hnext.
Qed.

Lemma umod_loop_remainder (dividend divisor : Z) (steps : nat) :
  0 <= dividend < 2 ^ 32 -> 0 < divisor < 2 ^ 32 ->
  (steps <= 32)%nat ->
  forall Q r,
    0 <= Q -> 0 <= r < divisor ->
    dividend / 2 ^ Z.of_nat steps = Q * divisor + r ->
    Hw2.umod_loop steps dividend divisor r = dividend mod divisor.
Proof.
  intros Hd Hv. induction steps as [| i IH]; intros Hle Q r HQ Hr Hinv.
  - simpl in *. rewrite Z.div_1_r in Hinv.
    apply Z.mod_unique with Q; [lia | lia].
  - cbn [Hw2.umod_loop].
    destruct (division_round dividend divisor Q r i Hd Hv ltac:(lia) HQ Hr
                Hinv) as (Hnext & Hr2 & Hsub & _).
    cbv zeta in Hnext, Hr2, Hsub.
    destruct (Z.geb_spec
                (Z.lor (Hw2.wrapL (Z.shiftl r 1))
                       (Z.land (Z.shiftr dividend (Z.of_nat i)) 1))
                divisor) as [Hge | Hlt].
    + rewrite Hsub, Z.mod_small by lia.
      apply (IH ltac:(lia) (2 * Q + 1)); [lia | lia |]. rewrite Hnext. ring.
    + apply (IH ltac:(lia) (2 * Q)); [lia | lia |]. exact Hnext.
Qed.

(** X18.  For 32-bit operands [udiv] returns the quotient and [umod] the
    remainder of the unsigned division; both return 0 when the divisor is
    0. *)
Theorem udiv_umod_divide (dividend divisor : Z) :
  0 <= dividend < 2 ^ 32 -> 0 <= divisor < 2 ^ 32 ->
  (divisor = 0 ->
   Hw2.udiv dividend divisor = 0 /\ Hw2.umod dividend divisor = 0)
  /\ (divisor <> 0 ->
      Hw2.udiv dividend divisor = dividend / divisor
      /\ Hw2.umod dividend divisor = dividend mod divisor
      /\ dividend
         = divisor * Hw2.udiv dividend divisor + Hw2.umod dividend divisor).
Proof.
  intros Hd Hv. split; [intros ->; now split |]. intros Hnz.
  assert (Hhigh : dividend / 2 ^ Z.of_nat 32 = 0 * divisor + 0)
    by (rewrite Z.div_small; simpl; lia).
  assert (Hq : Hw2.udiv dividend divisor = dividend / divisor).
  { unfold Hw2.udiv. destruct (Z.eqb_spec divisor 0); [lia |].
    apply (udiv_loop_quotient dividend divisor 32 Hd ltac:(lia) ltac:(lia)
             0 0); [lia | lia | exact Hhigh]. }
  assert (Hr : Hw2.umod dividend divisor = dividend mod divisor).
  { unfold Hw2.umod. destruct (Z.eqb_spec divisor 0); [lia |].
    apply (umod_loop_remainder dividend divisor 32 Hd ltac:(lia) ltac:(lia)
             0 0); [lia | lia | exact Hhigh]. }
  split; [exact Hq |]. split; [exact Hr |].
  rewrite Hq, Hr. apply Z.div_mod. exact Hnz.
Qed.

Lemma udiv_umod_divide_witness :
  0 <= 4000000000 < 2 ^ 32 /\ 0 <= 7 < 2 ^ 32 /\ 7 <> 0
  /\ Hw2.udiv 4000000000 7 = 571428571 /\ Hw2.umod 4000000000 7 = 3.
Proof.
  assert (Hd : 0 <= 4000000000 < 2 ^ 32) by lia.
  assert (Hv : 0 <= 7 < 2 ^ 32) by lia.
  split; [exact Hd |]. split; [exact Hv |]. split; [lia |].
  destruct (proj2 (udiv_umod_divide 4000000000 7 Hd Hv) ltac:(lia))
    as (Hq & Hr & _).
  split; [exact Hq | exact Hr].
Defined.

(** ** Bare-metal memcpy *)

Lemma memcpy_loop_copies (n : nat) :
  forall (d s : Z) (mem : Hw2.ByteMemory),
    d <= s \/ s + Z.of_nat n <= d ->
    (forall i, 0 <= i < Z.of_nat n ->
       Hw2.memcpy_loop n d s mem (d + i) = mem (s + i))
    /\ (forall a, a < d \/ d + Z.of_nat n <= a ->
          Hw2.memcpy_loop n d s mem a = mem a).
Proof.
  induction n as [| n IH]; intros d s mem Hsafe.
  - split; [intros i Hi; lia | reflexivity].
  - cbn [Hw2.memcpy_loop].
    destruct (IH (d + 1) (s + 1)
                (fun address => if address =? d then mem s else mem address)
                ltac:(lia)) as [IHin IHout].
    split.
    + intros i Hi. destruct (Z.eq_dec i 0) as [-> | Hnz].
      * rewrite Z.add_0_r, IHout by lia. rewrite Z.add_0_r.
        now rewrite Z.eqb_refl.
      * replace (d + i) with (d + 1 + (i - 1)) by lia.
        rewrite IHin by lia.
        replace (s + 1 + (i - 1)) with (s + i) by lia.
        destruct (Z.eqb_spec (s + i) d); [lia | reflexivity].
    + intros a Ha. rewrite IHout by lia.
      destruct (Z.eqb_spec a d); [lia | reflexivity].
Qed.

(** X19.  [memcpy] returns [dest] and, when the destination does not start
    inside the source after its first byte (it lies at or below [src], or at
    or beyond its end), the [n] bytes at [dest] are afterwards the bytes that
    were at [src], and every byte outside the destination is unchanged. *)
Theorem memcpy_copies (mem : Hw2.ByteMemory) (dest src n : Z) :
  0 <= n ->
  dest <= src \/ src + n <= dest ->
  fst (Hw2.memcpy mem dest src n) = dest
  /\ (forall i, 0 <= i < n ->
        snd (Hw2.memcpy mem dest src n) (dest + i) = mem (src + i))
  /\ (forall a, a < dest \/ dest + n <= a ->
        snd (Hw2.memcpy mem dest src n) a = mem a).
Proof.
  intros Hn Hsafe. unfold Hw2.memcpy. simpl.
  destruct (memcpy_loop_copies (Z.to_nat n) dest src mem ltac:(lia))
    as [Hin Hout].
  split; [reflexivity |]. split.
  - intros i Hi. apply Hin. lia.
  - intros a Ha. apply Hout. lia.
Qed.

Lemma memcpy_copies_witness :
  0 <= 4 /\ (100 <= 102 \/ 102 + 4 <= 100)
  /\ snd (Hw2.memcpy (fun a => a mod 256) 100 102 4) (100 + 3) = (102 + 3) mod 256.
Proof.
  assert (Hn : 0 <= 4) by lia.
  assert (Hsafe : 100 <= 102 \/ 102 + 4 <= 100) by (left; lia).
  split; [exact Hn |]. split; [exact Hsafe |].
  apply (proj1 (proj2 (memcpy_copies (fun a => a mod 256) 100 102 4 Hn Hsafe))).
  lia.
Defined.

(** ** Printing numbers *)

(** The text of a list of character codes. *)
Local Abbreviation text_of codes :=
  (string_of_list_ascii (map (fun b => ascii_of_N (Z.to_N b)) codes)).

Lemma text_of_app (l1 l2 : list Z) :
  text_of (l1 ++ l2) = (text_of l1 ++ text_of l2)%string.
Proof.
  induction l1 as [| c l1 IH]; [reflexivity |].
  rewrite <- app_comm_cons. cbn [map string_of_list_ascii].
  rewrite IH. reflexivity.
Qed.

Lemma text_of_length (l : list Z) : String.length (text_of l) = length l.
Proof.
  induction l as [| c l IH]; [reflexivity |].
  cbn [map string_of_list_ascii String.length length]. now rewrite IH.
Qed.

Lemma code_embedding (c : Z) :
  0 <= c < 256 -> Z.of_N (N_of_ascii (ascii_of_N (Z.to_N c))) = c.
Proof. intros Hc. rewrite N_ascii_embedding by lia. lia. Qed.

Lemma drop_insert_here {A : Type} (l : list A) (p : nat) (c : A) :
  (p < length l)%nat -> drop p (<[p := c]> l) = c :: drop (S p) l.
Proof.
  revert p. induction l as [| a l IH]; intros p Hp; [simpl in Hp; lia |].
  destruct p as [| p]; [reflexivity |].
  simpl. apply IH. simpl in Hp. lia.
Qed.

Lemma store_in_buffer (buf : list Z) (p c : Z) :
  0 <= p < 20 -> Hw2.store buf p c = Some (<[Z.to_nat p := c]> buf).
Proof.
  intros Hp. unfold Hw2.store.
  destruct (Z.leb_spec 0 p); [| lia]. destruct (Z.ltb_spec p 20); [| lia].
  reflexivity.
Qed.

Lemma hex_value_from_app (s1 s2 : string) (acc : Z) :
  hex_value_from acc (s1 ++ s2)
  = match hex_value_from acc s1 with
    | Some a => hex_value_from a s2
    | None => None
    end.
Proof.
  revert acc. induction s1 as [| c s1 IH]; intros acc; [reflexivity |].
  change (String c s1 ++ s2)%string with (String c (s1 ++ s2)).
  cbn [hex_value_from].
  destruct (hex_value_digit c); [apply IH | reflexivity].
Qed.

Lemma dec_value_from_app (s1 s2 : string) (acc : Z) :
  dec_value_from acc (s1 ++ s2)
  = match dec_value_from acc s1 with
    | Some a => dec_value_from a s2
    | None => None
    end.
Proof.
  revert acc. induction s1 as [| c s1 IH]; intros acc; [reflexivity |].
  change (String c s1 ++ s2)%string with (String c (s1 ++ s2)).
  cbn [dec_value_from].
  destruct (_ && _); [apply IH | reflexivity].
Qed.

Lemma hex_code_value (digit : Z) :
  0 <= digit < 16 ->
  let code := if digit <? 10 then 48 + digit else 97 + digit - 10 in
  0 <= code < 256
  /\ hex_value_digit (ascii_of_N (Z.to_N code)) = Some digit
  /\ (digit <> 0 -> ascii_of_N (Z.to_N code) <> "0"%char).
Proof.
  intros Hd code.
  assert (Hc : 0 <= code < 256) by (subst code; destruct (digit <? 10); lia).
  split; [exact Hc |]. split.
  - unfold hex_value_digit. rewrite code_embedding by exact Hc. subst code.
    destruct (Z.ltb_spec digit 10).
    + destruct (Z.leb_spec 48 (48 + digit)); [| lia].
      destruct (Z.leb_spec (48 + digit) 57); [| lia]. simpl. f_equal. lia.
    + destruct (Z.leb_spec 48 (97 + digit - 10)); [| lia].
      destruct (Z.leb_spec (97 + digit - 10) 57); [lia |].
      destruct (Z.leb_spec 97 (97 + digit - 10)); [| lia].
      destruct (Z.leb_spec (97 + digit - 10) 102); [| lia].
      simpl. f_equal. lia.
  - intros Hnz Heq.
    apply (f_equal (fun a => Z.of_N (N_of_ascii a))) in Heq.
    rewrite code_embedding in Heq by exact Hc. simpl in Heq.
    subst code. destruct (Z.ltb_spec digit 10); lia.
Qed.

(** The loop of [print_hex] writes the digits of a positive value, most
    significant first, into the buffer just below where it started. *)
Lemma print_hex_loop_digits (fuel : nat) :
  forall (buf : list Z) (p val : Z),
    length buf = 20%nat ->
    0 < val < 16 ^ Z.of_nat fuel -> val < 2 ^ 32 ->
    Z.of_nat fuel - 1 <= p < 20 ->
    exists buf' ds c rest,
      Hw2.print_hex_loop fuel buf p val = Some (buf', p - Z.of_nat (length ds))
      /\ length buf' = 20%nat
      /\ (1 <= length ds <= fuel)%nat
      /\ ds = c :: rest /\ ascii_of_N (Z.to_N c) <> "0"%char
      /\ drop (Z.to_nat (p - Z.of_nat (length ds) + 1)) buf'
         = ds ++ drop (Z.to_nat (p + 1)) buf
      /\ forall acc,
           hex_value_from acc (text_of ds)
           = Some (acc * 16 ^ Z.of_nat (length ds) + val).
Proof.
  induction fuel as [| fuel IH]; intros buf p val Hlen Hval H32 Hp.
  - simpl in Hval. lia.
  - cbn [Hw2.print_hex_loop]. destruct (Z.gtb_spec val 0); [| lia].
    rewrite Nat2Z.inj_succ, Z.pow_succ_r in Hval by lia.
    assert (Hdigit : Z.land val 0xf = val mod 16)
      by (change 0xf with (Z.ones 4); now rewrite Z.land_ones by lia).
    rewrite Hdigit.
    pose proof (Z.mod_pos_bound val 16 ltac:(lia)) as Hm.
    destruct (hex_code_value (val mod 16) Hm) as (Hc & Hparse & Hfirst).
    cbv zeta in Hc, Hparse, Hfirst.
    set (code := if val mod 16 <? 10 then 48 + val mod 16
                 else 97 + val mod 16 - 10) in *.
    rewrite store_in_buffer by lia.
    assert (Hquot : 0 <= val / 16 < 16 ^ Z.of_nat fuel)
      by (split; [apply Z.div_pos; lia | apply Z.div_lt_upper_bound; lia]).
    assert (Hle : val / 16 <= val)
      by (apply Z.div_le_upper_bound; lia).
    assert (Hnext : Hw2.wrapL (Z.shiftr val 4) = val / 16).
    { rewrite Z.shiftr_div_pow2 by lia. change (2 ^ 4) with 16.
      unfold Hw2.wrapL. apply Z.mod_small. lia. }
    rewrite Hnext.
    assert (Hhere : drop (Z.to_nat p) (<[Z.to_nat p := code]> buf)
                    = code :: drop (Z.to_nat (p + 1)) buf).
    { rewrite drop_insert_here by lia. do 2 f_equal. lia. }
    assert (Hsplit : val = 16 * (val / 16) + val mod 16)
      by (apply Z.div_mod; lia).
    destruct (Z.eq_dec (val / 16) 0) as [Hzero | Hmore].
    + exists (<[Z.to_nat p := code]> buf), [code], code, [].
      rewrite Hzero. split.
      { destruct fuel; reflexivity. }
      split; [now rewrite length_insert |]. split; [simpl; lia |].
      split; [reflexivity |]. split; [apply Hfirst; lia |]. split.
      { simpl length. replace (p - Z.of_nat 1 + 1) with p by lia.
        exact Hhere. }
      intros acc. cbn [map string_of_list_ascii hex_value_from].
      rewrite Hparse. f_equal. simpl length. change (16 ^ Z.of_nat 1) with 16.
      lia.
    + destruct (IH (<[Z.to_nat p := code]> buf) (p - 1) (val / 16)
                  ltac:(now rewrite length_insert) ltac:(lia) ltac:(lia)
                  ltac:(lia))
        as (buf' & ds & c & rest & Hloop & Hlen' & Hds & Hcons & Hc0 & Hdrop
            & Hval').
      exists buf', (ds ++ [code]), c, (rest ++ [code]).
      rewrite length_app. simpl length.
      replace (p - Z.of_nat (length ds + 1))
        with (p - 1 - Z.of_nat (length ds)) by lia.
      split; [exact Hloop |]. split; [exact Hlen' |]. split; [lia |].
      split; [now rewrite Hcons |]. split; [exact Hc0 |]. split.
      { rewrite Hdrop. replace (Z.to_nat (p - 1 + 1)) with (Z.to_nat p) by lia.
        rewrite Hhere, <- app_assoc. reflexivity. }
      intros acc. rewrite text_of_app, hex_value_from_app, Hval'.
      cbn [map string_of_list_ascii hex_value_from]. rewrite Hparse.
      f_equal. rewrite Nat2Z.inj_add, Z.pow_add_r by lia.
      change (16 ^ Z.of_nat 1) with 16. lia.
Qed.

Lemma buffer_tail (buf : list Z) :
  length buf = 20%nat -> drop 19 (<[19%nat := 10]> buf) = [10].
Proof.
  intros Hlen. rewrite drop_insert_here by lia.
  now rewrite drop_ge by lia.
Qed.

(** X20.  Whatever the twenty bytes of its buffer hold beforehand,
    [print_hex] of a 32-bit value prints its hexadecimal digits and a
    newline: between one and eight lowercase digits that read back as the
    value, without a leading zero unless the value is 0, which prints as a
    single 0.  No store leaves the buffer. *)
Theorem print_hex_prints_value (buf : list Z) (val : Z) :
  length buf = 20%nat ->
  0 <= val < 2 ^ 32 ->
  exists digits,
    Hw2.print_hex buf val = Some (digits ++ newline)%string
    /\ hex_value digits = Some val
    /\ (1 <= String.length digits <= 8)%nat
    /\ (val = 0 -> digits = "0"%string)
    /\ (val <> 0 -> forall rest, digits <> String "0" rest).
Proof.
  intros Hlen Hval. unfold Hw2.print_hex.
  rewrite store_in_buffer by lia.
  change (Z.to_nat (20 - 1)) with 19%nat.
  destruct (Z.eqb_spec val 0) as [-> | Hnz].
  - rewrite store_in_buffer by lia. exists "0"%string.
    split.
    { unfold Hw2.printstr. change (Z.to_nat (20 - 1 - 1)) with 18%nat.
      change (Z.to_nat (20 - 1 - 1 - 1 + 1)) with 18%nat.
      rewrite drop_insert_here by (rewrite length_insert; lia).
      rewrite buffer_tail by exact Hlen. reflexivity. }
    split; [reflexivity |]. split; [simpl; lia |].
    split; [reflexivity |]. intros H. lia.
  - destruct (print_hex_loop_digits 8 (<[19%nat := 10]> buf) (20 - 1 - 1) val
                ltac:(now rewrite length_insert) ltac:(simpl; lia) ltac:(lia)
                ltac:(simpl; lia))
      as (buf' & ds & c & rest & Hloop & Hlen' & Hds & Hcons & Hc0 & Hdrop
          & Hparse).
    rewrite Hloop. exists (text_of ds). split.
    { f_equal. unfold Hw2.printstr. rewrite Hdrop.
      change (Z.to_nat (20 - 1 - 1 + 1)) with 19%nat.
      rewrite buffer_tail by exact Hlen.
      rewrite take_ge by (rewrite length_app; simpl; lia).
      now rewrite text_of_app. }
    split.
    { unfold hex_value. rewrite Hparse. f_equal; lia. }
    split; [rewrite text_of_length; lia |].
    split; [intros H; lia |].
    intros _ rest'. rewrite Hcons. cbn [map string_of_list_ascii].
    intros Heq. injection Heq as Hchar _. now apply Hc0.
Qed.

Lemma print_hex_prints_value_witness :
  length (replicate 20 0xAA) = 20%nat /\ 0 <= 0xBABE < 2 ^ 32
  /\ Hw2.print_hex (replicate 20 0xAA) 0xBABE = Some ("babe" ++ newline)%string.
Proof.
  assert (Hlen : length (replicate 20 0xAA) = 20%nat) by reflexivity.
  assert (Hval : 0 <= 0xBABE < 2 ^ 32) by lia.
  split; [exact Hlen |]. split; [exact Hval |].
  destruct (print_hex_prints_value (replicate 20 0xAA) 0xBABE Hlen Hval)
    as (digits & Hprint & _).
  reflexivity.
Defined.

Lemma udiv_value (dividend divisor : Z) :
  0 <= dividend < 2 ^ 32 -> 0 < divisor < 2 ^ 32 ->
  Hw2.udiv dividend divisor = dividend / divisor.
Proof.
  intros Hd Hv. unfold Hw2.udiv. destruct (Z.eqb_spec divisor 0); [lia |].
  apply (udiv_loop_quotient dividend divisor 32 Hd Hv ltac:(lia) 0 0);
    [lia | lia |].
  rewrite Z.div_small; simpl; lia.
Qed.

Lemma umod_value (dividend divisor : Z) :
  0 <= dividend < 2 ^ 32 -> 0 < divisor < 2 ^ 32 ->
  Hw2.umod dividend divisor = dividend mod divisor.
Proof.
  intros Hd Hv. unfold Hw2.umod. destruct (Z.eqb_spec divisor 0); [lia |].
  apply (umod_loop_remainder dividend divisor 32 Hd Hv ltac:(lia) 0 0);
    [lia | lia |].
  rewrite Z.div_small; simpl; lia.
Qed.

Lemma dec_code_value (digit acc : Z) :
  0 <= digit < 10 ->
  dec_value_from acc (text_of [48 + digit]) = Some (10 * acc + digit)
  /\ (digit <> 0 -> ascii_of_N (Z.to_N (48 + digit)) <> "0"%char).
Proof.
  intros Hd. split.
  - cbn [map string_of_list_ascii dec_value_from].
    rewrite code_embedding by lia.
    destruct (Z.leb_spec 48 (48 + digit)); [| lia].
    destruct (Z.leb_spec (48 + digit) 57); [| lia]. simpl. f_equal. lia.
  - intros Hnz Heq.
    apply (f_equal (fun a => Z.of_N (N_of_ascii a))) in Heq.
    rewrite code_embedding in Heq by lia. simpl in Heq. lia.
Qed.

(** The loop of [print_dec] writes the digits of a positive value, most
    significant first, into the buffer just below where it started. *)
Lemma print_dec_loop_digits (fuel : nat) :
  forall (buf : list Z) (p val : Z),
    length buf = 20%nat ->
    0 < val < 10 ^ Z.of_nat fuel -> val < 2 ^ 32 ->
    Z.of_nat fuel - 1 <= p < 20 ->
    exists buf' ds c rest,
      Hw2.print_dec_loop fuel buf p val = Some (buf', p - Z.of_nat (length ds))
      /\ length buf' = 20%nat
      /\ (1 <= length ds <= fuel)%nat
      /\ ds = c :: rest /\ ascii_of_N (Z.to_N c) <> "0"%char
      /\ drop (Z.to_nat (p - Z.of_nat (length ds) + 1)) buf'
         = ds ++ drop (Z.to_nat (p + 1)) buf
      /\ forall acc,
           dec_value_from acc (text_of ds)
           = Some (acc * 10 ^ Z.of_nat (length ds) + val).
Proof.
  induction fuel as [| fuel IH]; intros buf p val Hlen Hval H32 Hp.
  - simpl in Hval. lia.
  - cbn [Hw2.print_dec_loop]. destruct (Z.gtb_spec val 0); [| lia].
    rewrite Nat2Z.inj_succ, Z.pow_succ_r in Hval by lia.
    rewrite umod_value, udiv_value by lia.
    pose proof (Z.mod_pos_bound val 10 ltac:(lia)) as Hm.
    set (code := 48 + val mod 10).
    rewrite store_in_buffer by lia.
    assert (Hquot : 0 <= val / 10 < 10 ^ Z.of_nat fuel)
      by (split; [apply Z.div_pos; lia | apply Z.div_lt_upper_bound; lia]).
    assert (Hle : val / 10 <= val)
      by (apply Z.div_le_upper_bound; lia).
    assert (Hhere : drop (Z.to_nat p) (<[Z.to_nat p := code]> buf)
                    = code :: drop (Z.to_nat (p + 1)) buf).
    { rewrite drop_insert_here by lia. do 2 f_equal. lia. }
    assert (Hsplit : val = 10 * (val / 10) + val mod 10)
      by (apply Z.div_mod; lia).
    destruct (Z.eq_dec (val / 10) 0) as [Hzero | Hmore].
    + exists (<[Z.to_nat p := code]> buf), [code], code, [].
      rewrite Hzero. split.
      { destruct fuel; reflexivity. }
      split; [now rewrite length_insert |]. split; [simpl; lia |].
      split; [reflexivity |].
      split; [apply (dec_code_value (val mod 10) 0 Hm); lia |]. split.
      { simpl length. replace (p - Z.of_nat 1 + 1) with p by lia.
        exact Hhere. }
      intros acc. subst code.
      rewrite (proj1 (dec_code_value (val mod 10) acc Hm)).
      f_equal. simpl length. change (10 ^ Z.of_nat 1) with 10. lia.
    + destruct (IH (<[Z.to_nat p := code]> buf) (p - 1) (val / 10)
                  ltac:(now rewrite length_insert) ltac:(lia) ltac:(lia)
                  ltac:(lia))
        as (buf' & ds & c & rest & Hloop & Hlen' & Hds & Hcons & Hc0 & Hdrop
            & Hval').
      exists buf', (ds ++ [code]), c, (rest ++ [code]).
      rewrite length_app. simpl length.
      replace (p - Z.of_nat (length ds + 1))
        with (p - 1 - Z.of_nat (length ds)) by lia.
      split; [exact Hloop |]. split; [exact Hlen' |]. split; [lia |].
      split; [now rewrite Hcons |]. split; [exact Hc0 |]. split.
      { rewrite Hdrop. replace (Z.to_nat (p - 1 + 1)) with (Z.to_nat p) by lia.
        rewrite Hhere, <- app_assoc. reflexivity. }
      intros acc. rewrite text_of_app, dec_value_from_app, Hval'.
      subst code. rewrite (proj1 (dec_code_value (val mod 10) _ Hm)).
      f_equal. rewrite Nat2Z.inj_add, Z.pow_add_r by lia.
      change (10 ^ Z.of_nat 1) with 10. lia.
Qed.

(** X21.  Whatever the twenty bytes of its buffer hold beforehand,
    [print_dec] of a 32-bit value prints its decimal digits and a newline:
    between one and ten digits that read back as the value, without a leading
    zero unless the value is 0, which prints as a single 0.  The digits come
    from the software division, and no store leaves the buffer. *)
Theorem print_dec_prints_value (buf : list Z) (val : Z) :
  length buf = 20%nat ->
  0 <= val < 2 ^ 32 ->
  exists digits,
    Hw2.print_dec buf val = Some (digits ++ newline)%string
    /\ dec_value digits = Some val
    /\ (1 <= String.length digits <= 10)%nat
    /\ (val = 0 -> digits = "0"%string)
    /\ (val <> 0 -> forall rest, digits <> String "0" rest).
Proof.
  intros Hlen Hval. unfold Hw2.print_dec.
  rewrite store_in_buffer by lia.
  change (Z.to_nat (20 - 1)) with 19%nat.
  destruct (Z.eqb_spec val 0) as [-> | Hnz].
  - rewrite store_in_buffer by lia. exists "0"%string.
    split.
    { unfold Hw2.printstr. change (Z.to_nat (20 - 1 - 1)) with 18%nat.
      change (Z.to_nat (20 - 1 - 1 - 1 + 1)) with 18%nat.
      rewrite drop_insert_here by (rewrite length_insert; lia).
      rewrite buffer_tail by exact Hlen. reflexivity. }
    split; [reflexivity |]. split; [simpl; lia |].
    split; [reflexivity |]. intros H. lia.
  - destruct (print_dec_loop_digits 10 (<[19%nat := 10]> buf) (20 - 1 - 1) val
                ltac:(now rewrite length_insert) ltac:(simpl; lia) ltac:(lia)
                ltac:(simpl; lia))
      as (buf' & ds & c & rest & Hloop & Hlen' & Hds & Hcons & Hc0 & Hdrop
          & Hparse).
    rewrite Hloop. exists (text_of ds). split.
    { f_equal. unfold Hw2.printstr. rewrite Hdrop.
      change (Z.to_nat (20 - 1 - 1 + 1)) with 19%nat.
      rewrite buffer_tail by exact Hlen.
      rewrite take_ge by (rewrite length_app; simpl; lia).
      now rewrite text_of_app. }
    split.
    { unfold dec_value. rewrite Hparse. f_equal; lia. }
    split; [rewrite text_of_length; lia |].
    split; [intros H; lia |].
    intros _ rest'. rewrite Hcons. cbn [map string_of_list_ascii].
    intros Heq. injection Heq as Hchar _. now apply Hc0.
Qed.

Lemma print_dec_prints_value_witness :
  length (replicate 20 0xAA) = 20%nat /\ 0 <= 4294967295 < 2 ^ 32
  /\ Hw2.print_dec (replicate 20 0xAA) 4294967295
     = Some ("4294967295" ++ newline)%string.
Proof.
  assert (Hlen : length (replicate 20 0xAA) = 20%nat) by reflexivity.
  assert (Hval : 0 <= 4294967295 < 2 ^ 32) by lia.
  split; [exact Hlen |]. split; [exact Hval |].
  destruct (print_dec_prints_value (replicate 20 0xAA) 4294967295 Hlen Hval)
    as (digits & Hprint & _).
  reflexivity.
Defined.

(** ** The estimate *)

Lemma clz_log2 (x : Z) : 0 < x < 2 ^ 32 -> clz x = 31 - Z.log2 x.
Proof.
  intros Hx. destruct (clz_window x Hx) as [Hn [Hlo Hhi]].
  assert (Hlog : Z.log2 x = 31 - clz x).
  { apply Z.log2_unique; [lia |].
    replace (Z.succ (31 - clz x)) with (32 - clz x) by lia. lia. }
  lia.
Qed.

(** Entry 0, where the two tables differ, belongs to the input 1 that
    [fast_rsqrt] answers before it looks anything up. *)
Lemma tables_agree (k : nat) :
  (1 <= k)%nat -> nth k Hw2.rsqrt_table 0 = nth k Csrc.rsqrt_table 0.
Proof.
  intros Hk. destruct k as [| k]; [lia |].
  do 31 (destruct k as [| k]; [reflexivity |]).
  destruct k; reflexivity.
Qed.

(** Below 2^17 the interpolation step changes nothing, whatever the table
    and the product are: it is skipped below 2^16, and from there on the
    difference it scales is that of entry 16 with itself. *)
Lemma fast_rsqrt_with_newton (table : list Z) (product : Z -> Z -> Z)
    (x : Z) :
  2 <= x < 2 ^ 17 ->
  (forall frac, Z.shiftr (product 0 (wrap32 frac)) 16 = 0) ->
  0 <= nth 16 table 0 < 2 ^ 32 ->
  fast_rsqrt_with table product x
  = newton 2 x (nth (Z.to_nat (Z.log2 x)) table 0).
Proof.
  intros Hx Hzero Hentry.
  assert (Hlog : 1 <= Z.log2 x < 17).
  { split; [apply Z.log2_le_pow2; lia | apply Z.log2_lt_pow2; lia]. }
  pose proof (Z.log2_spec x ltac:(lia)) as Hspec.
  unfold fast_rsqrt_with.
  destruct (Z.eqb_spec x 0); [lia |]. destruct (Z.eqb_spec x 1); [lia |].
  rewrite clz_log2 by lia.
  replace (31 - (31 - Z.log2 x)) with (Z.log2 x) by lia.
  assert (Hone : wrap32 (Z.shiftl 1 (31 - Z.log2 x)) = 2 ^ (31 - Z.log2 x)).
  { rewrite shift_in_word; [apply Z.mul_1_l | lia | | lia].
    split; [lia | apply Z.pow_gt_1; lia]. }
  rewrite Hone.
  destruct (Z.gtb_spec x (2 ^ (31 - Z.log2 x))) as [Hgt | Hle];
    [| reflexivity].
  assert (Hsix : Z.log2 x = 16).
  { destruct (Z.eq_dec (Z.log2 x) 16) as [E | E]; [exact E | exfalso].
    assert (Hpow : 2 ^ (Z.log2 x + 1) <= 2 ^ (31 - Z.log2 x))
      by (apply Z.pow_le_mono_r; lia).
    rewrite <- Z.add_1_r in Hspec. lia. }
  rewrite Hsix.
  change (Z.to_nat 16) with 16%nat. change (31 - 16 <? 31) with true.
  change (Z.to_nat (31 - 16 + 1)) with 16%nat. cbv iota.
  rewrite Z.sub_diag. change (wrap32 0) with 0.
  rewrite Hzero. change (wrap32 0) with 0. rewrite Z.sub_0_r.
  unfold wrap32 at 1. rewrite Z.mod_small by exact Hentry. reflexivity.
Qed.

Lemma csrc_fast_rsqrt_newton (x : Z) :
  2 <= x < 2 ^ 17 ->
  Csrc.fast_rsqrt x
  = newton 2 x (nth (Z.to_nat (Z.log2 x)) Csrc.rsqrt_table 0).
Proof.
  intros Hx. apply fast_rsqrt_with_newton; [exact Hx | | simpl; lia].
  intros frac. rewrite mul32_value; [reflexivity | lia |].
  unfold wrap32. apply Z.mod_pos_bound. lia.
Qed.

(** X22.  Below 2^17 the interpolation step of [fast_rsqrt] has no effect:
    its guard compares [x] with 2^clz(x), so the step is skipped for every
    input below 2^16, and from 2^16 on the two table entries it takes are the
    same one.  The result is two Newton iterations from the table entry of
    the top bit of [x], and the two files, which differ in the first table
    entry and in the product of the interpolation, return the same value. *)
Theorem fast_rsqrt_below_2_17 (x : Z) :
  2 <= x < 2 ^ 17 ->
  Csrc.fast_rsqrt x
  = newton 2 x (nth (Z.to_nat (Z.log2 x)) Csrc.rsqrt_table 0)
  /\ Hw2.fast_rsqrt x = Csrc.fast_rsqrt x.
Proof.
  intros Hx.
  assert (Hlog : 1 <= Z.log2 x) by (apply Z.log2_le_pow2; lia).
  split; [now apply csrc_fast_rsqrt_newton |].
  rewrite csrc_fast_rsqrt_newton by exact Hx. unfold Hw2.fast_rsqrt.
  rewrite fast_rsqrt_with_newton;
    [| exact Hx | intros frac; reflexivity
     | change (nth 16 Hw2.rsqrt_table 0) with 256; lia].
  rewrite tables_agree by lia. reflexivity.
Qed.

Lemma fast_rsqrt_below_2_17_witness :
  2 <= 65535 < 2 ^ 17
  /\ Hw2.fast_rsqrt 65535 = Csrc.fast_rsqrt 65535.
Proof.
  assert (H : 2 <= 65535 < 2 ^ 17) by lia.
  split; [exact H |]. exact (proj2 (fast_rsqrt_below_2_17 65535 H)).
Defined.

(** ** Accuracy of the estimate *)

Lemma wrap32_mask (x : Z) : wrap32 x = mask32 x.
Proof.
  unfold wrap32, mask32. change 0xFFFFFFFF with (Z.ones 32).
  now rewrite Z.land_ones by lia.
Qed.

Lemma wrap32_range (x : Z) : 0 <= wrap32 x < 2 ^ 32.
Proof. unfold wrap32. apply Z.mod_pos_bound. lia. Qed.

Lemma newton_with_exact (mul : Z -> Z -> Z) (iterations : nat) :
  (forall a b, 0 <= a < 2 ^ 32 -> 0 <= b < 2 ^ 32 -> mul a b = a * b) ->
  forall x y,
    0 <= x < 2 ^ 32 -> 0 <= y < 2 ^ 32 ->
    newton_with mul iterations x y = newton_exact iterations x y.
Proof.
  intros Hmul.
  induction iterations as [| iterations IH]; intros x y Hx Hy;
    [reflexivity |].
  cbn [newton_with newton_exact].
  rewrite (Hmul y y) by assumption.
  rewrite (Hmul x (wrap32 (y * y))) by (auto using wrap32_range).
  rewrite (Hmul y) by (auto using wrap32_range).
  change (wrap32 (Z.shiftl 3 16)) with 196608.
  rewrite IH by (auto using wrap32_range).
  now rewrite !wrap32_mask.
Qed.

Lemma newton_exact_eq (iterations : nat) (x y : Z) :
  0 <= x < 2 ^ 32 -> 0 <= y < 2 ^ 32 ->
  newton iterations x y = newton_exact iterations x y.
Proof.
  intros Hx Hy. unfold newton.
  apply (newton_with_exact mul32 iterations mul32_value); assumption.
Qed.

Lemma all_from_sound (P : Z -> bool) (n : nat) :
  forall a,
    all_from n a P = true ->
    forall x, a <= x < a + Z.of_nat n -> P x = true.
Proof.
  induction n as [| n IH]; intros a Hall x Hx; [lia |].
  cbn [all_from] in Hall. apply andb_true_iff in Hall as [Hhere Hrest].
  destruct (Z.eq_dec x a) as [-> | Hne]; [exact Hhere |].
  apply (IH (a + 1) Hrest). lia.
Qed.

Lemma table_entry_range (k : nat) : 0 <= nth k Csrc.rsqrt_table 0 < 2 ^ 32.
Proof.
  do 32 (destruct k as [| k]; [simpl; lia |]).
  destruct k; simpl; lia.
Qed.

(** Every input from 2 to 2^17 - 1, evaluated. *)
Lemma estimates_checked :
  all_from (Z.to_nat 131070) 2 newton_estimate_checked = true.
Proof. vm_compute. reflexivity. Qed.

(** X23.  For every input from 1 to 2^17 - 1 the result [y] of [fast_rsqrt],
    read as the fixed-point number y / 2^16, approximates 1 / sqrt x from
    below with y^2 * x between 0.775 * 2^32 and 2^32, that is, [y] is at
    least 88 percent of the exact value.  The only overestimate is at the
    input 2.  Both files return this [y]. *)
Theorem fast_rsqrt_accuracy (x : Z) :
  1 <= x < 2 ^ 17 ->
  let y := Csrc.fast_rsqrt x in
  31 * 2 ^ 32 <= 40 * (y * y * x)
  /\ (x <> 2 -> y * y * x <= 2 ^ 32)
  /\ Hw2.fast_rsqrt x = y.
Proof.
  intros Hx y. subst y.
  destruct (Z.eq_dec x 1) as [-> | Hne].
  { split; [vm_compute; discriminate |].
    split; [intros _; vm_compute; discriminate | reflexivity]. }
  assert (Hrange : 2 <= x < 2 ^ 17) by lia.
  assert (Hhw : Hw2.fast_rsqrt x = Csrc.fast_rsqrt x).
  { assert (Hlog : 1 <= Z.log2 x) by (apply Z.log2_le_pow2; lia).
    rewrite csrc_fast_rsqrt_newton by exact Hrange. unfold Hw2.fast_rsqrt.
    rewrite fast_rsqrt_with_newton;
      [| exact Hrange | intros frac; reflexivity
       | change (nth 16 Hw2.rsqrt_table 0) with 256; lia].
    rewrite tables_agree by lia. reflexivity. }
  rewrite csrc_fast_rsqrt_newton in * by exact Hrange.
  rewrite newton_exact_eq in * by (auto using table_entry_range; lia).
  assert (Hin : 2 <= x < 2 + Z.of_nat (Z.to_nat 131070))
    by (rewrite Z2Nat.id; lia).
  pose proof (all_from_sound _ _ _ estimates_checked x Hin) as Hok.
  clear Hin.
  unfold newton_estimate_checked, within_error_bound in Hok.
  set (y := newton_exact 2 x _) in *.
  apply andb_true_iff in Hok as [Hlow Hhigh].
  apply Z.leb_le in Hlow.
  change (2 ^ 32) with 4294967296.
  split; [lia |]. split; [| exact Hhw].
  intros Htwo. apply orb_true_iff in Hhigh as [Hle | Heq].
  - now apply Z.leb_le in Hle.
  - apply Z.eqb_eq in Heq. contradiction.
Qed.

Lemma fast_rsqrt_accuracy_witness :
  1 <= 65535 < 2 ^ 17
  /\ 31 * 2 ^ 32 <= 40 * (Csrc.fast_rsqrt 65535 * Csrc.fast_rsqrt 65535 * 65535)
  /\ Hw2.fast_rsqrt 65535 = Csrc.fast_rsqrt 65535.
Proof.
  assert (H : 1 <= 65535 < 2 ^ 17) by lia.
  split; [exact H |].
  pose proof (fast_rsqrt_accuracy 65535 H) as (Hlow & _ & Hsame).
  split; [exact Hlow | exact Hsame].
Defined.
